(** * Leaderboard service of mwfc-api: scoring, ranking and gym totals

    A shallow embedding of the leaderboard service (the second part of
    [src/src/index.ts]): the traditional points ladder, rank assignment,
    affiliate-name parsing and the whole of [getLeaderboard], followed by
    the properties the specification states about them.

    Conventions.
    - JavaScript numbers that the program only ever uses as integers
      (ranks, points, loop indices, the [int] columns of the schema) are [Z].
    - A JavaScript [Map] is an association list in insertion order
      ([map_get], [map_set], [map_update]); a [Set] of strings is a
      duplicate-free list.
    - [null] columns are [option]s.
    - Exceptions are a [Completion]: [parseAffiliateName] catches its
      own, [getLeaderboard] fails with the message of the error thrown.
    - [JSON.parse] is untyped, so an affiliate name is whatever JSON
      value the metadata holds ([JValue]); it is the key of the gym map.
    - The database is an external collaborator: a record of the five
      queries [getLeaderboard] issues, each returning its rows.
    - [JSON.parse], [trim], [localeCompare] and the rounded product of
      points and multiplier are parameters of the service.

    Outline: containers and JSON values; types; scoring and rank
    assignment; the service, step by step; the vocabulary of the
    properties and sample data; then the lemmas and theorems, in the
    order ladder, rank assignment, affiliate names, empty leaderboards,
    leaderboard ranks, did-not-finish ranks, results per event,
    athletes per user, gym totals, gym contributors. *)

From Stdlib Require Import ZArith List String Ascii Bool Lia Permutation.
From Stdlib Require Import Sorted SpecFloat.
Import ListNotations.
Local Open Scope string_scope.
Local Open Scope list_scope.
Local Open Scope Z_scope.

Set Implicit Arguments.
Set Warnings "-register-all".

(* ------------------------------------------------------------------ *)
(** ** JavaScript containers *)
(* ------------------------------------------------------------------ *)

Section JsMap.
Context {K V : Type}.
(** Key comparison of the [Map] (SameValueZero on the keys). *)
Variable same : K -> K -> bool.

(** [m.get(k)]: the value of the first entry whose key is [k]. *)
Fixpoint map_get (k : K) (m : list (K * V)) : option V :=
  match m with
  | [] => None
  | (k', v) :: m' => if same k' k then Some v else map_get k m'
  end.

(** [m.set(k, v)]: an existing key keeps its position, a new key goes last. *)
Fixpoint map_set (k : K) (v : V) (m : list (K * V)) : list (K * V) :=
  match m with
  | [] => [(k, v)]
  | (k', v') :: m' =>
      if same k' k then (k', v) :: m' else (k', v') :: map_set k v m'
  end.

(** In-place mutation of the object stored under [k] (nothing when absent). *)
Fixpoint map_update (k : K) (f : V -> V) (m : list (K * V)) : list (K * V) :=
  match m with
  | [] => []
  | (k', v) :: m' =>
      if same k' k then (k', f v) :: m' else (k', v) :: map_update k f m'
  end.

Definition map_values (m : list (K * V)) : list V := List.map snd m.
End JsMap.

(** [const existing = m.get(k) || []; existing.push(x); m.set(k, existing)] *)
Definition group_push {K X : Type} (same : K -> K -> bool)
  (k : K) (x : X) (m : list (K * list X)) : list (K * list X) :=
  let existing := match map_get same k m with Some l => l | None => [] end in
  map_set same k (existing ++ [x]) m.

Section ArraySort.
Context {A : Type}.
(** The comparator: negative when the first argument sorts first. *)
Variable cmp : A -> A -> Z.

Fixpoint sort_insert (x : A) (l : list A) : list A :=
  match l with
  | [] => [x]
  | y :: l' => if cmp x y <=? 0 then x :: y :: l' else y :: sort_insert x l'
  end.

(** [arr.sort(cmp)]: a stable sort (ECMAScript 2019); an element stays in
    front of the later elements it does not compare greater than. *)
Fixpoint Array_sort (l : list A) : list A :=
  match l with
  | [] => []
  | x :: l' => sort_insert x (Array_sort l')
  end.
End ArraySort.

Definition opt_string_eqb (a b : option string) : bool :=
  match a, b with
  | Some x, Some y => String.eqb x y
  | None, None => true
  | _, _ => false
  end.

Definition opt_Z_eqb (a b : option Z) : bool :=
  match a, b with
  | Some x, Some y => Z.eqb x y
  | None, None => true
  | _, _ => false
  end.

(** Truthiness of a [string | null]: neither [null] nor the empty string. *)
Definition truthy_string (s : option string) : bool :=
  match s with
  | Some s' => negb (String.eqb s' "")
  | None => false
  end.

(** [s || d] on a [string | null]. *)
Definition or_default (s : option string) (d : string) : string :=
  if truthy_string s then match s with Some s' => s' | None => d end else d.

Definition sum_Z (l : list Z) : Z := fold_right Z.add 0 l.

(* ------------------------------------------------------------------ *)
(** ** JSON values, as [JSON.parse] returns them *)
(* ------------------------------------------------------------------ *)

(** The values [JSON.parse] returns, and [undefined] for the property
    reads on them.  A number is a double in canonical form; a [JObj]
    lists the own properties in the order [Object.values] enumerates
    them. *)
Inductive JValue : Type :=
| JUndefined : JValue
| JNull : JValue
| JBool : bool -> JValue
| JNum : spec_float -> JValue
| JStr : string -> JValue
| JArr : list JValue -> JValue
| JObj : list (string * JValue) -> JValue.

(** [!!v] *)
Definition js_truthy (v : JValue) : bool :=
  match v with
  | JUndefined => false
  | JNull => false
  | JBool b => b
  | JNum (S754_zero _) => false
  | JNum S754_nan => false
  | JNum _ => true
  | JStr s => negb (String.eqb s "")
  | JArr _ => true
  | JObj _ => true
  end.

(** Outcome of an expression that may throw. *)
Inductive Completion (A : Type) : Type :=
| Normal : A -> Completion A
| Throw : string -> Completion A.
Arguments Normal {A} _.
Arguments Throw {A} _.

(** [v.name] for a name that is neither an array index nor a built-in
    property: [undefined] unless [v] is an object with that property;
    reading a property of [null] or [undefined] throws a TypeError. *)
Definition js_prop (v : JValue) (name : string) : Completion JValue :=
  match v with
  | JUndefined => Throw "TypeError"
  | JNull => Throw "TypeError"
  | JObj props =>
      match map_get String.eqb name props with
      | Some x => Normal x
      | None => Normal JUndefined
      end
  | _ => Normal JUndefined
  end.

(** [Object.values(v)]: property values of an object, elements of an
    array, the characters of a string, nothing for a number or a
    boolean; a TypeError for [null] and [undefined]. *)
Definition Object_values (v : JValue) : Completion (list JValue) :=
  match v with
  | JUndefined => Throw "TypeError"
  | JNull => Throw "TypeError"
  | JObj props => Normal (List.map snd props)
  | JArr elems => Normal elems
  | JStr s =>
      Normal (List.map (fun c => JStr (String c EmptyString)) (list_ascii_of_string s))
  | _ => Normal []
  end.

(** [xs[0]] *)
Definition js_first (xs : list JValue) : JValue :=
  match xs with
  | [] => JUndefined
  | x :: _ => x
  end.

(** [typeof v === "string"] *)
Definition is_string (v : JValue) : bool :=
  match v with
  | JStr _ => true
  | _ => false
  end.

(** SameValueZero on the values used as [Map] keys.  Arrays and objects
    are compared by identity, and every one of them comes from a
    [JSON.parse] call of its own, so two such keys are never the same. *)
Definition sameValueZero (a b : JValue) : bool :=
  match a, b with
  | JUndefined, JUndefined => true
  | JNull, JNull => true
  | JBool x, JBool y => Bool.eqb x y
  | JNum S754_nan, JNum S754_nan => true
  | JNum x, JNum y => SFeqb x y
  | JStr x, JStr y => String.eqb x y
  | _, _ => false
  end.

(* ------------------------------------------------------------------ *)
(** ** Types of the service *)
(* ------------------------------------------------------------------ *)

Record AthleteEventResult : Type := {
  eventId : string;
  eventName : string;
  points : Z;
  rank : Z
}.

Record LeaderboardAthlete : Type := {
  la_rank : Z;
  la_userId : string;
  la_name : string;
  la_affiliateName : JValue;
  la_events : list AthleteEventResult;
  la_totalPoints : Z
}.

Record DivisionLeaderboard : Type := {
  div_id : string;
  div_name : string;
  div_athletes : list LeaderboardAthlete
}.

Record GymAthleteEvent : Type := {
  ge_eventId : string;
  ge_eventName : string;
  ge_points : Z;
  ge_contributing : bool
}.

Record GymAthleteEntry : Type := {
  gae_name : string;
  gae_division : string;
  gae_divisionRank : Z;
  gae_events : list GymAthleteEvent;
  gae_contributingTotal : Z
}.

Record GymLeaderboard : Type := {
  gym_name : JValue;
  gym_rank : Z;
  gym_athleteCount : Z;
  gym_totalScore : Z;
  gym_athletes : list GymAthleteEntry
}.

Record Competition : Type := {
  comp_id : string;
  comp_name : string
}.

Record LeaderboardResponse : Type := {
  competition : Competition;
  divisions : list DivisionLeaderboard;
  gyms : list GymLeaderboard
}.

(** The rows the five queries of [getLeaderboard] select. *)
Record TrackRow : Type := { track_id : string }.

Record EventRow : Type := {
  ev_id : string;
  ev_trackOrder : Z;
  ev_pointsMultiplier : option Z;
  ev_workoutId : string;
  ev_workoutName : string;
  ev_scheme : string
}.

Record RegistrationRow : Type := {
  reg_regId : string;
  reg_userId : string;
  reg_divisionId : option string;
  reg_metadata : option string;
  reg_firstName : option string;
  reg_lastName : option string;
  reg_divisionLabel : option string
}.

Record ScoreRow : Type := {
  sc_userId : string;
  sc_competitionEventId : option string;
  sc_scoreValue : option Z;
  sc_status : string;
  sc_sortKey : option string
}.

(** The database as [getLeaderboard] sees it: one function per query,
    with the [where], [limit] and [orderBy] clauses already applied.
    - [selectCompetition id]: the competition with that id;
    - [selectTrack id]: a programming track of the competition;
    - [selectEvents trackId]: the track's workouts whose event status is
      ["published"], by track order;
    - [selectRegistrations id]: the competition's registrations whose
      status is not ["REMOVED"];
    - [selectScores eventIds userIds]: the scores of these events and users. *)
Record Database : Type := {
  selectCompetition : string -> option Competition;
  selectTrack : string -> option TrackRow;
  selectEvents : string -> list EventRow;
  selectRegistrations : string -> list RegistrationRow;
  selectScores : list string -> list string -> list ScoreRow
}.

(* ------------------------------------------------------------------ *)
(** ** Scoring: traditional points *)
(* ------------------------------------------------------------------ *)

Definition TRADITIONAL_FIRST_PLACE : Z := 100.
Definition TRADITIONAL_STEP : Z := 5.

Definition calculateTraditionalPoints (place : Z) : Z :=
  if place <=? 0 then TRADITIONAL_FIRST_PLACE
  else
    let points := TRADITIONAL_FIRST_PLACE - (place - 1) * TRADITIONAL_STEP in
    Z.max 0 points.

(* ------------------------------------------------------------------ *)
(** ** Rank assignment *)
(* ------------------------------------------------------------------ *)

Record ScoreEntry : Type := {
  se_userId : string;
  se_value : option Z;
  se_status : string;
  se_sortKey : option string
}.

Definition isSome {A : Type} (o : option A) : bool :=
  match o with Some _ => true | None => false end.

(** One turn of the loop of [assignRanks] at index [i]: the rank the
    entry receives, given the rank and the entry of the previous turn. *)
Definition nextRank (i : Z) (currentRank : Z)
  (prevSortKey : option string) (prevValue : option Z) (entry : ScoreEntry) : Z :=
  if truthy_string (se_sortKey entry) && isSome prevSortKey then
    if negb (opt_string_eqb (se_sortKey entry) prevSortKey) then i + 1 else currentRank
  else if isSome prevValue && negb (opt_Z_eqb (se_value entry) prevValue) then i + 1
  else currentRank.

Fixpoint assignRanks_loop (i : Z) (currentRank : Z)
  (prevSortKey : option string) (prevValue : option Z)
  (sorted : list ScoreEntry) : list (ScoreEntry * Z) :=
  match sorted with
  | [] => []
  | entry :: rest =>
      let currentRank' := nextRank i currentRank prevSortKey prevValue entry in
      (entry, currentRank')
        :: assignRanks_loop (i + 1) currentRank' (se_sortKey entry) (se_value entry) rest
  end.

Definition assignRanks (sorted : list ScoreEntry) : list (ScoreEntry * Z) :=
  assignRanks_loop 0 1 None None sorted.

(* ------------------------------------------------------------------ *)
(** ** Exceptions *)
(* ------------------------------------------------------------------ *)

Definition bind {A B : Type} (c : Completion A) (k : A -> Completion B) : Completion B :=
  match c with
  | Normal a => k a
  | Throw e => Throw e
  end.

Notation "x <- c ;; k" := (bind c (fun x => k))
  (at level 61, c at next level, right associativity).

(** [try { body } catch { handler }] *)
Definition try_catch {A : Type} (body : Completion A) (handler : Completion A) : Completion A :=
  match body with
  | Normal a => Normal a
  | Throw _ => handler
  end.

(** The athlete records of [athleteMap]. *)
Record Athlete : Type := {
  a_userId : string;
  a_name : string;
  a_affiliateName : JValue;
  a_divisionId : string;
  a_divisionLabel : string;
  a_events : list AthleteEventResult;
  a_totalPoints : Z
}.

Definition TOP_PER_DIVISION : nat := 6.

(** Rank loop shared by the division and the gym leaderboards:
    [if (i > 0 && xs[i].total < xs[i - 1].total) rank = i + 1; xs[i].rank = rank]. *)
Section RankByTotal.
Context {A : Type}.
Variable total : A -> Z.
Variable setRank : Z -> A -> A.

Fixpoint rankByTotal_loop (i rank : Z) (prevTotal : option Z) (l : list A) : list A :=
  match l with
  | [] => []
  | x :: rest =>
      let rank' :=
        match prevTotal with
        | Some p => if total x <? p then i + 1 else rank
        | None => rank
        end in
      setRank rank' x :: rankByTotal_loop (i + 1) rank' (Some (total x)) rest
  end.

Definition rankByTotal (l : list A) : list A := rankByTotal_loop 0 1 None l.
End RankByTotal.

Definition set_has (x : string) (s : list string) : bool :=
  existsb (String.eqb x) s.

(** [s.add(x)] on a [Set<string>] *)
Definition set_add (x : string) (s : list string) : list string :=
  if set_has x s then s else s ++ [x].

(* ------------------------------------------------------------------ *)
(** ** The service *)
(* ------------------------------------------------------------------ *)

Section Service.

(** Built-ins of the platform, left abstract:
    - [JSON_parse s] is [JSON.parse(s)], throwing on invalid JSON;
    - [String_trim s] is [s.trim()];
    - [localeCompare a b] is [a.localeCompare(b)];
    - [roundWeighted p m] is [Math.round(p * (m / 100))] in double
      arithmetic, for the ladder points [p] and the multiplier [m]. *)
Variable JSON_parse : string -> Completion JValue.
Variable String_trim : string -> string.
Variable localeCompare : string -> string -> Z.
Variable roundWeighted : Z -> Z -> Z.

Definition Unaffiliated : JValue := JStr "Unaffiliated".

Definition parseAffiliateName (metadata : option string) : Completion JValue :=
  if negb (truthy_string metadata) then Normal Unaffiliated
  else
    match metadata with
    | None => Normal Unaffiliated
    | Some md =>
        try_catch
          (parsed <- JSON_parse md ;;
           affiliateName <- js_prop parsed "affiliateName" ;;
           if js_truthy affiliateName then Normal affiliateName
           else
             affiliates <- js_prop parsed "affiliates" ;;
             if js_truthy affiliates then
               values <- Object_values affiliates ;;
               let first := js_first values in
               if is_string first then Normal first else Normal Unaffiliated
             else Normal Unaffiliated)
          (Normal Unaffiliated)
    end.

(** *** Step 6: one athlete record per registration *)

Definition fullName (reg : RegistrationRow) : string :=
  or_default
    (Some (String_trim
             (String.append (or_default (reg_firstName reg) "")
                (String.append " " (or_default (reg_lastName reg) "")))))
    "Unknown".

Fixpoint buildAthleteMap (registrations : list RegistrationRow)
  (athleteMap : list (string * Athlete)) : Completion (list (string * Athlete)) :=
  match registrations with
  | [] => Normal athleteMap
  | reg :: rest =>
      affiliateName <- parseAffiliateName (reg_metadata reg) ;;
      buildAthleteMap rest
        (map_set String.eqb (reg_userId reg)
           {| a_userId := reg_userId reg;
              a_name := fullName reg;
              a_affiliateName := affiliateName;
              a_divisionId := or_default (reg_divisionId reg) "open";
              a_divisionLabel := or_default (reg_divisionLabel reg) "Open";
              a_events := [];
              a_totalPoints := 0 |}
           athleteMap)
  end.

(** *** Step 7: per-event rankings and points, division by division *)

Definition toScoreEntry (score : ScoreRow) : ScoreEntry :=
  {| se_userId := sc_userId score;
     se_value := sc_scoreValue score;
     se_status := sc_status score;
     se_sortKey := sc_sortKey score |}.

(** The [divisionScores] map of one event. *)
Definition collectDivisionScores (athleteMap : list (string * Athlete))
  (event : EventRow) (allScores : list ScoreRow) : list (string * list ScoreEntry) :=
  fold_left
    (fun divisionScores score =>
       if negb (opt_string_eqb (sc_competitionEventId score) (Some (ev_id event)))
       then divisionScores
       else
         match map_get String.eqb (sc_userId score) athleteMap with
         | None => divisionScores
         | Some athlete =>
             group_push String.eqb (a_divisionId athlete) (toScoreEntry score)
               divisionScores
         end)
    allScores [].

Definition isActive (s : ScoreEntry) : bool :=
  String.eqb (se_status s) "scored" || String.eqb (se_status s) "cap".

Definition isDnf (s : ScoreEntry) : bool := String.eqb (se_status s) "dnf".

Definition value_or_0 (v : option Z) : Z :=
  match v with Some x => x | None => 0 end.

(** The comparator of [active.sort]. *)
Definition compareActive (a b : ScoreEntry) : Z :=
  if truthy_string (se_sortKey a) && truthy_string (se_sortKey b) then
    match se_sortKey a, se_sortKey b with
    | Some ka, Some kb => localeCompare ka kb
    | _, _ => 0
    end
  else value_or_0 (se_value a) - value_or_0 (se_value b).

(** [athlete.events.push(r); athlete.totalPoints += r.points] *)
Definition pushResult (r : AthleteEventResult) (athlete : Athlete) : Athlete :=
  {| a_userId := a_userId athlete;
     a_name := a_name athlete;
     a_affiliateName := a_affiliateName athlete;
     a_divisionId := a_divisionId athlete;
     a_divisionLabel := a_divisionLabel athlete;
     a_events := a_events athlete ++ [r];
     a_totalPoints := a_totalPoints athlete + points r |}.

(** The body shared by the two award loops: look the athlete up, skip
    when unknown, otherwise record the result. *)
Definition award (event : EventRow) (multiplier : Z) (userId : string) (rank : Z)
  (athleteMap : list (string * Athlete)) : list (string * Athlete) :=
  let points := roundWeighted (calculateTraditionalPoints rank) multiplier in
  map_update String.eqb userId
    (pushResult {| eventId := ev_id event;
                   eventName := ev_workoutName event;
                   points := points;
                   rank := rank |})
    athleteMap.

Definition rankActive (divScores : list ScoreEntry) : list (ScoreEntry * Z) :=
  let active := filter isActive divScores in
  assignRanks (Array_sort compareActive active).

(** [ranked.length > 0 ? ranked[ranked.length - 1].rank : 0] *)
Definition lastActiveRank (ranked : list (ScoreEntry * Z)) : Z :=
  last (List.map snd ranked) 0.

Definition processDivision (event : EventRow) (multiplier : Z)
  (divScores : list ScoreEntry) (athleteMap : list (string * Athlete))
  : list (string * Athlete) :=
  let dnfScores := filter isDnf divScores in
  let ranked := rankActive divScores in
  let lastRank := lastActiveRank ranked in
  let athleteMap1 :=
    fold_left
      (fun m (er : ScoreEntry * Z) => award event multiplier (se_userId (fst er)) (snd er) m)
      ranked athleteMap in
  fold_left
    (fun m entry => award event multiplier (se_userId entry) (lastRank + 1) m)
    dnfScores athleteMap1.

Definition hasEvent (event : EventRow) (athlete : Athlete) : bool :=
  existsb (fun e => String.eqb (eventId e) (ev_id event)) (a_events athlete).

Definition pushPlaceholder (event : EventRow) (athlete : Athlete) : Athlete :=
  {| a_userId := a_userId athlete;
     a_name := a_name athlete;
     a_affiliateName := a_affiliateName athlete;
     a_divisionId := a_divisionId athlete;
     a_divisionLabel := a_divisionLabel athlete;
     a_events := a_events athlete
                 ++ [{| eventId := ev_id event;
                        eventName := ev_workoutName event;
                        points := 0;
                        rank := 0 |}];
     a_totalPoints := a_totalPoints athlete |}.

(** Athletes with no result for this event get a zero. *)
Definition fillMissing (event : EventRow) (athleteMap : list (string * Athlete))
  : list (string * Athlete) :=
  List.map
    (fun ka : string * Athlete =>
       if hasEvent event (snd ka) then ka else (fst ka, pushPlaceholder event (snd ka)))
    athleteMap.

Definition processEvent (allScores : list ScoreRow)
  (athleteMap : list (string * Athlete)) (event : EventRow) : list (string * Athlete) :=
  let divisionScores := collectDivisionScores athleteMap event allScores in
  let multiplier := match ev_pointsMultiplier event with Some m => m | None => 100 end in
  let athleteMap1 :=
    fold_left
      (fun m (g : string * list ScoreEntry) => processDivision event multiplier (snd g) m)
      divisionScores athleteMap in
  fillMissing event athleteMap1.

Definition computeResults (events : list EventRow) (allScores : list ScoreRow)
  (athleteMap : list (string * Athlete)) : list (string * Athlete) :=
  fold_left (processEvent allScores) events athleteMap.

(** *** Step 8: division leaderboards *)

Definition toLeaderboardAthlete (athlete : Athlete) : LeaderboardAthlete :=
  {| la_rank := 0;
     la_userId := a_userId athlete;
     la_name := a_name athlete;
     la_affiliateName := a_affiliateName athlete;
     la_events := a_events athlete;
     la_totalPoints := a_totalPoints athlete |}.

Definition pushAthlete (a : LeaderboardAthlete) (div : DivisionLeaderboard)
  : DivisionLeaderboard :=
  {| div_id := div_id div;
     div_name := div_name div;
     div_athletes := div_athletes div ++ [a] |}.

Definition addToDivision (divisionGroups : list (string * DivisionLeaderboard))
  (athlete : Athlete) : list (string * DivisionLeaderboard) :=
  let divisionGroups1 :=
    match map_get String.eqb (a_divisionId athlete) divisionGroups with
    | Some _ => divisionGroups
    | None =>
        map_set String.eqb (a_divisionId athlete)
          {| div_id := a_divisionId athlete;
             div_name := a_divisionLabel athlete;
             div_athletes := [] |}
          divisionGroups
    end in
  map_update String.eqb (a_divisionId athlete)
    (pushAthlete (toLeaderboardAthlete athlete)) divisionGroups1.

Definition groupDivisions (athleteMap : list (string * Athlete))
  : list (string * DivisionLeaderboard) :=
  fold_left addToDivision (map_values athleteMap) [].

Definition setAthleteRank (r : Z) (a : LeaderboardAthlete) : LeaderboardAthlete :=
  {| la_rank := r;
     la_userId := la_userId a;
     la_name := la_name a;
     la_affiliateName := la_affiliateName a;
     la_events := la_events a;
     la_totalPoints := la_totalPoints a |}.

(** [(a, b) => b.totalPoints - a.totalPoints] *)
Definition byTotalPointsDesc (a b : LeaderboardAthlete) : Z :=
  la_totalPoints b - la_totalPoints a.

Definition rankDivision (div : DivisionLeaderboard) : DivisionLeaderboard :=
  {| div_id := div_id div;
     div_name := div_name div;
     div_athletes :=
       rankByTotal la_totalPoints setAthleteRank
         (Array_sort byTotalPointsDesc (div_athletes div)) |}.

Definition buildDivisions (athleteMap : list (string * Athlete))
  : list (string * DivisionLeaderboard) :=
  List.map (fun kd : string * DivisionLeaderboard => (fst kd, rankDivision (snd kd)))
    (groupDivisions athleteMap).

(** *** Step 9: gym leaderboard *)

Definition buildDivisionRankMap (divisionGroups : list (string * DivisionLeaderboard))
  : list (string * Z) :=
  fold_left
    (fun m div =>
       fold_left (fun m' a => map_set String.eqb (la_userId a) (la_rank a) m')
         (div_athletes div) m)
    (map_values divisionGroups) [].

Definition groupGyms (athleteMap : list (string * Athlete))
  : list (JValue * list string) :=
  fold_left
    (fun gymAthleteIds athlete =>
       group_push sameValueZero (a_affiliateName athlete) (a_userId athlete)
         gymAthleteIds)
    (map_values athleteMap) [].

Definition unknownAthlete : Athlete :=
  {| a_userId := ""; a_name := ""; a_affiliateName := JUndefined;
     a_divisionId := ""; a_divisionLabel := ""; a_events := []; a_totalPoints := 0 |}.

(** [athleteMap.get(uid)!]: the ids looked up were collected from the
    map itself, so the athlete is there (lemma [groupGyms_known]). *)
Definition getAthlete (athleteMap : list (string * Athlete)) (uid : string) : Athlete :=
  match map_get String.eqb uid athleteMap with
  | Some athlete => athlete
  | None => unknownAthlete
  end.

(** [athlete.events.find((e) => e.eventId === event.id)?.points ?? 0] *)
Definition eventPoints (athlete : Athlete) (event : EventRow) : Z :=
  match find (fun e => String.eqb (eventId e) (ev_id event)) (a_events athlete) with
  | Some eventResult => points eventResult
  | None => 0
  end.

(** The [byDiv] map of one gym and event. *)
Definition groupByDivision (athleteMap : list (string * Athlete))
  (event : EventRow) (userIds : list string) : list (string * list (string * Z)) :=
  fold_left
    (fun byDiv uid =>
       let athlete := getAthlete athleteMap uid in
       group_push String.eqb (a_divisionLabel athlete) (uid, eventPoints athlete event)
         byDiv)
    userIds [].

(** [(a, b) => b.points - a.points] *)
Definition byPointsDesc (a b : string * Z) : Z := snd b - snd a.

(** State of the contribution loops: [contributingMap] and [totalScore]. *)
Definition ContribState : Type := (list (string * list string) * Z)%type.

Definition markContributing (event : EventRow) (st : ContribState) (da : string * Z)
  : ContribState :=
  let (contributingMap, totalScore) := st in
  let uid := fst da in
  let contributingMap1 :=
    match map_get String.eqb uid contributingMap with
    | Some _ => contributingMap
    | None => map_set String.eqb uid [] contributingMap
    end in
  (map_update String.eqb uid (set_add (ev_id event)) contributingMap1,
   totalScore + snd da).

(** Pick the top 6 of one division for this event. *)
Definition pickTop (event : EventRow) (st : ContribState) (divAthletes : list (string * Z))
  : ContribState :=
  fold_left (markContributing event)
    (firstn TOP_PER_DIVISION (Array_sort byPointsDesc divAthletes)) st.

Definition contributeEvent (athleteMap : list (string * Athlete))
  (userIds : list string) (st : ContribState) (event : EventRow) : ContribState :=
  fold_left (fun st' (g : string * list (string * Z)) => pickTop event st' (snd g))
    (groupByDivision athleteMap event userIds) st.

Definition gymEventStep (athlete : Athlete) (contribEvents : list string)
  (acc : Z * list GymAthleteEvent) (event : EventRow) : Z * list GymAthleteEvent :=
  let points := eventPoints athlete event in
  let isContributing := set_has (ev_id event) contribEvents in
  ((if isContributing then fst acc + points else fst acc),
   snd acc ++ [{| ge_eventId := ev_id event;
                  ge_eventName := ev_workoutName event;
                  ge_points := points;
                  ge_contributing := isContributing |}]).

Definition buildEntry (athleteMap : list (string * Athlete)) (events : list EventRow)
  (divisionRankMap : list (string * Z)) (contributingMap : list (string * list string))
  (uid : string) : GymAthleteEntry :=
  let athlete := getAthlete athleteMap uid in
  let contribEvents :=
    match map_get String.eqb uid contributingMap with Some s => s | None => [] end in
  let result := fold_left (gymEventStep athlete contribEvents) events (0, []) in
  {| gae_name := a_name athlete;
     gae_division := a_divisionLabel athlete;
     gae_divisionRank :=
       match map_get String.eqb uid divisionRankMap with Some r => r | None => 0 end;
     gae_events := snd result;
     gae_contributingTotal := fst result |}.

(** [(a, b) => b.contributingTotal - a.contributingTotal] *)
Definition byContributingTotalDesc (a b : GymAthleteEntry) : Z :=
  gae_contributingTotal b - gae_contributingTotal a.

Definition buildGym (athleteMap : list (string * Athlete)) (events : list EventRow)
  (divisionRankMap : list (string * Z)) (g : JValue * list string) : GymLeaderboard :=
  let (gymName, userIds) := g in
  let st := fold_left (contributeEvent athleteMap userIds) events ([], 0) in
  let athleteEntries :=
    List.map (buildEntry athleteMap events divisionRankMap (fst st)) userIds in
  {| gym_name := gymName;
     gym_rank := 0;
     gym_athleteCount := Z.of_nat (List.length userIds);
     gym_totalScore := snd st;
     gym_athletes := Array_sort byContributingTotalDesc athleteEntries |}.

Definition setGymRank (r : Z) (g : GymLeaderboard) : GymLeaderboard :=
  {| gym_name := gym_name g;
     gym_rank := r;
     gym_athleteCount := gym_athleteCount g;
     gym_totalScore := gym_totalScore g;
     gym_athletes := gym_athletes g |}.

(** [(a, b) => b.totalScore - a.totalScore] *)
Definition byTotalScoreDesc (a b : GymLeaderboard) : Z :=
  gym_totalScore b - gym_totalScore a.

Definition buildGyms (athleteMap : list (string * Athlete)) (events : list EventRow)
  (divisionGroups : list (string * DivisionLeaderboard)) : list GymLeaderboard :=
  let divisionRankMap := buildDivisionRankMap divisionGroups in
  let gyms := List.map (buildGym athleteMap events divisionRankMap) (groupGyms athleteMap) in
  let nonEmptyGyms := filter (fun g => 0 <? gym_athleteCount g) gyms in
  rankByTotal gym_totalScore setGymRank (Array_sort byTotalScoreDesc nonEmptyGyms).

(** *** The whole computation *)

Definition emptyLeaderboard (comp : Competition) : LeaderboardResponse :=
  {| competition := comp; divisions := []; gyms := [] |}.

Definition getLeaderboard (db : Database) (competitionId : string)
  : Completion LeaderboardResponse :=
  match selectCompetition db competitionId with
  | None => Throw "Competition not found"
  | Some comp =>
      match selectTrack db competitionId with
      | None => Normal (emptyLeaderboard comp)
      | Some track =>
          let events := selectEvents db (track_id track) in
          if Nat.eqb (List.length events) 0 then Normal (emptyLeaderboard comp)
          else
            let registrations := selectRegistrations db competitionId in
            if Nat.eqb (List.length registrations) 0 then Normal (emptyLeaderboard comp)
            else
              let eventIds := List.map ev_id events in
              let userIds := List.map reg_userId registrations in
              let allScores := selectScores db eventIds userIds in
              athleteMap0 <- buildAthleteMap registrations [] ;;
              let athleteMap := computeResults events allScores athleteMap0 in
              let divisionGroups := buildDivisions athleteMap in
              Normal {| competition := comp;
                        divisions := map_values divisionGroups;
                        gyms := buildGyms athleteMap events divisionGroups |}
      end
  end.

End Service.

(* ------------------------------------------------------------------ *)
(** ** The HTTP entry point *)
(* ------------------------------------------------------------------ *)

(** What [handleRequest] reads of a request: the method, the path of
    the URL and the [Origin] header. *)
Record Request : Type := {
  req_method : string;
  req_pathname : string;
  req_origin : option string
}.

(** [ALLOWED_ORIGINS] of the environment; the other fields only
    configure the database client. *)
Record Env : Type := {
  ALLOWED_ORIGINS : option string
}.

(** The body given to [new Response] or [Response.json]. *)
Inductive Body : Type :=
| NoBody : Body
| ErrorBody : string -> Body
| LeaderboardBody : LeaderboardResponse -> Body.

(** A response as it is constructed: the status, the headers of the
    init object in source order, and the body. *)
Record Response : Type := {
  res_status : Z;
  res_headers : list (string * string);
  res_body : Body
}.

(** The database client [createDb] returns: the queries of the service
    and the lookup of a competition id by slug. *)
Record Backend : Type := {
  backend_db : Database;
  selectCompetitionIdBySlug : string -> option string
}.

(** [s.split(sep)] for a separator of one character. *)
Fixpoint splitOn (sep : ascii) (s : string) : list string :=
  match s with
  | EmptyString => [EmptyString]
  | String c rest =>
      if Ascii.eqb c sep then EmptyString :: splitOn sep rest
      else
        match splitOn sep rest with
        | [] => [String c EmptyString]
        | first :: others => String c first :: others
        end
  end.

Definition hasSlash (s : string) : bool :=
  existsb (Ascii.eqb "/"%char) (list_ascii_of_string s).

(** [pathname.match(/^\/leaderboard\/([^/]+)$/)]: the captured segment. *)
Definition matchLeaderboard (pathname : string) : option string :=
  if String.prefix "/leaderboard/" pathname then
    let segment := String.substring 13 (String.length pathname - 13) pathname in
    if String.eqb segment "" || hasSlash segment then None else Some segment
  else None.

(** [xs[0] || d] on an array of strings. *)
Definition first_or (xs : list string) (d : string) : string :=
  match xs with
  | [] => d
  | x :: _ => if String.eqb x "" then d else x
  end.

(** [Response.json(body, { status, headers })] *)
Definition Response_json (body : Body) (status : Z) (headers : list (string * string))
  : Response :=
  {| res_status := status; res_headers := headers; res_body := body |}.

Section Http.

(** Built-ins and libraries, left abstract:
    - [decodeURIComponent s], throwing on a malformed escape;
    - [rejectionMessage msg]: the message of the error with which
      [Effect.runPromise] rejects when the service fails with an error
      of message [msg];
    - the built-ins of the service. *)
Variable decodeURIComponent : string -> Completion string.
Variable rejectionMessage : string -> string.
Variable JSON_parse : string -> Completion JValue.
Variable String_trim : string -> string.
Variable localeCompare : string -> string -> Z.
Variable roundWeighted : Z -> Z -> Z.

Definition allowedOrigins (env : Env) : list string :=
  List.map String_trim (splitOn ","%char (or_default (ALLOWED_ORIGINS env) "")).

Definition corsOrigin (request : Request) (env : Env) : string :=
  let origin := or_default (req_origin request) "" in
  if existsb (String.eqb origin) (allowedOrigins env) then origin
  else first_or (allowedOrigins env) "*".

Definition corsHeaders (request : Request) (env : Env) : list (string * string) :=
  [ ("Access-Control-Allow-Origin", corsOrigin request env);
    ("Access-Control-Allow-Methods", "GET, OPTIONS");
    ("Access-Control-Allow-Headers", "Content-Type") ].

(** [await Effect.runPromise(program)] and the [try]/[catch] around it. *)
Definition runLeaderboard (request : Request) (env : Env) (backend : Backend)
  (competitionId : string) : Response :=
  match getLeaderboard JSON_parse String_trim localeCompare roundWeighted
          (backend_db backend) competitionId with
  | Normal result =>
      Response_json (LeaderboardBody result) 200
        (corsHeaders request env
         ++ [ ("Content-Type", "application/json");
              ("Cache-Control", "s-maxage=60") ])
  | Throw failure =>
      let message := rejectionMessage failure in
      let status := if String.eqb message "Competition not found" then 404 else 500 in
      Response_json (ErrorBody message) status (corsHeaders request env)
  end.

Definition handleRequest (request : Request) (env : Env) (backend : Backend)
  : Completion Response :=
  if String.eqb (req_method request) "OPTIONS" then
    Normal {| res_status := 204;
              res_headers := corsHeaders request env;
              res_body := NoBody |}
  else
    match matchLeaderboard (req_pathname request) with
    | None =>
        Normal (Response_json (ErrorBody "Not found") 404 (corsHeaders request env))
    | Some segment =>
        if negb (String.eqb (req_method request) "GET") then
          Normal (Response_json (ErrorBody "Not found") 404 (corsHeaders request env))
        else
          idOrSlug <- decodeURIComponent segment ;;
          if negb (String.prefix "comp_" idOrSlug) then
            match selectCompetitionIdBySlug backend idOrSlug with
            | None =>
                Normal (Response_json (ErrorBody "Competition not found") 404
                          (corsHeaders request env))
            | Some id => Normal (runLeaderboard request env backend id)
            end
          else Normal (runLeaderboard request env backend idOrSlug)
    end.

(** The [fetch] handler of the worker. *)
Definition fetch (request : Request) (env : Env) (backend : Backend) : Response :=
  match handleRequest request env backend with
  | Normal response => response
  | Throw message => Response_json (ErrorBody message) 500 []
  end.

End Http.

(* ------------------------------------------------------------------ *)
(** ** Vocabulary of the specification *)
(* ------------------------------------------------------------------ *)

(** *** Ranks *)

(** The comparison key of the specification: two entries have the same
    key when both carry a sort key and the sort keys are equal, or, when
    one of them carries none, when their values are equal, a missing
    value counting as 0. *)
Definition specSameKey (prev cur : ScoreEntry) : bool :=
  if truthy_string (se_sortKey prev) && truthy_string (se_sortKey cur)
  then opt_string_eqb (se_sortKey cur) (se_sortKey prev)
  else Z.eqb (value_or_0 (se_value cur)) (value_or_0 (se_value prev)).

(** The ranks the specification gives a sorted list: 1 for the first
    entry, then the predecessor's rank on an equal key and the 1-based
    position otherwise. *)
Fixpoint specRanks_from (pos prevRank : Z) (prev : ScoreEntry)
  (l : list ScoreEntry) : list Z :=
  match l with
  | [] => []
  | cur :: rest =>
      let r := if specSameKey prev cur then prevRank else pos in
      r :: specRanks_from (pos + 1) r cur rest
  end.

Definition specRanks (l : list ScoreEntry) : list Z :=
  match l with
  | [] => []
  | first :: rest => 1 :: specRanks_from 2 1 first rest
  end.

(** Entries on which the rank loop and the comparator read the data the
    same way: a value is present and a sort key is never the empty string. *)
Definition plainEntry (e : ScoreEntry) : bool :=
  isSome (se_value e) && negb (opt_string_eqb (se_sortKey e) (Some "")).

(** The largest rank among the active entries of a group, 0 without any. *)
Definition maxActiveRank (localeCompare : string -> string -> Z)
  (divScores : list ScoreEntry) : Z :=
  fold_right Z.max 0 (List.map snd (rankActive localeCompare divScores)).

(** Order of a list sorted by descending key. *)
Definition descending {A : Type} (key : A -> Z) (a b : A) : Prop := key b <= key a.

(** Dense ranking of a list by a total: it is sorted by descending total,
    starts at rank 1, keeps the rank on an equal total and jumps to the
    1-based position on a lower one. *)
Section DenseRanked.
Context {A : Type}.
Variable total : A -> Z.
Variable rankOf : A -> Z.

Fixpoint DenseFrom (pos prevTotal prevRank : Z) (l : list A) : Prop :=
  match l with
  | [] => True
  | y :: rest =>
      total y <= prevTotal
      /\ (total y = prevTotal -> rankOf y = prevRank)
      /\ (total y < prevTotal -> rankOf y = pos)
      /\ DenseFrom (pos + 1) (total y) (rankOf y) rest
  end.

Definition DenseRanked (l : list A) : Prop :=
  match l with
  | [] => True
  | x :: rest => rankOf x = 1 /\ DenseFrom 2 (total x) (rankOf x) rest
  end.
End DenseRanked.

(** *** Affiliate names *)

(** What the specification says [parseAffiliateName] extracts from a
    parsed value: a truthy [affiliateName], else the first value of an
    [affiliates] map when that value is a string, else the default. *)
Definition specAffiliate (parsed : JValue) : JValue :=
  match parsed with
  | JObj props =>
      match map_get String.eqb "affiliateName" props with
      | Some name =>
          if js_truthy name then name
          else
            match map_get String.eqb "affiliates" props with
            | Some (JObj ((_, JStr first) :: _)) => JStr first
            | _ => Unaffiliated
            end
      | None =>
          match map_get String.eqb "affiliates" props with
          | Some (JObj ((_, JStr first) :: _)) => JStr first
          | _ => Unaffiliated
          end
      end
  | _ => Unaffiliated
  end.

(** The first value [Object.values] enumerates: of an object its first
    property value, of an array its first element, of a string its first
    character. *)
Definition firstValue (v : JValue) : JValue :=
  match v with
  | JObj ((_, x) :: _) => x
  | JArr (x :: _) => x
  | JStr (String c _) => JStr (String c EmptyString)
  | _ => JUndefined
  end.

Definition propOrUndefined (parsed : JValue) (name : string) : JValue :=
  match parsed with
  | JObj props =>
      match map_get String.eqb name props with
      | Some x => x
      | None => JUndefined
      end
  | _ => JUndefined
  end.

(** What the code extracts from a parsed value. *)
Definition extractAffiliate (parsed : JValue) : JValue :=
  if js_truthy (propOrUndefined parsed "affiliateName")
  then propOrUndefined parsed "affiliateName"
  else if js_truthy (propOrUndefined parsed "affiliates")
          && is_string (firstValue (propOrUndefined parsed "affiliates"))
       then firstValue (propOrUndefined parsed "affiliates")
       else Unaffiliated.

(** *** Results, registrations and gym entries *)

(** A score row that is ranked for this user and event. *)
Definition countsFor (uid eid : string) (s : ScoreRow) : bool :=
  String.eqb (sc_userId s) uid
  && opt_string_eqb (sc_competitionEventId s) (Some eid)
  && (isActive (toScoreEntry s) || isDnf (toScoreEntry s)).

(** All the athletes of the division leaderboards. *)
Definition allAthletes (resp : LeaderboardResponse) : list LeaderboardAthlete :=
  List.concat (List.map div_athletes (divisions resp)).

(** The last registration of a user, in input order. *)
Definition lastRegistration (uid : string) (regs : list RegistrationRow)
  : option RegistrationRow :=
  find (fun r => String.eqb (reg_userId r) uid) (rev regs).

(** The record step 6 builds from a registration. *)
Definition builtFrom (JSON_parse : string -> Completion JValue)
  (String_trim : string -> string) (reg : RegistrationRow) (a : Athlete) : Prop :=
  a_userId a = reg_userId reg
  /\ a_name a = fullName String_trim reg
  /\ parseAffiliateName JSON_parse (reg_metadata reg) = Normal (a_affiliateName a)
  /\ a_divisionId a = or_default (reg_divisionId reg) "open"
  /\ a_divisionLabel a = or_default (reg_divisionLabel reg) "Open".

(** A gym athlete is marked contributing for an event. *)
Definition contributesIn (eid : string) (a : GymAthleteEntry) : bool :=
  existsb (fun ge => String.eqb (ge_eventId ge) eid && ge_contributing ge)
    (gae_events a).

(** The points of a gym athlete in an event. *)
Definition entryPoints (eid : string) (a : GymAthleteEntry) : Z :=
  match find (fun ge => String.eqb (ge_eventId ge) eid) (gae_events a) with
  | Some ge => ge_points ge
  | None => 0
  end.

(* ------------------------------------------------------------------ *)
(** ** Vocabulary of the proofs *)
(* ------------------------------------------------------------------ *)

(** *** Results of one event, athlete by athlete *)

(** The result recorded for a rank in an event. *)
Definition eventResult (roundWeighted : Z -> Z -> Z) (event : EventRow)
  (multiplier rank : Z) : AthleteEventResult :=
  {| eventId := ev_id event;
     eventName := ev_workoutName event;
     points := roundWeighted (calculateTraditionalPoints rank) multiplier;
     rank := rank |}.

(** Several [pushResult]s in a row. *)
Definition pushResults (rs : list AthleteEventResult) (athlete : Athlete) : Athlete :=
  {| a_userId := a_userId athlete;
     a_name := a_name athlete;
     a_affiliateName := a_affiliateName athlete;
     a_divisionId := a_divisionId athlete;
     a_divisionLabel := a_divisionLabel athlete;
     a_events := a_events athlete ++ rs;
     a_totalPoints := a_totalPoints athlete + sum_Z (List.map points rs) |}.

(** The (user, rank) pairs the two loops of [processDivision] award, in order. *)
Definition divisionAwards (localeCompare : string -> string -> Z)
  (divScores : list ScoreEntry) : list (string * Z) :=
  List.map (fun er : ScoreEntry * Z => (se_userId (fst er), snd er))
    (rankActive localeCompare divScores)
  ++ List.map
       (fun e => (se_userId e, lastActiveRank (rankActive localeCompare divScores) + 1))
       (filter isDnf divScores).

(** One award, as a step of a fold. *)
Definition awardPair (roundWeighted : Z -> Z -> Z) (event : EventRow) (multiplier : Z)
  (m : list (string * Athlete)) (ur : string * Z) : list (string * Athlete) :=
  award roundWeighted event multiplier (fst ur) (snd ur) m.

(** The results an award list holds for one user. *)
Definition resultsFor (roundWeighted : Z -> Z -> Z) (event : EventRow)
  (multiplier : Z) (uid : string) (awards : list (string * Z))
  : list AthleteEventResult :=
  List.map (fun ur : string * Z => eventResult roundWeighted event multiplier (snd ur))
    (filter (fun ur : string * Z => String.eqb (fst ur) uid) awards).

Definition fillOne (event : EventRow) (athlete : Athlete) : Athlete :=
  if hasEvent event athlete then athlete else pushPlaceholder event athlete.

Definition multiplierOf (event : EventRow) : Z :=
  match ev_pointsMultiplier event with Some m => m | None => 100 end.

(** All the awards of one event, division after division. *)
Definition eventAwards (localeCompare : string -> string -> Z)
  (athleteMap : list (string * Athlete)) (event : EventRow)
  (allScores : list ScoreRow) : list (string * Z) :=
  List.concat (List.map (fun g : string * list ScoreEntry => divisionAwards localeCompare (snd g))
            (collectDivisionScores athleteMap event allScores)).

(** A score row that enters the division groups of an event. *)
Definition scoreOfEvent (athleteMap : list (string * Athlete)) (event : EventRow)
  (score : ScoreRow) : bool :=
  opt_string_eqb (sc_competitionEventId score) (Some (ev_id event))
  && isSome (map_get String.eqb (sc_userId score) athleteMap).

(** An entry that is ranked: active or [dnf]. *)
Definition rankedFor (uid : string) (s : ScoreEntry) : bool :=
  String.eqb (se_userId s) uid && (isActive s || isDnf s).

(** What one event does to the athlete stored under [uid]. *)
Definition stepAthlete (localeCompare : string -> string -> Z)
  (roundWeighted : Z -> Z -> Z) (allScores : list ScoreRow)
  (athleteMap : list (string * Athlete)) (event : EventRow) (uid : string)
  (athlete : Athlete) : Athlete :=
  fillOne event
    (pushResults
       (resultsFor roundWeighted event (multiplierOf event) uid
          (eventAwards localeCompare athleteMap event allScores))
       athlete).

(** Two records of the same athlete, results apart. *)
Definition sameIdentity (a a' : Athlete) : Prop :=
  a_userId a' = a_userId a
  /\ a_name a' = a_name a
  /\ a_affiliateName a' = a_affiliateName a
  /\ a_divisionId a' = a_divisionId a
  /\ a_divisionLabel a' = a_divisionLabel a.

(** The total of an athlete is the sum of the points of the results. *)
Definition totalMatches (a : Athlete) : Prop :=
  a_totalPoints a = sum_Z (List.map points (a_events a)).

(** An athlete record as step 6 creates it. *)
Definition freshAthlete (a : Athlete) : Prop :=
  a_events a = [] /\ a_totalPoints a = 0.

(** *** Athlete map and division groups *)

(** An athlete map whose keys are distinct and are the user ids of the
    records stored under them. *)
Definition WellKeyed (m : list (string * Athlete)) : Prop :=
  NoDup (List.map fst m)
  /\ Forall (fun ka : string * Athlete => a_userId (snd ka) = fst ka) m.

(** The athletes of all the division groups. *)
Definition divisionContents (groups : list (string * DivisionLeaderboard))
  : list LeaderboardAthlete :=
  List.concat (List.map (fun kd : string * DivisionLeaderboard => div_athletes (snd kd))
                 groups).

(** A group of [divisionGroups] whose athletes come from [pool] and
    have the group's division id. *)
Definition GroupOk (pool : list Athlete) (kd : string * DivisionLeaderboard) : Prop :=
  div_id (snd kd) = fst kd
  /\ forall x, In x (div_athletes (snd kd)) ->
       exists athlete,
         In athlete pool /\ x = toLeaderboardAthlete athlete
         /\ a_divisionId athlete = fst kd.

(** *** Gym contributions *)

(** The events marked for a user in [contributingMap]. *)
Definition contribOf (contributingMap : list (string * list string)) (uid : string)
  : list string :=
  match map_get String.eqb uid contributingMap with Some s => s | None => [] end.

Definition marked (contributingMap : list (string * list string))
  (uid eid : string) : bool :=
  set_has eid (contribOf contributingMap uid).

(** The athletes picked for an event in one gym, division after
    division, and those left out. *)
Definition topPairs (athleteMap : list (string * Athlete)) (event : EventRow)
  (userIds : list string) : list (string * Z) :=
  List.concat
    (List.map
       (fun g : string * list (string * Z) =>
          firstn TOP_PER_DIVISION (Array_sort byPointsDesc (snd g)))
       (groupByDivision athleteMap event userIds)).

Definition restPairs (athleteMap : list (string * Athlete)) (event : EventRow)
  (userIds : list string) : list (string * Z) :=
  List.concat
    (List.map
       (fun g : string * list (string * Z) =>
          skipn TOP_PER_DIVISION (Array_sort byPointsDesc (snd g)))
       (groupByDivision athleteMap event userIds)).

Definition inTop (athleteMap : list (string * Athlete)) (event : EventRow)
  (userIds : list string) (uid : string) : bool :=
  set_has uid (List.map fst (topPairs athleteMap event userIds)).

(** The entry of one event in a gym athlete's list. *)
Definition gymEventOf (athlete : Athlete) (contribEvents : list string)
  (event : EventRow) : GymAthleteEvent :=
  {| ge_eventId := ev_id event;
     ge_eventName := ev_workoutName event;
     ge_points := eventPoints athlete event;
     ge_contributing := set_has (ev_id event) contribEvents |}.

(** The points of a user in an event, as the gym builder reads them. *)
Definition pointsOf (athleteMap : list (string * Athlete)) (event : EventRow)
  (uid : string) : Z :=
  eventPoints (getAthlete athleteMap uid) event.

Definition labelOf (athleteMap : list (string * Athlete)) (uid : string) : string :=
  a_divisionLabel (getAthlete athleteMap uid).

(** The gym's athletes of one division label, their points in an event,
    and the picked ones among them. *)
Definition membersOf (athleteMap : list (string * Athlete)) (userIds : list string)
  (division : string) : list string :=
  filter (fun uid => String.eqb (labelOf athleteMap uid) division) userIds.

Definition groupOf (athleteMap : list (string * Athlete)) (event : EventRow)
  (userIds : list string) (division : string) : list (string * Z) :=
  List.map (fun uid => (uid, pointsOf athleteMap event uid))
    (membersOf athleteMap userIds division).

Definition topOf (athleteMap : list (string * Athlete)) (event : EventRow)
  (userIds : list string) (division : string) : list (string * Z) :=
  firstn TOP_PER_DIVISION
    (Array_sort byPointsDesc (groupOf athleteMap event userIds division)).

(** Grouping a list by a string key, as the [Map] of arrays is filled. *)
Definition pushAll {X Y : Type} (key : X -> string) (val : X -> Y)
  (l : list X) (acc : list (string * list Y)) : list (string * list Y) :=
  fold_left (fun acc' x => group_push String.eqb (key x) (val x) acc') l acc.

(* ------------------------------------------------------------------ *)
(** ** Stand-ins and samples *)
(* ------------------------------------------------------------------ *)

(** *** Stand-ins for the built-ins, used by the examples *)

Definition neverParses (s : string) : Completion JValue := Throw "SyntaxError".

Definition isSpace (c : ascii) : bool :=
  let n := nat_of_ascii c in
  Nat.eqb n 32 || (Nat.leb 9 n && Nat.leb n 13).

Fixpoint dropSpaces (l : list ascii) : list ascii :=
  match l with
  | [] => []
  | c :: l' => if isSpace c then dropSpaces l' else l
  end.

(** [trim] on ASCII text. *)
Definition trimAscii (s : string) : string :=
  string_of_list_ascii
    (rev (dropSpaces (rev (dropSpaces (list_ascii_of_string s))))).

Definition compareCodeUnits (a b : string) : Z :=
  match String.compare a b with
  | Lt => -1
  | Eq => 0
  | Gt => 1
  end.

(** Exact round-half-up of [p * m / 100]; for [m = 100] the product
    [p * 1] is exact in doubles as well. *)
Definition roundExact (p m : Z) : Z := (p * m + 50) / 100.

Definition dq : string := String (ascii_of_nat 34) EmptyString.

(** The text [{"affiliates":"abc"}]. *)
Definition affiliatesIsString : string :=
  String.append "{" (String.append dq (String.append "affiliates"
    (String.append dq (String.append ":" (String.append dq
      (String.append "abc" (String.append dq "}"))))))).

(** A parser that knows this one text. *)
Definition parseAffiliatesIsString (s : string) : Completion JValue :=
  if String.eqb s affiliatesIsString
  then Normal (JObj [("affiliates", JStr "abc")])
  else Throw "SyntaxError".

(** *** Sample entries and databases *)

(** Two active entries without sort keys, the first without a value. *)
Definition nullThenFive : list ScoreEntry :=
  [ {| se_userId := "u1"; se_value := None; se_status := "scored"; se_sortKey := None |};
    {| se_userId := "u2"; se_value := Some 5; se_status := "scored"; se_sortKey := None |} ].

Definition sampleAthlete (uid : string) : Athlete :=
  {| a_userId := uid; a_name := uid; a_affiliateName := Unaffiliated;
     a_divisionId := "A"; a_divisionLabel := "A"; a_events := []; a_totalPoints := 0 |}.

Definition sampleEntry (uid : string) (value : option Z) (status : string) : ScoreEntry :=
  {| se_userId := uid; se_value := value; se_status := status; se_sortKey := None |}.

(** Two tied active entries and one that did not finish. *)
Definition sampleDivScores : list ScoreEntry :=
  [sampleEntry "X" (Some 10) "scored"; sampleEntry "Q" None "dnf";
   sampleEntry "Y" (Some 10) "cap"].

Definition sampleAthleteMap : list (string * Athlete) :=
  [("X", sampleAthlete "X"); ("Y", sampleAthlete "Y"); ("Q", sampleAthlete "Q")].

Definition sampleCompetition : Competition :=
  {| comp_id := "comp_1"; comp_name := "Winter Open" |}.

Definition sampleEvent (id : string) : EventRow :=
  {| ev_id := id; ev_trackOrder := 0; ev_pointsMultiplier := Some 100;
     ev_workoutId := "w"; ev_workoutName := "Workout"; ev_scheme := "time" |}.

Definition sampleRegistration (user division : string) : RegistrationRow :=
  {| reg_regId := String.append "reg_" user; reg_userId := user;
     reg_divisionId := Some division; reg_metadata := None;
     reg_firstName := Some user; reg_lastName := None;
     reg_divisionLabel := Some division |}.

Definition sampleScore (user event : string) (value : option Z) (status : string)
  : ScoreRow :=
  {| sc_userId := user; sc_competitionEventId := Some event;
     sc_scoreValue := value; sc_status := status; sc_sortKey := None |}.

(** A competition without a programming track. *)
Definition dbNoTrack : Database :=
  {| selectCompetition := fun _ => Some sampleCompetition;
     selectTrack := fun _ => None;
     selectEvents := fun _ => [];
     selectRegistrations := fun _ => [];
     selectScores := fun _ _ => [] |}.

(** One event, two divisions: X and Y tie in division A, where Q did not
    finish; Z is alone in division B. *)
Definition dbSample : Database :=
  {| selectCompetition := fun _ => Some sampleCompetition;
     selectTrack := fun _ => Some {| track_id := "track_1" |};
     selectEvents := fun _ => [sampleEvent "e1"];
     selectRegistrations := fun _ =>
       [sampleRegistration "X" "A"; sampleRegistration "Y" "A";
        sampleRegistration "Z" "B"; sampleRegistration "Q" "A"];
     selectScores := fun _ _ =>
       [sampleScore "X" "e1" (Some 10) "scored";
        sampleScore "Y" "e1" (Some 10) "scored";
        sampleScore "Z" "e1" (Some 5) "scored";
        sampleScore "Q" "e1" None "dnf"] |}.

(** One athlete with two scored rows for the same event. *)
Definition dbTwoScores : Database :=
  {| selectCompetition := fun _ => Some sampleCompetition;
     selectTrack := fun _ => Some {| track_id := "track_1" |};
     selectEvents := fun _ => [sampleEvent "e1"];
     selectRegistrations := fun _ => [sampleRegistration "X" "A"];
     selectScores := fun _ _ =>
       [sampleScore "X" "e1" (Some 10) "scored";
        sampleScore "X" "e1" (Some 12) "scored"] |}.

(** Two scored rows of one division, the first without a value. *)
Definition dbMissingValue : Database :=
  {| selectCompetition := fun _ => Some sampleCompetition;
     selectTrack := fun _ => Some {| track_id := "track_1" |};
     selectEvents := fun _ => [sampleEvent "e1"];
     selectRegistrations := fun _ =>
       [sampleRegistration "u1" "A"; sampleRegistration "u2" "A"];
     selectScores := fun _ _ =>
       [sampleScore "u1" "e1" None "scored"; sampleScore "u2" "e1" (Some 5) "scored"] |}.

(** User X registered twice, last in division B. *)
Definition dbDuplicate : Database :=
  {| selectCompetition := fun _ => Some sampleCompetition;
     selectTrack := fun _ => Some {| track_id := "track_1" |};
     selectEvents := fun _ => [sampleEvent "e1"];
     selectRegistrations := fun _ =>
       [sampleRegistration "X" "A"; sampleRegistration "Y" "A";
        sampleRegistration "X" "B"];
     selectScores := fun _ _ =>
       [sampleScore "X" "e1" (Some 10) "scored";
        sampleScore "Y" "e1" (Some 12) "scored"] |}.

Definition labelledRegistration (user divisionId label : string) : RegistrationRow :=
  {| reg_regId := String.append "reg_" user; reg_userId := user;
     reg_divisionId := Some divisionId; reg_metadata := None;
     reg_firstName := Some user; reg_lastName := None;
     reg_divisionLabel := Some label |}.

(** Four athletes in division d1 and four in division d2, both labelled
    RX, all without affiliation; within each division the scores rank
    them 1 to 4. *)
Definition dbSameLabel : Database :=
  {| selectCompetition := fun _ => Some sampleCompetition;
     selectTrack := fun _ => Some {| track_id := "track_1" |};
     selectEvents := fun _ => [sampleEvent "e1"];
     selectRegistrations := fun _ =>
       [labelledRegistration "a1" "d1" "RX"; labelledRegistration "a2" "d1" "RX";
        labelledRegistration "a3" "d1" "RX"; labelledRegistration "a4" "d1" "RX";
        labelledRegistration "b1" "d2" "RX"; labelledRegistration "b2" "d2" "RX";
        labelledRegistration "b3" "d2" "RX"; labelledRegistration "b4" "d2" "RX"];
     selectScores := fun _ _ =>
       [sampleScore "a1" "e1" (Some 1) "scored"; sampleScore "a2" "e1" (Some 2) "scored";
        sampleScore "a3" "e1" (Some 3) "scored"; sampleScore "a4" "e1" (Some 4) "scored";
        sampleScore "b1" "e1" (Some 1) "scored"; sampleScore "b2" "e1" (Some 2) "scored";
        sampleScore "b3" "e1" (Some 3) "scored"; sampleScore "b4" "e1" (Some 4) "scored"] |}.

Definition sampleLeaderboard (db : Database) : Completion LeaderboardResponse :=
  getLeaderboard neverParses trimAscii compareCodeUnits roundExact db "comp_1".

(** The leaderboard of [dbSample]. *)
Definition sampleResponse : LeaderboardResponse :=
  Eval vm_compute in
    match sampleLeaderboard dbSample with
    | Normal resp => resp
    | Throw _ => emptyLeaderboard sampleCompetition
    end.

Definition duplicateResponse : LeaderboardResponse :=
  Eval vm_compute in
    match sampleLeaderboard dbDuplicate with
    | Normal resp => resp
    | Throw _ => emptyLeaderboard sampleCompetition
    end.

(* ------------------------------------------------------------------ *)
(** ** Vocabulary of the further properties *)
(* ------------------------------------------------------------------ *)

(** Ranks in which every entry has the rank of its predecessor or its
    own 1-based position. *)
Fixpoint DenseShape (pos prevRank : Z) (ranks : list Z) : Prop :=
  match ranks with
  | [] => True
  | r :: rest => (r = prevRank \/ r = pos) /\ DenseShape (pos + 1) r rest
  end.

(** Entries that all carry a non-empty sort key. *)
Definition keyedEntry (e : ScoreEntry) : bool := truthy_string (se_sortKey e).

(** Three entries with sort keys; the values contradict the keys. *)
Definition keyedSample : list ScoreEntry :=
  [ {| se_userId := "u1"; se_value := Some 7; se_status := "scored";
       se_sortKey := Some "0001" |};
    {| se_userId := "u2"; se_value := None; se_status := "scored";
       se_sortKey := Some "0001" |};
    {| se_userId := "u3"; se_value := None; se_status := "cap";
       se_sortKey := Some "0002" |} ].

(** A result as an event produces it: the id and the name of the
    event, and either the zero placeholder or a rank from 1 on with the
    weighted points of that rank. *)
Definition ResultOf (roundWeighted : Z -> Z -> Z) (ev : EventRow)
  (r : AthleteEventResult) : Prop :=
  eventId r = ev_id ev
  /\ eventName r = ev_workoutName ev
  /\ ((points r = 0 /\ rank r = 0)
      \/ (1 <= rank r
          /\ points r
             = roundWeighted (calculateTraditionalPoints (rank r)) (multiplierOf ev))).

Definition ResultOk (roundWeighted : Z -> Z -> Z) (events : list EventRow)
  (r : AthleteEventResult) : Prop :=
  exists ev, In ev events /\ ResultOf roundWeighted ev r.

(** The zero result of an event. *)
Definition placeholder (ev : EventRow) : AthleteEventResult :=
  {| eventId := ev_id ev; eventName := ev_workoutName ev; points := 0; rank := 0 |}.

(** The results of an athlete for one event id. *)
Definition resultsOfEvent (eid : string) (rs : list AthleteEventResult)
  : list AthleteEventResult :=
  filter (fun r => String.eqb (eventId r) eid) rs.

(** Athlete W registered without any score row, athlete V with a
    withdrawn score. *)
Definition dbNoScore : Database :=
  {| selectCompetition := fun _ => Some sampleCompetition;
     selectTrack := fun _ => Some {| track_id := "track_1" |};
     selectEvents := fun _ => [sampleEvent "e1"; sampleEvent "e2"];
     selectRegistrations := fun _ =>
       [sampleRegistration "W" "A"; sampleRegistration "V" "A"];
     selectScores := fun _ _ =>
       [sampleScore "V" "e1" (Some 3) "withdrawn";
        sampleScore "V" "e2" (Some 3) "scored"] |}.

Definition noScoreResponse : LeaderboardResponse :=
  Eval vm_compute in
    match sampleLeaderboard dbNoScore with
    | Normal resp => resp
    | Throw _ => emptyLeaderboard sampleCompetition
    end.

(** [events.find((e) => e.eventId === eid)?.points ?? 0] on a list of
    results. *)
Definition resultPoints (eid : string) (rs : list AthleteEventResult) : Z :=
  match find (fun e => String.eqb (eventId e) eid) rs with
  | Some eventResult => points eventResult
  | None => 0
  end.

(** A group of [divisionGroups] named after an athlete of [pool] that
    stands in it. *)
Definition GroupNamed (pool : list Athlete) (kd : string * DivisionLeaderboard) : Prop :=
  exists athlete,
    In athlete pool
    /\ a_divisionId athlete = fst kd
    /\ a_divisionLabel athlete = div_name (snd kd).

(** *** The HTTP entry point *)

(** The competition id a decoded path segment stands for: itself when
    it starts with [comp_], else the id stored for it as a slug. *)
Definition resolveCompetitionId (backend : Backend) (idOrSlug : string) : option string :=
  if String.prefix "comp_" idOrSlug then Some idOrSlug
  else selectCompetitionIdBySlug backend idOrSlug.

(** The value of the first header of a name. *)
Definition header (name : string) (response : Response) : option string :=
  map_get String.eqb name (res_headers response).

(** Stand-in for [decodeURIComponent] on text without escapes: a [%]
    that starts no escape is malformed. *)
Definition decodePlain (s : string) : Completion string :=
  if existsb (Ascii.eqb "%"%char) (list_ascii_of_string s)
  then Throw "URI malformed" else Normal s.

(** A runtime that rejects with the message of the failure. *)
Definition keepMessage (msg : string) : string := msg.

Definition dbOneCompetition : Database :=
  {| selectCompetition := fun id =>
       if String.eqb id "comp_1" then Some sampleCompetition else None;
     selectTrack := selectTrack dbSample;
     selectEvents := selectEvents dbSample;
     selectRegistrations := selectRegistrations dbSample;
     selectScores := selectScores dbSample |}.

Definition sampleBackend : Backend :=
  {| backend_db := dbOneCompetition;
     selectCompetitionIdBySlug := fun slug =>
       if String.eqb slug "winter-open" then Some "comp_1" else None |}.

Definition sampleEnv : Env :=
  {| ALLOWED_ORIGINS := Some "https://a.example, https://b.example" |}.

Definition sampleRequest (method path : string) (origin : option string) : Request :=
  {| req_method := method; req_pathname := path; req_origin := origin |}.

Definition sampleFetch (request : Request) : Response :=
  fetch decodePlain keepMessage neverParses trimAscii compareCodeUnits roundExact
    request sampleEnv sampleBackend.

(** *** Score rows that matter *)

(** A score row of one of the events and one of the users. *)
Definition isRelevant (eventIds userIds : list string) (s : ScoreRow) : bool :=
  match sc_competitionEventId s with
  | Some eid => set_has eid eventIds
  | None => false
  end
  && set_has (sc_userId s) userIds.

(** The database with another answer to the score query. *)
Definition withScores (db : Database)
  (scores : list string -> list string -> list ScoreRow) : Database :=
  {| selectCompetition := selectCompetition db;
     selectTrack := selectTrack db;
     selectEvents := selectEvents db;
     selectRegistrations := selectRegistrations db;
     selectScores := scores |}.

(** The key of a gym group and the affiliate name of one of its
    athletes: the key is the name of the athlete that opened the group,
    the others have a name the [Map] takes for the same key. *)
Definition sameGym (gymName affiliateName : JValue) : Prop :=
  gymName = affiliateName \/ sameValueZero gymName affiliateName = true.

(** Scores of a stranger and of an unpublished event beside the ones
    of [dbSample]. *)
Definition dbStrayScores : Database :=
  withScores dbSample
    (fun eventIds userIds =>
       sampleScore "stranger" "e1" (Some 1) "scored"
       :: sampleScore "X" "e9" (Some 1) "scored"
       :: selectScores dbSample eventIds userIds).

Unset Implicit Arguments.

(* ------------------------------------------------------------------ *)
(** ** The points ladder *)
(* ------------------------------------------------------------------ *)

(** C9: for every integer rank [r >= 1] the ladder gives
    [max(0, 100 - 5 * (r - 1))], and for every rank [r <= 0] it gives 100. *)
Theorem calculateTraditionalPoints_ladder :
  forall r : Z,
    (1 <= r -> calculateTraditionalPoints r = Z.max 0 (100 - 5 * (r - 1)))
    /\ (r <= 0 -> calculateTraditionalPoints r = 100).
Proof.
  intros r. unfold calculateTraditionalPoints, TRADITIONAL_FIRST_PLACE, TRADITIONAL_STEP.
  split; intros H.
  - destruct (Z.leb_spec r 0) as [Hle | Hgt]; [lia |].
    f_equal. lia.
  - destruct (Z.leb_spec r 0) as [Hle | Hgt]; [reflexivity | lia].
Qed.

Lemma calculateTraditionalPoints_ladder_witness :
  calculateTraditionalPoints 3 = Z.max 0 (100 - 5 * (3 - 1))
  /\ calculateTraditionalPoints (-2) = 100.
Proof.
  split.
  - apply (proj1 (calculateTraditionalPoints_ladder 3)). lia.
  - apply (proj2 (calculateTraditionalPoints_ladder (-2))). lia.
Defined.


(* ------------------------------------------------------------------ *)
(** ** Rank assignment *)
(* ------------------------------------------------------------------ *)

Lemma assignRanks_loop_entries :
  forall l i cr ps pv, List.map fst (assignRanks_loop i cr ps pv l) = l.
Proof.
  induction l as [| e l IH]; intros; simpl; [reflexivity |].
  now rewrite IH.
Qed.

Lemma assignRanks_entries : forall l, List.map fst (assignRanks l) = l.
Proof. intros l. apply assignRanks_loop_entries. Qed.


Lemma nextRank_cases :
  forall i cr ps pv e, nextRank i cr ps pv e = cr \/ nextRank i cr ps pv e = i + 1.
Proof.
  intros. unfold nextRank.
  destruct (truthy_string (se_sortKey e) && isSome ps).
  - destruct (negb (opt_string_eqb (se_sortKey e) ps)); auto.
  - destruct (isSome pv && negb (opt_Z_eqb (se_value e) pv)); auto.
Qed.

Lemma nextRank_first : forall e, nextRank 0 1 None None e = 1.
Proof.
  intros e. unfold nextRank. simpl.
  now rewrite andb_false_r.
Qed.

(** The ranks never decrease along the sorted list. *)
Lemma assignRanks_loop_sorted :
  forall l i cr ps pv,
    cr <= i + 1 ->
    StronglySorted Z.le (cr :: List.map snd (assignRanks_loop i cr ps pv l)).
Proof.
  induction l as [| e l IH]; intros i cr ps pv Hcr; simpl.
  - constructor; constructor.
  - set (r := nextRank i cr ps pv e).
    assert (Hr : cr <= r <= i + 1).
    { destruct (nextRank_cases i cr ps pv e) as [H | H]; fold r in H; lia. }
    specialize (IH (i + 1) r (se_sortKey e) (se_value e) ltac:(lia)).
    constructor; [exact IH |].
    inversion IH as [| ? ? Hs Hall]; subst.
    constructor; [lia |].
    eapply Forall_impl; [| exact Hall]. simpl. intros; lia.
Qed.

Lemma assignRanks_nondecreasing :
  forall l, StronglySorted Z.le (List.map snd (assignRanks l)).
Proof.
  intros l.
  pose proof (assignRanks_loop_sorted l 0 1 None None ltac:(lia)) as H.
  now inversion H.
Qed.

Lemma assignRanks_first :
  forall e l, exists rest, assignRanks (e :: l) = (e, 1) :: rest.
Proof.
  intros e l. unfold assignRanks. simpl. rewrite nextRank_first. eauto.
Qed.

Lemma assignRanks_ranks_positive :
  forall l, Forall (fun r => 1 <= r) (List.map snd (assignRanks l)).
Proof.
  intros l.
  pose proof (assignRanks_loop_sorted l 0 1 None None ltac:(lia)) as H.
  inversion H; subst. assumption.
Qed.

Lemma nextRank_plain :
  forall i cr prev cur,
    plainEntry prev = true -> plainEntry cur = true ->
    nextRank i cr (se_sortKey prev) (se_value prev) cur
    = if specSameKey prev cur then cr else i + 1.
Proof.
  intros i cr prev cur Hp Hc.
  unfold plainEntry in *. apply andb_prop in Hp, Hc.
  destruct Hp as [Hpv Hpk], Hc as [Hcv Hck].
  unfold nextRank, specSameKey.
  destruct (se_value prev) as [vp |]; [| discriminate].
  destruct (se_value cur) as [vc |]; [| discriminate].
  destruct (se_sortKey prev) as [kp |], (se_sortKey cur) as [kc |]; simpl in *.
  - destruct (String.eqb kp ""); [discriminate |].
    destruct (String.eqb kc ""); [discriminate |]. simpl.
    destruct (String.eqb kc kp); reflexivity.
  - destruct (String.eqb kp ""); [discriminate |]. simpl.
    destruct (Z.eqb vc vp); reflexivity.
  - destruct (String.eqb kc ""); [discriminate |]. simpl.
    destruct (Z.eqb vc vp); reflexivity.
  - destruct (Z.eqb vc vp); reflexivity.
Qed.

Lemma assignRanks_loop_plain :
  forall l i cr prev,
    plainEntry prev = true -> forallb plainEntry l = true ->
    List.map snd (assignRanks_loop i cr (se_sortKey prev) (se_value prev) l)
    = specRanks_from (i + 1) cr prev l.
Proof.
  induction l as [| e l IH]; intros i cr prev Hp Hl; simpl; [reflexivity |].
  simpl in Hl. apply andb_prop in Hl. destruct Hl as [He Hl].
  rewrite (nextRank_plain i cr prev e Hp He).
  f_equal. apply IH; assumption.
Qed.

(** On entries that all have a value and no empty sort key, the rank
    loop computes the ranks of the specification. *)
Lemma assignRanks_plain :
  forall l, forallb plainEntry l = true ->
    List.map snd (assignRanks l) = specRanks l.
Proof.
  intros [| e l] Hl; [reflexivity |].
  simpl in Hl. apply andb_prop in Hl. destruct Hl as [He Hl].
  unfold assignRanks. simpl. rewrite nextRank_first. f_equal.
  exact (assignRanks_loop_plain l 1 1 e He Hl).
Qed.

(** C2: the rank loop does not follow the specified key rule on every
    sorted list.  [nullThenFive] is sorted by the comparator of the
    program (a missing value counts as 0 there, and 0 < 5); the keys of
    its two entries differ, so the specification ranks them 1 and 2, but
    the loop takes the missing value of the first entry for "no
    predecessor" and ranks both 1. *)
Theorem assignRanks_ties_after_missing_value :
  forall localeCompare : string -> string -> Z,
    Array_sort (compareActive localeCompare) nullThenFive = nullThenFive
    /\ List.map snd (assignRanks nullThenFive) = [1; 1]
    /\ specRanks nullThenFive = [1; 2].
Proof.
  intros lc. repeat split.
Qed.

(** The same two entries through the whole computation: both athletes
    come out with rank 1 and 100 points for the event. *)
Lemma missing_value_ties_in_leaderboard :
  exists resp,
    sampleLeaderboard dbMissingValue = Normal resp
    /\ List.map
         (fun a => (la_userId a, List.map (fun r => (rank r, points r)) (la_events a)))
         (allAthletes resp)
       = [("u1", [(1, 100)]); ("u2", [(1, 100)])].
Proof.
  eexists. split; [vm_compute; reflexivity | reflexivity].
Qed.

(* ------------------------------------------------------------------ *)
(** ** Affiliate names *)
(* ------------------------------------------------------------------ *)

Lemma js_first_Object_values :
  forall v values,
    Object_values v = Normal values -> js_first values = firstValue v.
Proof.
  intros v values H.
  destruct v as [| | b | x | s | elems | props]; simpl in H;
    try discriminate; inversion H; subst; clear H; try reflexivity.
  - destruct s; reflexivity.
  - destruct props as [| [k x] props]; reflexivity.
Qed.

Lemma Object_values_truthy :
  forall v, js_truthy v = true -> exists values, Object_values v = Normal values.
Proof.
  intros v H.
  destruct v; simpl in *; try discriminate; eauto.
Qed.


(** The value [parseAffiliateName] returns, case by case. *)
Lemma parseAffiliateName_value :
  forall (JSON_parse : string -> Completion JValue) (metadata : option string),
    parseAffiliateName JSON_parse metadata
    = Normal
        match metadata with
        | None => Unaffiliated
        | Some md =>
            if String.eqb md "" then Unaffiliated
            else
              match JSON_parse md with
              | Throw _ => Unaffiliated
              | Normal parsed => extractAffiliate parsed
              end
        end.
Proof.
  intros JSON_parse [md |]; [| reflexivity].
  unfold parseAffiliateName. simpl.
  destruct (String.eqb md ""); simpl; [reflexivity |].
  destruct (JSON_parse md) as [parsed | err]; simpl; [| reflexivity].
  destruct parsed as [| | b | x | s | elems | props];
    try reflexivity.
  unfold extractAffiliate, bind. simpl.
  destruct (map_get String.eqb "affiliateName" props) as [name |]; simpl.
  - destruct (js_truthy name) eqn:Hname; simpl; [reflexivity |].
    destruct (map_get String.eqb "affiliates" props) as [aff |]; simpl; [| reflexivity].
    destruct (js_truthy aff) eqn:Haff; simpl; [| reflexivity].
    destruct (Object_values_truthy aff Haff) as [values Hv].
    rewrite Hv. simpl. rewrite (js_first_Object_values aff values Hv).
    destruct (is_string (firstValue aff)); reflexivity.
  - destruct (map_get String.eqb "affiliates" props) as [aff |]; simpl; [| reflexivity].
    destruct (js_truthy aff) eqn:Haff; simpl; [| reflexivity].
    destruct (Object_values_truthy aff Haff) as [values Hv].
    rewrite Hv. simpl. rewrite (js_first_Object_values aff values Hv).
    destruct (is_string (firstValue aff)); reflexivity.
Qed.

(** [parseAffiliateName] never throws. *)
Lemma parseAffiliateName_normal :
  forall JSON_parse metadata,
    exists v, parseAffiliateName JSON_parse metadata = Normal v.
Proof.
  intros. rewrite parseAffiliateName_value. eauto.
Qed.

(** C8, as amended: [parseAffiliateName] never throws.  It returns
    ["Unaffiliated"] for a [null] or empty metadata and for a text
    [JSON.parse] rejects; for a parsed value it returns the truthy
    [affiliateName], else the first value [Object.values] enumerates of
    a truthy [affiliates] (the first property value of an object, the
    first element of an array, the first character of a string) when
    that value is a string, else ["Unaffiliated"]. *)
Theorem parseAffiliateName_total :
  forall (JSON_parse : string -> Completion JValue) (metadata : option string),
    (forall e, parseAffiliateName JSON_parse metadata <> Throw e)
    /\ parseAffiliateName JSON_parse None = Normal Unaffiliated
    /\ parseAffiliateName JSON_parse (Some "") = Normal Unaffiliated
    /\ (forall md e,
          md <> "" -> JSON_parse md = Throw e ->
          parseAffiliateName JSON_parse (Some md) = Normal Unaffiliated)
    /\ (forall md parsed,
          md <> "" -> JSON_parse md = Normal parsed ->
          parseAffiliateName JSON_parse (Some md)
          = Normal
              (if js_truthy (propOrUndefined parsed "affiliateName")
               then propOrUndefined parsed "affiliateName"
               else if js_truthy (propOrUndefined parsed "affiliates")
                       && is_string (firstValue (propOrUndefined parsed "affiliates"))
                    then firstValue (propOrUndefined parsed "affiliates")
                    else Unaffiliated)).
Proof.
  intros JSON_parse metadata. split; [| split; [| split; [| split]]].
  - intros e. rewrite parseAffiliateName_value. discriminate.
  - reflexivity.
  - reflexivity.
  - intros md e Hne Hparse. rewrite parseAffiliateName_value, Hparse.
    destruct (String.eqb md ""); reflexivity.
  - intros md parsed Hne Hparse. rewrite parseAffiliateName_value, Hparse.
    apply String.eqb_neq in Hne. rewrite Hne. reflexivity.
Qed.

Lemma parseAffiliateName_total_witness :
  parseAffiliateName parseAffiliatesIsString (Some affiliatesIsString)
  = Normal (JStr "a").
Proof.
  exact (proj2 (proj2 (proj2 (proj2
           (parseAffiliateName_total parseAffiliatesIsString None))))
           affiliatesIsString (JObj [("affiliates", JStr "abc")])
           ltac:(discriminate) eq_refl).
Defined.

(** C8, as stated, fails on [{"affiliates":"abc"}]: the parsed value has
    no [affiliateName] and its [affiliates] is a string, not a map, so
    the specification expects the default, but [Object.values]
    enumerates the characters of the string and the first one is
    returned. *)
Lemma parseAffiliateName_string_affiliates :
  parseAffiliatesIsString affiliatesIsString
  = Normal (JObj [("affiliates", JStr "abc")])
  /\ specAffiliate (JObj [("affiliates", JStr "abc")]) = Unaffiliated
  /\ parseAffiliateName parseAffiliatesIsString (Some affiliatesIsString)
     = Normal (JStr "a")
  /\ JStr "a" <> Unaffiliated.
Proof.
  repeat split. discriminate.
Qed.

(* ------------------------------------------------------------------ *)
(** ** Empty leaderboards *)
(* ------------------------------------------------------------------ *)

(** C7: when the competition exists, [getLeaderboard] returns the empty
    leaderboard [{competition, divisions: [], gyms: []}] without error
    as soon as the competition has no programming track, or its track
    has no published event, or it has no registration left after
    removing the ["REMOVED"] ones. *)
Theorem getLeaderboard_empty :
  forall JSON_parse String_trim localeCompare roundWeighted
         (db : Database) (competitionId : string) (comp : Competition),
    selectCompetition db competitionId = Some comp ->
    (selectTrack db competitionId = None
     \/ (forall track, selectTrack db competitionId = Some track ->
                       selectEvents db (track_id track) = [])
     \/ selectRegistrations db competitionId = []) ->
    getLeaderboard JSON_parse String_trim localeCompare roundWeighted db competitionId
    = Normal {| competition := comp; divisions := []; gyms := [] |}.
Proof.
  intros JSON_parse String_trim localeCompare roundWeighted db cid comp Hcomp H.
  unfold getLeaderboard. rewrite Hcomp.
  destruct (selectTrack db cid) as [track |] eqn:Htrack; [| reflexivity].
  destruct H as [H | [H | H]].
  - discriminate.
  - rewrite (H track eq_refl). reflexivity.
  - destruct (Nat.eqb (List.length (selectEvents db (track_id track))) 0);
      [reflexivity |].
    rewrite H. reflexivity.
Qed.

Lemma getLeaderboard_empty_witness :
  sampleLeaderboard dbNoTrack
  = Normal {| competition := sampleCompetition; divisions := []; gyms := [] |}.
Proof.
  apply getLeaderboard_empty; [reflexivity | left; reflexivity].
Defined.

(* ------------------------------------------------------------------ *)
(** ** Sorting *)
(* ------------------------------------------------------------------ *)

Section SortFacts.
Context {A : Type}.
Variable cmp : A -> A -> Z.

Lemma sort_insert_perm :
  forall x l, Permutation (sort_insert cmp x l) (x :: l).
Proof.
  intros x l. induction l as [| y l IH]; simpl.
  - apply Permutation_refl.
  - destruct (cmp x y <=? 0).
    + apply Permutation_refl.
    + apply perm_trans with (y :: x :: l).
      * now apply perm_skip.
      * apply perm_swap.
Qed.

Lemma Array_sort_perm : forall l, Permutation (Array_sort cmp l) l.
Proof.
  induction l as [| x l IH]; simpl.
  - apply perm_nil.
  - apply perm_trans with (x :: Array_sort cmp l).
    + apply sort_insert_perm.
    + now apply perm_skip.
Qed.

Lemma Array_sort_length : forall l, List.length (Array_sort cmp l) = List.length l.
Proof. intros l. apply Permutation_length, Array_sort_perm. Qed.

Lemma Array_sort_In : forall l x, In x (Array_sort cmp l) <-> In x l.
Proof.
  intros l x. split; apply Permutation_in.
  - apply Array_sort_perm.
  - apply Permutation_sym, Array_sort_perm.
Qed.

(** A comparator [(a, b) => key(b) - key(a)] sorts by descending key. *)
Variable key : A -> Z.
Hypothesis cmp_key : forall a b, cmp a b = key b - key a.

Lemma sort_insert_descending :
  forall x l,
    StronglySorted (descending key) l -> StronglySorted (descending key) (sort_insert cmp x l).
Proof.
  intros x l Hl. induction Hl as [| y l Hl IH Hall]; simpl.
  - constructor; constructor.
  - destruct (Z.leb_spec (cmp x y) 0) as [Hle | Hgt]; rewrite cmp_key in *.
    + constructor; [constructor; assumption |].
      constructor; [unfold descending; lia |].
      eapply Forall_impl; [| exact Hall].
      unfold descending. intros; lia.
    + constructor; [exact IH |].
      rewrite Forall_forall. intros z Hz.
      apply (Permutation_in _ (sort_insert_perm x l)) in Hz.
      destruct Hz as [<- | Hz].
      * unfold descending. lia.
      * rewrite Forall_forall in Hall. now apply Hall.
Qed.

Lemma Array_sort_descending :
  forall l, StronglySorted (descending key) (Array_sort cmp l).
Proof.
  induction l as [| x l IH]; simpl.
  - constructor.
  - now apply sort_insert_descending.
Qed.
End SortFacts.

(* ------------------------------------------------------------------ *)
(** ** Ranking by total *)
(* ------------------------------------------------------------------ *)

Section RankFacts.
Context {A : Type}.
Variable total : A -> Z.
Variable rankOf : A -> Z.
Variable setRank : Z -> A -> A.
Hypothesis total_setRank : forall r x, total (setRank r x) = total x.
Hypothesis rankOf_setRank : forall r x, rankOf (setRank r x) = r.

Lemma rankByTotal_loop_dense :
  forall l i rank p,
    StronglySorted (descending total) l ->
    Forall (fun y => total y <= p) l ->
    DenseFrom total rankOf (i + 1) p rank
      (rankByTotal_loop total setRank i rank (Some p) l).
Proof.
  induction l as [| y l IH]; intros i rank p Hs Hp; simpl; [exact I |].
  inversion Hs as [| ? ? Hs' Hall]; subst.
  inversion Hp as [| ? ? Hy Hp']; subst.
  rewrite total_setRank, rankOf_setRank.
  destruct (Z.ltb_spec (total y) p) as [Hlt | Hge].
  - repeat split; try lia.
    apply IH; [exact Hs' |].
    eapply Forall_impl; [| exact Hall]. unfold descending. intros; lia.
  - repeat split; try lia.
    apply IH; [exact Hs' |].
    eapply Forall_impl; [| exact Hall]. unfold descending. intros; lia.
Qed.

Lemma rankByTotal_dense :
  forall l,
    StronglySorted (descending total) l ->
    DenseRanked total rankOf (rankByTotal total setRank l).
Proof.
  intros [| x l] Hs; simpl; [exact I |].
  inversion Hs as [| ? ? Hs' Hall]; subst.
  rewrite total_setRank, rankOf_setRank. split; [reflexivity |].
  apply (rankByTotal_loop_dense l 1 1 (total x)); [exact Hs' |].
  eapply Forall_impl; [| exact Hall]. unfold descending. intros; lia.
Qed.

(** Ranking changes nothing but the rank. *)
Lemma rankByTotal_loop_Forall2 :
  forall l i rank p,
    Forall2 (fun x y => exists r, y = setRank r x) l
      (rankByTotal_loop total setRank i rank p l).
Proof.
  induction l as [| x l IH]; intros; simpl; constructor; eauto.
Qed.

Lemma rankByTotal_In :
  forall l y, In y (rankByTotal total setRank l) ->
    exists x r, In x l /\ y = setRank r x.
Proof.
  intros l y Hy.
  pose proof (rankByTotal_loop_Forall2 l 0 1 None) as H.
  fold (rankByTotal total setRank l) in H.
  induction H as [| x y' l l' [r Hr] H IH]; simpl in Hy; [contradiction |].
  destruct Hy as [<- | Hy].
  - exists x, r. split; [now left | exact Hr].
  - destruct (IH Hy) as (x0 & r0 & Hin & Heq).
    exists x0, r0. split; [now right | exact Heq].
Qed.

Lemma rankByTotal_map :
  forall (B : Type) (f : A -> B),
    (forall r x, f (setRank r x) = f x) ->
    forall l, List.map f (rankByTotal total setRank l) = List.map f l.
Proof.
  intros B f Hf l.
  pose proof (rankByTotal_loop_Forall2 l 0 1 None) as H.
  fold (rankByTotal total setRank l) in H.
  induction H as [| x y l l' [r Hr] H IH]; simpl; [reflexivity |].
  subst y. now rewrite Hf, IH.
Qed.
End RankFacts.

(* ------------------------------------------------------------------ *)
(** ** The shape of a computed leaderboard *)
(* ------------------------------------------------------------------ *)

Lemma getLeaderboard_cases :
  forall JSON_parse String_trim localeCompare roundWeighted db competitionId resp,
    getLeaderboard JSON_parse String_trim localeCompare roundWeighted db competitionId
    = Normal resp ->
    (divisions resp = [] /\ gyms resp = []
     /\ (selectTrack db competitionId = None
         \/ (exists track, selectTrack db competitionId = Some track
                           /\ selectEvents db (track_id track) = [])
         \/ selectRegistrations db competitionId = []))
    \/ exists track athleteMap0,
         selectTrack db competitionId = Some track
         /\ selectEvents db (track_id track) <> []
         /\ selectRegistrations db competitionId <> []
         /\ buildAthleteMap JSON_parse String_trim
              (selectRegistrations db competitionId) [] = Normal athleteMap0
         /\ let events := selectEvents db (track_id track) in
            let allScores :=
              selectScores db (List.map ev_id events)
                (List.map reg_userId (selectRegistrations db competitionId)) in
            let athleteMap :=
              computeResults localeCompare roundWeighted events allScores athleteMap0 in
            divisions resp = map_values (buildDivisions athleteMap)
            /\ gyms resp = buildGyms athleteMap events (buildDivisions athleteMap).
Proof.
  intros P S L R db cid resp H.
  unfold getLeaderboard in H.
  destruct (selectCompetition db cid) as [comp |]; [| discriminate].
  destruct (selectTrack db cid) as [track |].
  2:{ injection H as <-. left. repeat split. now left. }
  destruct (selectEvents db (track_id track)) as [| ev evs] eqn:Hev.
  { injection H as <-. left. repeat split. right. left. exists track. now split. }
  destruct (selectRegistrations db cid) as [| reg regs] eqn:Hreg.
  { injection H as <-. left. repeat split. right. now right. }
  cbn [List.length Nat.eqb] in H.
  destruct (buildAthleteMap P S (reg :: regs) []) as [m0 | e] eqn:Hm0;
    [| discriminate].
  cbn [bind] in H. injection H as <-.
  right. exists track, m0. rewrite Hev.
  repeat split; try discriminate; reflexivity.
Qed.

(* ------------------------------------------------------------------ *)
(** ** Ranks of the division and gym leaderboards *)
(* ------------------------------------------------------------------ *)

(** C6: every division leaderboard is sorted by descending [totalPoints]
    and the gym leaderboard by descending [totalScore]; in each of them
    the first entry has rank 1, an entry whose total equals its
    predecessor's has the predecessor's rank, and an entry whose total
    is lower has its 1-based position as rank. *)
Theorem leaderboards_dense_ranked :
  forall JSON_parse String_trim localeCompare roundWeighted db competitionId resp,
    getLeaderboard JSON_parse String_trim localeCompare roundWeighted db competitionId
    = Normal resp ->
    (forall d, In d (divisions resp) ->
               DenseRanked la_totalPoints la_rank (div_athletes d))
    /\ DenseRanked gym_totalScore gym_rank (gyms resp).
Proof.
  intros P S L R db cid resp H.
  destruct (getLeaderboard_cases _ _ _ _ _ _ _ H)
    as [(Hd & Hg & _) | (track & m0 & _ & _ & _ & _ & Hd & Hg)].
  - rewrite Hd, Hg. split; [intros d [] | exact I].
  - rewrite Hd, Hg. split.
    + intros d Hin. unfold map_values, buildDivisions in Hin.
      rewrite map_map in Hin. apply in_map_iff in Hin.
      destruct Hin as ([k d0] & <- & _). simpl.
      apply rankByTotal_dense; try reflexivity.
      apply Array_sort_descending with (key := la_totalPoints). reflexivity.
    + unfold buildGyms.
      apply rankByTotal_dense; try reflexivity.
      apply Array_sort_descending with (key := gym_totalScore). reflexivity.
Qed.

Lemma leaderboards_dense_ranked_witness :
  exists resp,
    sampleLeaderboard dbSample = Normal resp
    /\ (forall d, In d (divisions resp) ->
                  DenseRanked la_totalPoints la_rank (div_athletes d))
    /\ DenseRanked gym_totalScore gym_rank (gyms resp).
Proof.
  eexists. split; [vm_compute; reflexivity |].
  apply (leaderboards_dense_ranked neverParses trimAscii compareCodeUnits
           roundExact dbSample "comp_1").
  vm_compute. reflexivity.
Defined.

(* ------------------------------------------------------------------ *)
(** ** Maps with string keys *)
(* ------------------------------------------------------------------ *)

Section StringMaps.
Context {V : Type}.
Implicit Types (m : list (string * V)) (k : string).

Lemma map_get_update :
  forall m k k' (f : V -> V),
    map_get String.eqb k (map_update String.eqb k' f m)
    = if String.eqb k' k then option_map f (map_get String.eqb k m)
      else map_get String.eqb k m.
Proof.
  induction m as [| [k0 v0] m IH]; intros k k' f; simpl.
  - now destruct (String.eqb k' k).
  - destruct (String.eqb_spec k0 k') as [-> | Hne]; simpl.
    + destruct (String.eqb_spec k' k) as [-> | Hne']; simpl; reflexivity.
    + destruct (String.eqb_spec k0 k) as [-> | Hne']; simpl.
      * destruct (String.eqb_spec k' k) as [-> | _]; [contradiction | reflexivity].
      * apply IH.
Qed.

Lemma map_get_set :
  forall m k k' (v : V),
    map_get String.eqb k (map_set String.eqb k' v m)
    = if String.eqb k' k then Some v else map_get String.eqb k m.
Proof.
  induction m as [| [k0 v0] m IH]; intros k k' v; simpl.
  - reflexivity.
  - destruct (String.eqb_spec k0 k') as [-> | Hne]; simpl.
    + destruct (String.eqb_spec k' k) as [-> | Hne']; simpl; reflexivity.
    + destruct (String.eqb_spec k0 k) as [-> | Hne']; simpl.
      * destruct (String.eqb_spec k' k) as [-> | _]; [contradiction | reflexivity].
      * apply IH.
Qed.

Lemma map_update_keys :
  forall m k (f : V -> V), List.map fst (map_update String.eqb k f m) = List.map fst m.
Proof.
  induction m as [| [k0 v0] m IH]; intros k f; simpl; [reflexivity |].
  destruct (String.eqb k0 k); simpl; [reflexivity |]. now rewrite IH.
Qed.

Lemma map_get_In : forall m k v, map_get String.eqb k m = Some v -> In (k, v) m.
Proof.
  induction m as [| [k0 v0] m IH]; intros k v H; simpl in *; [discriminate |].
  destruct (String.eqb_spec k0 k) as [-> | Hne].
  - injection H as <-. now left.
  - right. now apply IH.
Qed.

Lemma map_get_None : forall m k, map_get String.eqb k m = None <-> ~ In k (List.map fst m).
Proof.
  induction m as [| [k0 v0] m IH]; intros k; simpl.
  - split; [intros _ [] | reflexivity].
  - destruct (String.eqb_spec k0 k) as [-> | Hne].
    + split; [discriminate | intros H; exfalso; apply H; now left].
    + rewrite IH. split; intros H; [intros [H' | H']; auto | auto].
Qed.

Lemma In_map_get :
  forall m k v, NoDup (List.map fst m) -> In (k, v) m -> map_get String.eqb k m = Some v.
Proof.
  induction m as [| [k0 v0] m IH]; intros k v Hnd Hin; simpl in *; [contradiction |].
  inversion Hnd as [| ? ? Hnotin Hnd']; subst.
  destruct Hin as [Heq | Hin].
  - injection Heq as -> ->. now rewrite String.eqb_refl.
  - destruct (String.eqb_spec k0 k) as [-> | Hne].
    + exfalso. apply Hnotin. apply in_map_iff. exists (k, v). split; [reflexivity | exact Hin].
    + now apply IH.
Qed.

Lemma map_set_keys_In :
  forall m k (v : V) x,
    In x (List.map fst (map_set String.eqb k v m)) -> x = k \/ In x (List.map fst m).
Proof.
  induction m as [| [k0 v0] m IH]; intros k v x H; simpl in *.
  - destruct H as [<- | []]. now left.
  - destruct (String.eqb k0 k); simpl in H.
    + now right.
    + destruct H as [H | H]; [right; now left |].
      destruct (IH _ _ _ H); auto.
Qed.

Lemma map_set_keys_NoDup :
  forall m k (v : V), NoDup (List.map fst m) -> NoDup (List.map fst (map_set String.eqb k v m)).
Proof.
  induction m as [| [k0 v0] m IH]; intros k v Hnd; simpl.
  - constructor; [intros [] | constructor].
  - inversion Hnd as [| ? ? Hnotin Hnd']; subst.
    destruct (String.eqb_spec k0 k) as [-> | Hne]; simpl.
    + constructor; assumption.
    + constructor; [| now apply IH].
      intros Hin. apply map_set_keys_In in Hin. destruct Hin; congruence.
Qed.
End StringMaps.

(* ------------------------------------------------------------------ *)
(** ** Awarding results *)
(* ------------------------------------------------------------------ *)

Lemma sum_Z_app : forall l1 l2, sum_Z (l1 ++ l2) = sum_Z l1 + sum_Z l2.
Proof.
  induction l1 as [| x l1 IH]; intros l2; simpl; [reflexivity |].
  rewrite IH. lia.
Qed.

Lemma sum_Z_perm : forall l1 l2, Permutation l1 l2 -> sum_Z l1 = sum_Z l2.
Proof.
  intros l1 l2 H. induction H; simpl; lia.
Qed.

Lemma fold_left_map_list :
  forall (A B C : Type) (f : C -> B -> C) (h : A -> B) (l : list A) (c : C),
    fold_left f (List.map h l) c = fold_left (fun c x => f c (h x)) l c.
Proof.
  intros A B C f h l. induction l as [| x l IH]; intros c; simpl; [reflexivity |].
  apply IH.
Qed.

Lemma pushResults_nil : forall a, pushResults [] a = a.
Proof.
  intros [u n af d dl evs t]. unfold pushResults. simpl.
  now rewrite app_nil_r, Z.add_0_r.
Qed.

Lemma pushResult_pushResults : forall r a, pushResult r a = pushResults [r] a.
Proof.
  intros r a. unfold pushResult, pushResults. simpl. f_equal. lia.
Qed.

Lemma pushResults_app :
  forall rs1 rs2 a, pushResults rs2 (pushResults rs1 a) = pushResults (rs1 ++ rs2) a.
Proof.
  intros rs1 rs2 a. unfold pushResults. simpl.
  rewrite <- app_assoc, map_app, sum_Z_app. f_equal. lia.
Qed.

Section Awards.
Variable localeCompare : string -> string -> Z.
Variable roundWeighted : Z -> Z -> Z.
Variable event : EventRow.
Variable multiplier : Z.

Lemma award_get :
  forall uid rank m k,
    map_get String.eqb k (award roundWeighted event multiplier uid rank m)
    = if String.eqb uid k
      then option_map (pushResults [eventResult roundWeighted event multiplier rank])
             (map_get String.eqb k m)
      else map_get String.eqb k m.
Proof.
  intros uid rank m k. unfold award. rewrite map_get_update.
  destruct (String.eqb uid k); [| reflexivity].
  destruct (map_get String.eqb k m) as [a |]; [| reflexivity].
  simpl. f_equal. apply pushResult_pushResults.
Qed.

Lemma awards_get :
  forall awards m k,
    map_get String.eqb k (fold_left (awardPair roundWeighted event multiplier) awards m)
    = option_map (pushResults (resultsFor roundWeighted event multiplier k awards))
        (map_get String.eqb k m).
Proof.
  induction awards as [| [uid rank] awards IH]; intros m k; simpl.
  - destruct (map_get String.eqb k m); simpl; [| reflexivity].
    now rewrite pushResults_nil.
  - rewrite IH. unfold awardPair. simpl. rewrite award_get.
    unfold resultsFor. simpl.
    destruct (String.eqb uid k); [| reflexivity].
    destruct (map_get String.eqb k m) as [a |]; simpl; [| reflexivity].
    now rewrite pushResults_app.
Qed.

Lemma awards_keys :
  forall awards m,
    List.map fst (fold_left (awardPair roundWeighted event multiplier) awards m)
    = List.map fst m.
Proof.
  induction awards as [| [uid rank] awards IH]; intros m; simpl; [reflexivity |].
  rewrite IH. unfold awardPair, award. apply map_update_keys.
Qed.

(** [processDivision] awards the pairs of [divisionAwards] one by one. *)
Lemma processDivision_awards :
  forall divScores m,
    processDivision localeCompare roundWeighted event multiplier divScores m
    = fold_left (awardPair roundWeighted event multiplier)
        (divisionAwards localeCompare divScores) m.
Proof.
  intros divScores m. unfold processDivision, divisionAwards.
  rewrite fold_left_app, !fold_left_map_list. reflexivity.
Qed.

Lemma processDivision_get :
  forall divScores m k,
    map_get String.eqb k
      (processDivision localeCompare roundWeighted event multiplier divScores m)
    = option_map
        (pushResults (resultsFor roundWeighted event multiplier k
                        (divisionAwards localeCompare divScores)))
        (map_get String.eqb k m).
Proof.
  intros. rewrite processDivision_awards. apply awards_get.
Qed.
End Awards.

(* ------------------------------------------------------------------ *)
(** ** Athletes that did not finish *)
(* ------------------------------------------------------------------ *)

Lemma last_sorted_max :
  forall l,
    StronglySorted Z.le l -> Forall (fun r => 1 <= r) l ->
    last l 0 = fold_right Z.max 0 l.
Proof.
  induction l as [| x l IH]; intros Hs Hp; [reflexivity |].
  inversion Hs as [| ? ? Hs' Hall]; subst.
  inversion Hp as [| ? ? Hx Hp']; subst.
  destruct l as [| y l].
  - simpl. lia.
  - change (last (x :: y :: l) 0) with (last (y :: l) 0).
    rewrite (IH Hs' Hp').
    change (fold_right Z.max 0 (x :: y :: l))
      with (Z.max x (fold_right Z.max 0 (y :: l))).
    inversion Hall as [| ? ? Hxy _]; subst.
    simpl. lia.
Qed.

Lemma lastActiveRank_max :
  forall localeCompare divScores,
    lastActiveRank (rankActive localeCompare divScores)
    = maxActiveRank localeCompare divScores.
Proof.
  intros lc ds. unfold lastActiveRank, maxActiveRank, rankActive.
  apply last_sorted_max.
  - apply assignRanks_nondecreasing.
  - apply assignRanks_ranks_positive.
Qed.

(** C3: in the group of one event and division, every entry with status
    [dnf] of a known athlete is awarded a result whose rank is the
    largest rank among the group's active entries plus 1, with the
    points of that rank; without active entries that rank is 1. *)
Theorem dnf_rank_after_active :
  forall localeCompare roundWeighted event multiplier divScores athleteMap entry athlete,
    In entry divScores ->
    se_status entry = "dnf" ->
    map_get String.eqb (se_userId entry) athleteMap = Some athlete ->
    let dnfRank := maxActiveRank localeCompare divScores + 1 in
    (exists athlete',
        map_get String.eqb (se_userId entry)
          (processDivision localeCompare roundWeighted event multiplier divScores athleteMap)
        = Some athlete'
        /\ In {| eventId := ev_id event;
                 eventName := ev_workoutName event;
                 points := roundWeighted (calculateTraditionalPoints dnfRank) multiplier;
                 rank := dnfRank |}
              (a_events athlete'))
    /\ (filter isActive divScores = [] -> dnfRank = 1).
Proof.
  intros lc rw ev mult ds m entry athlete Hin Hst Hget dnfRank. split.
  - rewrite processDivision_get, Hget. simpl. eexists. split; [reflexivity |].
    simpl. apply in_or_app. right.
    unfold resultsFor. apply in_map_iff.
    exists (se_userId entry, dnfRank). split; [reflexivity |].
    apply filter_In. simpl. split; [| apply String.eqb_refl].
    unfold divisionAwards. apply in_or_app. right.
    apply in_map_iff. exists entry. split.
    + unfold dnfRank. now rewrite lastActiveRank_max.
    + apply filter_In. split; [exact Hin |].
      unfold isDnf. rewrite Hst. reflexivity.
  - intros Hnone. unfold dnfRank, maxActiveRank, rankActive.
    rewrite Hnone. reflexivity.
Qed.

Lemma dnf_rank_after_active_witness :
  (exists athlete',
      map_get String.eqb "Q"
        (processDivision compareCodeUnits roundExact (sampleEvent "e1") 100
           sampleDivScores sampleAthleteMap)
      = Some athlete'
      /\ In {| eventId := "e1"; eventName := "Workout"; points := 95; rank := 2 |}
            (a_events athlete'))
  /\ (filter isActive sampleDivScores = [] -> 2 = 1).
Proof.
  apply (dnf_rank_after_active compareCodeUnits roundExact (sampleEvent "e1") 100
           sampleDivScores sampleAthleteMap (sampleEntry "Q" None "dnf")
           (sampleAthlete "Q")).
  - simpl. right. left. reflexivity.
  - reflexivity.
  - reflexivity.
Defined.

(* ------------------------------------------------------------------ *)
(** ** Grouping *)
(* ------------------------------------------------------------------ *)

Lemma filter_length_perm :
  forall (A : Type) (p : A -> bool) (l l' : list A),
    Permutation l l' -> List.length (filter p l) = List.length (filter p l').
Proof.
  intros A p l l' H. induction H; simpl.
  - reflexivity.
  - destruct (p x); simpl; congruence.
  - destruct (p x), (p y); reflexivity.
  - congruence.
Qed.

Lemma filter_map_length :
  forall (A B : Type) (p : B -> bool) (h : A -> B) (l : list A),
    List.length (filter p (List.map h l)) = List.length (filter (fun x => p (h x)) l).
Proof.
  intros A B p h l. induction l as [| x l IH]; simpl; [reflexivity |].
  destruct (p (h x)); simpl; congruence.
Qed.

(** Pushing into a group adds the element to the groups' contents,
    whatever the key comparison. *)
Lemma group_push_contents :
  forall (K X : Type) (same : K -> K -> bool) (k : K) (x : X) (m : list (K * list X)),
    Permutation (List.concat (List.map snd (group_push same k x m)))
      (List.concat (List.map snd m) ++ [x]).
Proof.
  intros K X same k x m. unfold group_push.
  induction m as [| [k0 v0] m IH]; simpl.
  - apply Permutation_refl.
  - destruct (same k0 k); simpl.
    + rewrite <- !app_assoc. apply Permutation_app_head. apply Permutation_app_comm.
    + rewrite <- app_assoc. apply Permutation_app_head. exact IH.
Qed.

Lemma collectDivisionScores_contents_from :
  forall athleteMap event allScores acc,
    Permutation
      (List.concat (List.map snd
         (fold_left
            (fun divisionScores score =>
               if negb (opt_string_eqb (sc_competitionEventId score) (Some (ev_id event)))
               then divisionScores
               else
                 match map_get String.eqb (sc_userId score) athleteMap with
                 | None => divisionScores
                 | Some athlete =>
                     group_push String.eqb (a_divisionId athlete) (toScoreEntry score)
                       divisionScores
                 end)
            allScores acc)))
      (List.concat (List.map snd acc)
       ++ List.map toScoreEntry (filter (scoreOfEvent athleteMap event) allScores)).
Proof.
  intros m ev scores. induction scores as [| s scores IH]; intros acc.
  - simpl. rewrite app_nil_r. apply Permutation_refl.
  - cbn [fold_left filter].
    assert (Hs : scoreOfEvent m ev s
                 = opt_string_eqb (sc_competitionEventId s) (Some (ev_id ev))
                   && isSome (map_get String.eqb (sc_userId s) m)) by reflexivity.
    destruct (opt_string_eqb (sc_competitionEventId s) (Some (ev_id ev)));
      cbn [negb andb] in *.
    + destruct (map_get String.eqb (sc_userId s) m) as [a |];
        cbn [isSome] in Hs; rewrite Hs.
      * eapply perm_trans; [apply IH |].
        eapply perm_trans; [apply Permutation_app_tail, group_push_contents |].
        rewrite <- app_assoc. apply Permutation_refl.
      * apply IH.
    + rewrite Hs. apply IH.
Qed.

Lemma collectDivisionScores_contents :
  forall athleteMap event allScores,
    Permutation
      (List.concat (List.map snd (collectDivisionScores athleteMap event allScores)))
      (List.map toScoreEntry (filter (scoreOfEvent athleteMap event) allScores)).
Proof.
  intros. unfold collectDivisionScores.
  apply (collectDivisionScores_contents_from athleteMap event allScores []).
Qed.

Lemma isActive_not_dnf : forall s, isActive s = true -> isDnf s = false.
Proof.
  intros s. unfold isActive, isDnf.
  destruct (String.eqb_spec (se_status s) "scored") as [-> | _]; [reflexivity |].
  destruct (String.eqb_spec (se_status s) "cap") as [-> | _]; [reflexivity |].
  discriminate.
Qed.

Lemma active_dnf_split :
  forall uid ds,
    (List.length (filter (fun s => String.eqb (se_userId s) uid) (filter isActive ds))
     + List.length (filter (fun s => String.eqb (se_userId s) uid) (filter isDnf ds)))%nat
    = List.length (filter (rankedFor uid) ds).
Proof.
  intros uid ds. induction ds as [| s ds IH]; simpl; [reflexivity |].
  unfold rankedFor at 1.
  destruct (isActive s) eqn:Ha.
  - rewrite (isActive_not_dnf s Ha). simpl.
    destruct (String.eqb (se_userId s) uid); simpl; lia.
  - destruct (isDnf s); simpl.
    + destruct (String.eqb (se_userId s) uid); simpl; lia.
    + rewrite andb_false_r. exact IH.
Qed.

(** A division awards a user as many results as the user has ranked entries. *)
Lemma divisionAwards_count :
  forall localeCompare uid ds,
    List.length (filter (fun ur : string * Z => String.eqb (fst ur) uid)
                   (divisionAwards localeCompare ds))
    = List.length (filter (rankedFor uid) ds).
Proof.
  intros lc uid ds. unfold divisionAwards.
  rewrite filter_app, length_app, !filter_map_length. simpl.
  rewrite <- active_dnf_split. f_equal.
  rewrite <- (filter_map_length _ _ (fun s => String.eqb (se_userId s) uid) fst).
  unfold rankActive. rewrite assignRanks_entries.
  apply filter_length_perm, Array_sort_perm.
Qed.

Lemma eventAwards_count_groups :
  forall localeCompare uid (groups : list (string * list ScoreEntry)),
    List.length (filter (fun ur : string * Z => String.eqb (fst ur) uid)
                   (List.concat (List.map (fun g => divisionAwards localeCompare (snd g))
                                   groups)))
    = List.length (filter (rankedFor uid) (List.concat (List.map snd groups))).
Proof.
  intros lc uid groups. induction groups as [| [k ds] groups IH]; simpl; [reflexivity |].
  rewrite !filter_app, !length_app, IH, divisionAwards_count. reflexivity.
Qed.

Lemma eventAwards_count :
  forall localeCompare athleteMap event allScores uid,
    (List.length (filter (fun ur : string * Z => String.eqb (fst ur) uid)
                    (eventAwards localeCompare athleteMap event allScores))
     <= List.length (filter (countsFor uid (ev_id event)) allScores))%nat.
Proof.
  intros lc m ev scores uid. unfold eventAwards.
  rewrite eventAwards_count_groups.
  rewrite (filter_length_perm _ _ _ _ (collectDivisionScores_contents m ev scores)).
  rewrite filter_map_length.
  induction scores as [| s scores IH]; [simpl; lia |].
  cbn [filter].
  assert (Hs : scoreOfEvent m ev s
               = opt_string_eqb (sc_competitionEventId s) (Some (ev_id ev))
                 && isSome (map_get String.eqb (sc_userId s) m)) by reflexivity.
  assert (Hc : countsFor uid (ev_id ev) s
               = String.eqb (sc_userId s) uid
                 && opt_string_eqb (sc_competitionEventId s) (Some (ev_id ev))
                 && (isActive (toScoreEntry s) || isDnf (toScoreEntry s)))
    by reflexivity.
  assert (Hr : rankedFor uid (toScoreEntry s)
               = String.eqb (sc_userId s) uid
                 && (isActive (toScoreEntry s) || isDnf (toScoreEntry s)))
    by reflexivity.
  destruct (scoreOfEvent m ev s) eqn:Hse; cbn [filter].
  - symmetry in Hs. apply andb_prop in Hs. destruct Hs as [He _].
    rewrite He, andb_true_r in Hc. rewrite Hc, <- Hr.
    destruct (rankedFor uid (toScoreEntry s)); simpl; lia.
  - destruct (countsFor uid (ev_id ev) s); simpl; lia.
Qed.

(* ------------------------------------------------------------------ *)
(** ** One event, athlete by athlete *)
(* ------------------------------------------------------------------ *)

Section EventFacts.
Variable localeCompare : string -> string -> Z.
Variable roundWeighted : Z -> Z -> Z.
Variable allScores : list ScoreRow.

Lemma resultsFor_app :
  forall event multiplier k a1 a2,
    resultsFor roundWeighted event multiplier k (a1 ++ a2)
    = resultsFor roundWeighted event multiplier k a1
      ++ resultsFor roundWeighted event multiplier k a2.
Proof.
  intros. unfold resultsFor. now rewrite filter_app, map_app.
Qed.


Lemma divisions_get :
  forall event multiplier (groups : list (string * list ScoreEntry)) m k,
    map_get String.eqb k
      (fold_left
         (fun m' (g : string * list ScoreEntry) =>
            processDivision localeCompare roundWeighted event multiplier (snd g) m')
         groups m)
    = option_map
        (pushResults
           (resultsFor roundWeighted event multiplier k
              (List.concat (List.map (fun g => divisionAwards localeCompare (snd g))
                              groups))))
        (map_get String.eqb k m).
Proof.
  intros ev mult groups. induction groups as [| [d ds] groups IH]; intros m k; simpl.
  - destruct (map_get String.eqb k m); simpl; [| reflexivity].
    unfold resultsFor. simpl. now rewrite pushResults_nil.
  - rewrite IH, processDivision_get, resultsFor_app.
    destruct (map_get String.eqb k m); simpl; [| reflexivity].
    now rewrite pushResults_app.
Qed.

Lemma divisions_keys :
  forall event multiplier (groups : list (string * list ScoreEntry)) m,
    List.map fst
      (fold_left
         (fun m' (g : string * list ScoreEntry) =>
            processDivision localeCompare roundWeighted event multiplier (snd g) m')
         groups m)
    = List.map fst m.
Proof.
  intros ev mult groups. induction groups as [| [d ds] groups IH]; intros m; simpl.
  - reflexivity.
  - rewrite IH, processDivision_awards. apply awards_keys.
Qed.

Lemma fillMissing_get :
  forall event m k,
    map_get String.eqb k (fillMissing event m)
    = option_map (fillOne event) (map_get String.eqb k m).
Proof.
  intros ev m k. induction m as [| [k0 a0] m IH]; [reflexivity |].
  change (fillMissing ev ((k0, a0) :: m))
    with ((if hasEvent ev a0 then (k0, a0) else (k0, pushPlaceholder ev a0))
          :: fillMissing ev m).
  destruct (hasEvent ev a0) eqn:He; cbn [map_get];
    destruct (String.eqb k0 k); cbn [option_map]; try exact IH;
    unfold fillOne; now rewrite He.
Qed.

Lemma fillMissing_keys :
  forall event m, List.map fst (fillMissing event m) = List.map fst m.
Proof.
  intros ev m. unfold fillMissing. rewrite map_map.
  apply map_ext. intros [k a]. simpl. now destruct (hasEvent ev a).
Qed.

Lemma processEvent_get :
  forall m event k,
    map_get String.eqb k (processEvent localeCompare roundWeighted allScores m event)
    = option_map (stepAthlete localeCompare roundWeighted allScores m event k)
        (map_get String.eqb k m).
Proof.
  intros m ev k. unfold processEvent.
  rewrite fillMissing_get, divisions_get.
  destruct (map_get String.eqb k m); reflexivity.
Qed.

Lemma processEvent_keys :
  forall m event,
    List.map fst (processEvent localeCompare roundWeighted allScores m event)
    = List.map fst m.
Proof.
  intros m ev. unfold processEvent. now rewrite fillMissing_keys, divisions_keys.
Qed.

Lemma computeResults_keys :
  forall events m,
    List.map fst (computeResults localeCompare roundWeighted events allScores m)
    = List.map fst m.
Proof.
  unfold computeResults.
  induction events as [| ev events IH]; intros m; simpl; [reflexivity |].
  now rewrite IH, processEvent_keys.
Qed.

Lemma hasEvent_In :
  forall event a,
    hasEvent event a = true <-> In (ev_id event) (List.map eventId (a_events a)).
Proof.
  intros ev a. unfold hasEvent. rewrite existsb_exists, in_map_iff.
  split; intros (r & H1 & H2).
  - exists r. split; [now apply String.eqb_eq | exact H1].
  - exists r. split; [exact H2 | now apply String.eqb_eq].
Qed.

Lemma fillOne_identity :
  forall event a, sameIdentity a (fillOne event a).
Proof.
  intros ev a. unfold fillOne, sameIdentity.
  destruct (hasEvent ev a); simpl; repeat split.
Qed.

Lemma stepAthlete_identity :
  forall m event k a,
    sameIdentity a (stepAthlete localeCompare roundWeighted allScores m event k a).
Proof.
  intros m ev k a. unfold stepAthlete.
  destruct (fillOne_identity ev
              (pushResults
                 (resultsFor roundWeighted ev (multiplierOf ev) k
                    (eventAwards localeCompare m ev allScores)) a))
    as (H1 & H2 & H3 & H4 & H5).
  unfold sameIdentity. simpl in *. repeat split; assumption.
Qed.

(** The totals stay in step with the results, whatever the scores. *)
Lemma stepAthlete_total :
  forall m event k a,
    totalMatches a ->
    totalMatches (stepAthlete localeCompare roundWeighted allScores m event k a).
Proof.
  intros m ev k a Ha. unfold stepAthlete, fillOne, totalMatches in *.
  match goal with |- context [hasEvent ev ?x] => destruct (hasEvent ev x) end; simpl.
  - rewrite map_app, sum_Z_app. lia.
  - rewrite !map_app, !sum_Z_app. simpl. lia.
Qed.

(** With at most one ranked score, the athlete gets exactly one result
    for the event. *)
Lemma stepAthlete_events :
  forall m event k a,
    ~ In (ev_id event) (List.map eventId (a_events a)) ->
    (List.length (filter (countsFor k (ev_id event)) allScores) <= 1)%nat ->
    List.map eventId
      (a_events (stepAthlete localeCompare roundWeighted allScores m event k a))
    = List.map eventId (a_events a) ++ [ev_id event].
Proof.
  intros m ev k a Hnew Hcount.
  pose proof (eventAwards_count localeCompare m ev allScores k) as Hle.
  unfold stepAthlete, resultsFor.
  destruct (filter (fun ur : string * Z => String.eqb (fst ur) k)
              (eventAwards localeCompare m ev allScores)) as [| x [| y l]].
  - simpl. rewrite pushResults_nil. unfold fillOne.
    destruct (hasEvent ev a) eqn:Hhas.
    + apply hasEvent_In in Hhas. contradiction.
    + simpl. now rewrite map_app.
  - simpl. unfold fillOne.
    match goal with |- context [hasEvent ev ?x] => destruct (hasEvent ev x) eqn:Hhas end.
    + simpl. now rewrite map_app.
    + exfalso.
      assert (H : hasEvent ev
                    (pushResults [eventResult roundWeighted ev (multiplierOf ev) (snd x)] a)
                  = true).
      { apply hasEvent_In. simpl. rewrite map_app. apply in_or_app. right. now left. }
      congruence.
  - simpl in Hle. lia.
Qed.
End EventFacts.

(* ------------------------------------------------------------------ *)
(** ** All the events *)
(* ------------------------------------------------------------------ *)

Lemma sameIdentity_refl : forall a, sameIdentity a a.
Proof. intros a. unfold sameIdentity. repeat split. Qed.

Lemma sameIdentity_trans :
  forall a b c, sameIdentity a b -> sameIdentity b c -> sameIdentity a c.
Proof.
  unfold sameIdentity. intros a b c (H1 & H2 & H3 & H4 & H5) (G1 & G2 & G3 & G4 & G5).
  repeat split; congruence.
Qed.

Section ResultsFacts.
Variable localeCompare : string -> string -> Z.
Variable roundWeighted : Z -> Z -> Z.
Variable allScores : list ScoreRow.

Lemma computeResults_athlete :
  forall events m k a,
    map_get String.eqb k m = Some a ->
    exists a',
      map_get String.eqb k (computeResults localeCompare roundWeighted events allScores m)
      = Some a'
      /\ sameIdentity a a'
      /\ (totalMatches a -> totalMatches a').
Proof.
  unfold computeResults.
  induction events as [| ev events IH]; intros m k a Hget; simpl.
  - exists a. split; [exact Hget |]. split; [apply sameIdentity_refl | auto].
  - destruct (IH (processEvent localeCompare roundWeighted allScores m ev) k
                (stepAthlete localeCompare roundWeighted allScores m ev k a))
      as (a' & Hget' & Hid & Htot).
    { rewrite processEvent_get, Hget. reflexivity. }
    exists a'. split; [exact Hget' |]. split.
    + eapply sameIdentity_trans; [apply stepAthlete_identity | exact Hid].
    + intros Ha. apply Htot. now apply stepAthlete_total.
Qed.

Lemma computeResults_events :
  forall events m k a,
    NoDup (List.map ev_id events) ->
    (forall eid, (List.length (filter (countsFor k eid) allScores) <= 1)%nat) ->
    map_get String.eqb k m = Some a ->
    (forall ev, In ev events -> ~ In (ev_id ev) (List.map eventId (a_events a))) ->
    exists a',
      map_get String.eqb k (computeResults localeCompare roundWeighted events allScores m)
      = Some a'
      /\ List.map eventId (a_events a')
         = List.map eventId (a_events a) ++ List.map ev_id events.
Proof.
  unfold computeResults.
  induction events as [| ev events IH]; intros m k a Hnd Hcount Hget Hnew; simpl.
  - exists a. split; [exact Hget | now rewrite app_nil_r].
  - inversion Hnd as [| ? ? Hnotin Hnd']; subst.
    pose proof (stepAthlete_events localeCompare roundWeighted allScores m ev k a
                  (Hnew ev (or_introl eq_refl)) (Hcount (ev_id ev))) as Hstep.
    destruct (IH (processEvent localeCompare roundWeighted allScores m ev) k
                (stepAthlete localeCompare roundWeighted allScores m ev k a)
                Hnd' Hcount)
      as (a' & Hget' & Hev).
    { rewrite processEvent_get, Hget. reflexivity. }
    { intros ev' Hin' Hc. rewrite Hstep in Hc. apply in_app_or in Hc.
      destruct Hc as [Hc | [Hc | []]].
      - apply (Hnew ev' (or_intror Hin')). exact Hc.
      - apply Hnotin. rewrite Hc. now apply in_map. }
    exists a'. split; [exact Hget' |].
    rewrite Hev, Hstep, <- app_assoc. reflexivity.
Qed.
End ResultsFacts.

(* ------------------------------------------------------------------ *)
(** ** The athlete map of step 6 *)
(* ------------------------------------------------------------------ *)

Lemma map_set_values :
  forall (V : Type) (Q : V -> Prop) (m : list (string * V)) k v,
    Forall Q (List.map snd m) -> Q v ->
    Forall Q (List.map snd (map_set String.eqb k v m)).
Proof.
  intros V Q m k v Hm Hv. induction m as [| [k0 v0] m IH]; simpl.
  - constructor; [exact Hv | constructor].
  - inversion Hm as [| ? ? H0 Hm']; subst.
    destruct (String.eqb k0 k); simpl; constructor; auto.
Qed.

Lemma buildAthleteMap_fresh :
  forall JSON_parse String_trim regs m m',
    buildAthleteMap JSON_parse String_trim regs m = Normal m' ->
    NoDup (List.map fst m) -> Forall freshAthlete (List.map snd m) ->
    NoDup (List.map fst m') /\ Forall freshAthlete (List.map snd m').
Proof.
  intros P S regs. induction regs as [| reg regs IH]; intros m m' H Hnd Hfresh.
  - simpl in H. injection H as <-. split; assumption.
  - simpl in H.
    destruct (parseAffiliateName P (reg_metadata reg)) as [aff | e]; [| discriminate].
    simpl in H. apply IH in H; [exact H | |].
    + now apply map_set_keys_NoDup.
    + apply map_set_values; [exact Hfresh |]. split; reflexivity.
Qed.

(* ------------------------------------------------------------------ *)
(** ** Division groups *)
(* ------------------------------------------------------------------ *)

Lemma addToDivision_cons :
  forall k0 d0 groups athlete,
    addToDivision ((k0, d0) :: groups) athlete
    = if String.eqb k0 (a_divisionId athlete)
      then (k0, pushAthlete (toLeaderboardAthlete athlete) d0) :: groups
      else (k0, d0) :: addToDivision groups athlete.
Proof.
  intros k0 d0 groups ath. unfold addToDivision. simpl.
  destruct (String.eqb k0 (a_divisionId ath)) eqn:He; simpl.
  - now rewrite He.
  - destruct (map_get String.eqb (a_divisionId ath) groups); simpl; now rewrite He.
Qed.

Lemma addToDivision_contents :
  forall groups athlete,
    Permutation (divisionContents (addToDivision groups athlete))
      (divisionContents groups ++ [toLeaderboardAthlete athlete]).
Proof.
  intros groups ath. induction groups as [| [k0 d0] groups IH].
  - unfold addToDivision, divisionContents. simpl.
    rewrite String.eqb_refl. simpl. apply Permutation_refl.
  - rewrite addToDivision_cons.
    destruct (String.eqb k0 (a_divisionId ath)); unfold divisionContents in *; simpl.
    + rewrite <- !app_assoc. apply Permutation_app_head. apply Permutation_app_comm.
    + rewrite <- app_assoc. apply Permutation_app_head. exact IH.
Qed.

Lemma groupDivisions_contents :
  forall m,
    Permutation (divisionContents (groupDivisions m))
      (List.map toLeaderboardAthlete (map_values m)).
Proof.
  intros m. unfold groupDivisions.
  assert (H : forall l acc,
             Permutation (divisionContents (fold_left addToDivision l acc))
               (divisionContents acc ++ List.map toLeaderboardAthlete l)).
  { induction l as [| ath l IH]; intros acc; simpl.
    - rewrite app_nil_r. apply Permutation_refl.
    - eapply perm_trans; [apply IH |].
      eapply perm_trans; [apply Permutation_app_tail, addToDivision_contents |].
      rewrite <- app_assoc. apply Permutation_refl. }
  apply (H (map_values m) []).
Qed.

(** Every athlete of a division leaderboard is an athlete of the map,
    with a rank. *)
Lemma division_athlete_origin :
  forall m d a,
    In d (map_values (buildDivisions m)) -> In a (div_athletes d) ->
    exists k athlete r,
      In (k, athlete) m /\ a = setAthleteRank r (toLeaderboardAthlete athlete).
Proof.
  intros m d a Hd Ha. unfold map_values, buildDivisions in Hd.
  rewrite map_map in Hd. apply in_map_iff in Hd.
  destruct Hd as ([kd d0] & <- & Hd0). simpl in Ha.
  apply rankByTotal_In in Ha. destruct Ha as (x & r & Hx & ->).
  apply Array_sort_In in Hx.
  assert (Hc : In x (divisionContents (groupDivisions m))).
  { unfold divisionContents. apply in_concat. exists (div_athletes d0).
    split; [| exact Hx].
    apply in_map_iff. exists (kd, d0). split; [reflexivity | exact Hd0]. }
  apply (Permutation_in _ (groupDivisions_contents m)) in Hc.
  apply in_map_iff in Hc. destruct Hc as (ath & <- & Hath).
  unfold map_values in Hath. apply in_map_iff in Hath.
  destruct Hath as ([k ath'] & Heq & Hin). simpl in Heq. subst ath'.
  exists k, ath, r. split; [exact Hin | reflexivity].
Qed.

(* ------------------------------------------------------------------ *)
(** ** One result per event *)
(* ------------------------------------------------------------------ *)

Lemma count_NoDup :
  forall (l : list string) x,
    NoDup l -> In x l ->
    List.length (filter (fun y => String.eqb y x) l) = 1%nat.
Proof.
  induction l as [| y l IH]; intros x Hnd Hin; [contradiction |].
  inversion Hnd as [| ? ? Hnotin Hnd']; subst. simpl.
  destruct (String.eqb_spec y x) as [-> | Hne].
  - simpl. f_equal.
    assert (H : filter (fun y => String.eqb y x) l = []).
    { clear -Hnotin. induction l as [| z l IH]; simpl; [reflexivity |].
      destruct (String.eqb_spec z x) as [-> | _].
      - exfalso. apply Hnotin. now left.
      - apply IH. intros H. apply Hnotin. now right. }
    now rewrite H.
  - destruct Hin as [Heq | Hin]; [contradiction |]. now apply IH.
Qed.

(** C1, as amended: in a computed leaderboard the [totalPoints] of every
    athlete is the sum of the [points] of the athlete's results; and when
    the published events have distinct ids and no athlete has more than
    one score row with status [scored], [cap] or [dnf] for the same
    event, the athlete's results are exactly one per published event, in
    the order of the events. *)
Theorem results_one_per_event :
  forall JSON_parse String_trim localeCompare roundWeighted db competitionId resp track,
    getLeaderboard JSON_parse String_trim localeCompare roundWeighted db competitionId
    = Normal resp ->
    selectTrack db competitionId = Some track ->
    forall d a,
      In d (divisions resp) -> In a (div_athletes d) ->
      la_totalPoints a = sum_Z (List.map points (la_events a))
      /\ let events := selectEvents db (track_id track) in
         let allScores :=
           selectScores db (List.map ev_id events)
             (List.map reg_userId (selectRegistrations db competitionId)) in
         NoDup (List.map ev_id events) ->
         (forall uid eid,
             (List.length (filter (countsFor uid eid) allScores) <= 1)%nat) ->
         List.map eventId (la_events a) = List.map ev_id events
         /\ List.length (la_events a) = List.length events
         /\ forall ev, In ev events ->
              List.length
                (filter (fun r => String.eqb (eventId r) (ev_id ev)) (la_events a))
              = 1%nat.
Proof.
  intros P S L R db cid resp track H Htrack d a Hd Ha.
  destruct (getLeaderboard_cases _ _ _ _ _ _ _ H)
    as [(Hdiv & _) | (track' & m0 & Htrack' & _ & _ & Hm0 & Hdiv & _)].
  { rewrite Hdiv in Hd. contradiction. }
  rewrite Htrack in Htrack'. injection Htrack' as <-.
  rewrite Hdiv in Hd.
  destruct (division_athlete_origin _ _ _ Hd Ha) as (k & ath & r & Hin & ->).
  destruct (buildAthleteMap_fresh _ _ _ _ _ Hm0 (NoDup_nil _) (Forall_nil _))
    as [Hnd0 Hfresh].
  set (events := selectEvents db (track_id track)) in *.
  set (allScores := selectScores db (List.map ev_id events)
                      (List.map reg_userId (selectRegistrations db cid))) in *.
  assert (Hnd : NoDup (List.map fst (computeResults L R events allScores m0))).
  { now rewrite computeResults_keys. }
  pose proof (In_map_get _ _ _ Hnd Hin) as Hget.
  destruct (map_get String.eqb k m0) as [a0 |] eqn:Hget0.
  2:{ apply map_get_None in Hget0. exfalso. apply Hget0.
      rewrite <- (computeResults_keys L R allScores events m0).
      apply in_map_iff. exists (k, ath). split; [reflexivity | exact Hin]. }
  assert (Hfresh0 : freshAthlete a0).
  { rewrite Forall_forall in Hfresh. apply Hfresh.
    apply in_map_iff. exists (k, a0). split; [reflexivity |].
    now apply map_get_In. }
  destruct Hfresh0 as [Hev0 Htot0].
  split.
  - destruct (computeResults_athlete L R allScores events m0 k a0 Hget0)
      as (a' & Hget' & _ & Htot).
    rewrite Hget in Hget'. injection Hget' as <-.
    simpl. apply Htot. unfold totalMatches. now rewrite Hev0, Htot0.
  - intros events' allScores' Hndev Hcount. subst events' allScores'.
    destruct (computeResults_events L R allScores events m0 k a0 Hndev
                (fun eid => Hcount k eid) Hget0)
      as (a' & Hget' & Hids).
    { intros ev _. rewrite Hev0. simpl. auto. }
    rewrite Hget in Hget'. injection Hget' as <-.
    rewrite Hev0 in Hids. simpl in Hids.
    assert (Hlen : List.length (a_events ath) = List.length events).
    { rewrite <- (length_map eventId), Hids. apply length_map. }
    simpl. repeat split; try assumption.
    intros ev Hev.
    rewrite <- (filter_map_length _ _ (fun i => String.eqb i (ev_id ev)) eventId).
    rewrite Hids. apply count_NoDup; [exact Hndev | now apply in_map].
Qed.

(** Scores of pairwise distinct users: at most one row per user. *)
Lemma countsFor_distinct_users :
  forall scores,
    NoDup (List.map sc_userId scores) ->
    forall uid eid, (List.length (filter (countsFor uid eid) scores) <= 1)%nat.
Proof.
  induction scores as [| s scores IH]; intros Hnd uid eid; simpl; [lia |].
  inversion Hnd as [| ? ? Hnotin Hnd']; subst.
  destruct (countsFor uid eid s) eqn:Hc; [| now apply IH].
  assert (Hs : sc_userId s = uid).
  { unfold countsFor in Hc. apply andb_prop in Hc. destruct Hc as [Hc _].
    apply andb_prop in Hc. destruct Hc as [Hc _]. now apply String.eqb_eq. }
  assert (H : filter (countsFor uid eid) scores = []).
  { clear -Hnotin Hs. induction scores as [| s' scores IH]; simpl; [reflexivity |].
    destruct (countsFor uid eid s') eqn:Hc'.
    - exfalso. apply Hnotin. left.
      unfold countsFor in Hc'. apply andb_prop in Hc'. destruct Hc' as [Hc' _].
      apply andb_prop in Hc'. destruct Hc' as [Hc' _].
      apply String.eqb_eq in Hc'. congruence.
    - apply IH. intros H. apply Hnotin. now right. }
  rewrite H. simpl. lia.
Qed.

Lemma dbSample_users_distinct :
  NoDup (List.map sc_userId (selectScores dbSample [] [])).
Proof.
  repeat (constructor;
          [simpl; intros H;
           repeat (destruct H as [H | H]; [discriminate H |]); exact H |]).
  constructor.
Qed.

Lemma results_one_per_event_witness :
  exists d a,
    In d (divisions sampleResponse) /\ In a (div_athletes d)
    /\ la_totalPoints a = sum_Z (List.map points (la_events a))
    /\ List.map eventId (la_events a) = ["e1"]
    /\ List.length (la_events a) = 1%nat
    /\ forall ev, In ev [sampleEvent "e1"] ->
         List.length
           (filter (fun r => String.eqb (eventId r) (ev_id ev)) (la_events a))
         = 1%nat.
Proof.
  assert (Hresp : sampleLeaderboard dbSample = Normal sampleResponse)
    by (vm_compute; reflexivity).
  eexists. eexists.
  split; [left; reflexivity |]. split; [left; reflexivity |].
  destruct (results_one_per_event neverParses trimAscii compareCodeUnits roundExact
              dbSample "comp_1" sampleResponse {| track_id := "track_1" |}
              Hresp eq_refl _ _ (or_introl eq_refl) (or_introl eq_refl))
    as [Htotal Hshape].
  split; [exact Htotal |].
  apply Hshape.
  - constructor; [intros [] | constructor].
  - exact (countsFor_distinct_users _ dbSample_users_distinct).
Defined.

(** C1, as stated, fails when an athlete has two ranked scores for one
    event: with one published event and the two [scored] rows of
    [dbTwoScores], athlete X ends up with two results. *)
Lemma two_scores_two_results :
  exists resp d a,
    sampleLeaderboard dbTwoScores = Normal resp
    /\ In d (divisions resp) /\ In a (div_athletes d)
    /\ List.length (selectEvents dbTwoScores "track_1") = 1%nat
    /\ List.length (la_events a) = 2%nat.
Proof.
  eexists. eexists. eexists.
  split; [vm_compute; reflexivity |].
  split; [left; reflexivity |].
  split; [left; reflexivity |].
  split; reflexivity.
Qed.

(* ------------------------------------------------------------------ *)
(** ** One athlete record per user *)
(* ------------------------------------------------------------------ *)

Lemma find_app_last :
  forall (A : Type) (p : A -> bool) (l : list A) (x : A),
    find p (l ++ [x])
    = match find p l with
      | Some y => Some y
      | None => if p x then Some x else None
      end.
Proof.
  intros A p l x. induction l as [| y l IH]; simpl.
  - reflexivity.
  - destruct (p y); [reflexivity | exact IH].
Qed.

Lemma lastRegistration_cons :
  forall uid reg regs,
    lastRegistration uid (reg :: regs)
    = match lastRegistration uid regs with
      | Some r => Some r
      | None => if String.eqb (reg_userId reg) uid then Some reg else None
      end.
Proof.
  intros. unfold lastRegistration. simpl. apply find_app_last.
Qed.

Lemma lastRegistration_userId :
  forall uid regs reg,
    lastRegistration uid regs = Some reg -> reg_userId reg = uid /\ In reg regs.
Proof.
  intros uid regs reg H. unfold lastRegistration in H.
  apply find_some in H. destruct H as [Hin Heq].
  split; [now apply String.eqb_eq | now apply in_rev].
Qed.

Lemma lastRegistration_None :
  forall uid regs,
    lastRegistration uid regs = None -> ~ In uid (List.map reg_userId regs).
Proof.
  intros uid regs H Hin. unfold lastRegistration in H.
  apply in_map_iff in Hin. destruct Hin as (reg & Heq & Hin).
  apply in_rev in Hin.
  pose proof (find_none _ _ H reg Hin) as Hf. simpl in Hf.
  apply String.eqb_neq in Hf. contradiction.
Qed.

(** Step 6 keeps, for every user, the record of the last registration. *)
Lemma buildAthleteMap_last :
  forall JSON_parse String_trim regs m m',
    buildAthleteMap JSON_parse String_trim regs m = Normal m' ->
    forall uid,
      match lastRegistration uid regs with
      | Some reg =>
          exists a, map_get String.eqb uid m' = Some a
                    /\ builtFrom JSON_parse String_trim reg a
      | None => map_get String.eqb uid m' = map_get String.eqb uid m
      end.
Proof.
  intros P S regs. induction regs as [| reg regs IH]; intros m m' H uid.
  - simpl in H. injection H as <-. reflexivity.
  - simpl in H.
    destruct (parseAffiliateName P (reg_metadata reg)) as [aff | e] eqn:Haff;
      [| discriminate].
    simpl in H. specialize (IH _ _ H uid).
    rewrite lastRegistration_cons.
    destruct (lastRegistration uid regs) as [r |]; [exact IH |].
    rewrite IH, map_get_set.
    destruct (String.eqb (reg_userId reg) uid); [| reflexivity].
    eexists. split; [reflexivity |].
    unfold builtFrom. simpl. repeat split. exact Haff.
Qed.

Lemma buildAthleteMap_WellKeyed :
  forall JSON_parse String_trim regs m0,
    buildAthleteMap JSON_parse String_trim regs [] = Normal m0 -> WellKeyed m0.
Proof.
  intros P S regs m0 H.
  destruct (buildAthleteMap_fresh _ _ _ _ _ H (NoDup_nil _) (Forall_nil _))
    as [Hnd _].
  split; [exact Hnd |].
  rewrite Forall_forall. intros [k a] Hin. simpl.
  pose proof (In_map_get _ _ _ Hnd Hin) as Hget.
  pose proof (buildAthleteMap_last _ _ _ _ _ H k) as Hlast.
  destruct (lastRegistration k regs) as [reg |] eqn:Hreg.
  - destruct Hlast as (a' & Hget' & Hb & _).
    rewrite Hget in Hget'. injection Hget' as <-.
    rewrite Hb. now apply lastRegistration_userId in Hreg.
  - rewrite Hget in Hlast. discriminate.
Qed.

Lemma map_get_Some_key :
  forall (V : Type) (m : list (string * V)) k,
    In k (List.map fst m) -> exists v, map_get String.eqb k m = Some v.
Proof.
  intros V m k Hin.
  destruct (map_get String.eqb k m) as [v |] eqn:Hget; [eauto |].
  apply map_get_None in Hget. contradiction.
Qed.

Lemma computeResults_WellKeyed :
  forall localeCompare roundWeighted events allScores m,
    WellKeyed m ->
    WellKeyed (computeResults localeCompare roundWeighted events allScores m).
Proof.
  intros L R events scores m [Hnd Hkeys].
  assert (Hnd' : NoDup (List.map fst (computeResults L R events scores m))).
  { now rewrite computeResults_keys. }
  split; [exact Hnd' |].
  rewrite Forall_forall. intros [k a'] Hin. simpl.
  pose proof (In_map_get _ _ _ Hnd' Hin) as Hget'.
  destruct (map_get_Some_key _ m k) as [a Hget].
  { rewrite <- (computeResults_keys L R scores events m).
    apply in_map_iff. exists (k, a'). now split. }
  destruct (computeResults_athlete L R scores events m k a Hget)
    as (a'' & Hget'' & (Hid & _) & _).
  rewrite Hget' in Hget''. injection Hget'' as <-.
  rewrite Hid. rewrite Forall_forall in Hkeys.
  exact (Hkeys (k, a) (map_get_In _ _ _ Hget)).
Qed.

Lemma WellKeyed_userIds :
  forall m, WellKeyed m -> List.map a_userId (map_values m) = List.map fst m.
Proof.
  intros m [_ Hkeys]. unfold map_values. rewrite map_map.
  induction Hkeys as [| [k a] m Hk _ IH]; simpl; [reflexivity |].
  simpl in Hk. now rewrite Hk, IH.
Qed.

(** *** Gym groups *)

Lemma groupGyms_contents :
  forall m,
    Permutation (List.concat (List.map snd (groupGyms m)))
      (List.map a_userId (map_values m)).
Proof.
  intros m. unfold groupGyms.
  assert (H : forall l acc,
             Permutation
               (List.concat (List.map snd
                  (fold_left
                     (fun gymAthleteIds athlete =>
                        group_push sameValueZero (a_affiliateName athlete)
                          (a_userId athlete) gymAthleteIds)
                     l acc)))
               (List.concat (List.map snd acc) ++ List.map a_userId l)).
  { induction l as [| ath l IH]; intros acc; simpl.
    - rewrite app_nil_r. apply Permutation_refl.
    - eapply perm_trans; [apply IH |].
      eapply perm_trans; [apply Permutation_app_tail, group_push_contents |].
      rewrite <- app_assoc. apply Permutation_refl. }
  apply (H (map_values m) []).
Qed.

Lemma groupGyms_NoDup :
  forall m, WellKeyed m -> NoDup (List.concat (List.map snd (groupGyms m))).
Proof.
  intros m Hm.
  apply (Permutation_NoDup (Permutation_sym (groupGyms_contents m))).
  rewrite (WellKeyed_userIds m Hm). exact (proj1 Hm).
Qed.

(** The ids of a gym are distinct and known to the athlete map. *)
Lemma groupGyms_known :
  forall m name userIds,
    WellKeyed m -> In (name, userIds) (groupGyms m) ->
    NoDup userIds /\ forall uid, In uid userIds -> In uid (List.map fst m).
Proof.
  intros m name userIds Hm Hin.
  pose proof (groupGyms_NoDup m Hm) as Hnd.
  pose proof (groupGyms_contents m) as Hperm.
  rewrite (WellKeyed_userIds m Hm) in Hperm.
  apply in_split in Hin. destruct Hin as (g1 & g2 & Heq).
  rewrite Heq in Hnd, Hperm.
  rewrite map_app, concat_app in Hnd, Hperm. simpl in Hnd, Hperm.
  split.
  - apply NoDup_app_remove_l in Hnd. now apply NoDup_app_remove_r in Hnd.
  - intros uid Huid. apply (Permutation_in _ Hperm).
    apply in_or_app. right. apply in_or_app. now left.
Qed.

(** *** Division groups, with the division ids *)

Lemma GroupOk_weaken :
  forall pool pool' kd,
    (forall a, In a pool -> In a pool') -> GroupOk pool kd -> GroupOk pool' kd.
Proof.
  intros pool pool' kd Hsub [Hid Hall]. split; [exact Hid |].
  intros x Hx. destruct (Hall x Hx) as (ath & Hin & Heq & Hdiv).
  exists ath. repeat split; auto.
Qed.

Lemma addToDivision_ok :
  forall pool groups athlete,
    Forall (GroupOk pool) groups ->
    Forall (GroupOk (pool ++ [athlete])) (addToDivision groups athlete).
Proof.
  intros pool groups ath Hg.
  assert (Hsub : forall a, In a pool -> In a (pool ++ [ath])).
  { intros a Ha. apply in_or_app. now left. }
  induction Hg as [| [k0 d0] groups H0 Hg IH].
  - unfold addToDivision. simpl. rewrite String.eqb_refl. simpl.
    constructor; [| constructor]. split; [reflexivity |].
    simpl. intros x [<- | []]. exists ath. repeat split.
    apply in_or_app. right. now left.
  - rewrite addToDivision_cons.
    destruct (String.eqb_spec k0 (a_divisionId ath)) as [-> | Hne].
    + constructor.
      * destruct H0 as [Hid Hall]. split; [exact Hid |].
        simpl in *. intros x Hx. apply in_app_or in Hx.
        destruct Hx as [Hx | [<- | []]].
        -- destruct (Hall x Hx) as (a & Hin & Heq & Hdiv).
           exists a. repeat split; auto.
        -- exists ath. repeat split. apply in_or_app. right. now left.
      * eapply Forall_impl; [| exact Hg].
        intros kd. now apply GroupOk_weaken.
    + constructor; [| exact IH].
      now apply (GroupOk_weaken pool).
Qed.

Lemma groupDivisions_ok :
  forall m, Forall (GroupOk (map_values m)) (groupDivisions m).
Proof.
  intros m. unfold groupDivisions.
  assert (H : forall l pool acc,
             Forall (GroupOk pool) acc ->
             Forall (GroupOk (pool ++ l)) (fold_left addToDivision l acc)).
  { induction l as [| ath l IH]; intros pool acc Hacc; simpl.
    - now rewrite app_nil_r.
    - replace (pool ++ ath :: l) with ((pool ++ [ath]) ++ l)
        by (rewrite <- app_assoc; reflexivity).
      apply IH. now apply addToDivision_ok. }
  apply (H (map_values m) [] []). constructor.
Qed.

(** Every athlete of a division leaderboard is an athlete of the map,
    in the division of the record. *)
Lemma division_athlete_record :
  forall m d a,
    In d (map_values (buildDivisions m)) -> In a (div_athletes d) ->
    exists k athlete r,
      In (k, athlete) m
      /\ a = setAthleteRank r (toLeaderboardAthlete athlete)
      /\ a_divisionId athlete = div_id d.
Proof.
  intros m d a Hd Ha. unfold map_values, buildDivisions in Hd.
  rewrite map_map in Hd. apply in_map_iff in Hd.
  destruct Hd as ([kd d0] & <- & Hd0). simpl in Ha.
  apply rankByTotal_In in Ha. destruct Ha as (x & r & Hx & ->).
  apply Array_sort_In in Hx.
  pose proof (groupDivisions_ok m) as Hok. rewrite Forall_forall in Hok.
  destruct (Hok _ Hd0) as [Hid Hall]. simpl in Hid, Hall.
  destruct (Hall x Hx) as (ath & Hin & -> & Hdiv).
  unfold map_values in Hin. apply in_map_iff in Hin.
  destruct Hin as ([k ath'] & Heq & Hin). simpl in Heq. subst ath'.
  exists k, ath, r. repeat split; [exact Hin |]. simpl. congruence.
Qed.

Lemma lastRegistration_Some :
  forall uid regs,
    In uid (List.map reg_userId regs) -> exists reg, lastRegistration uid regs = Some reg.
Proof.
  intros uid regs Hin.
  destruct (lastRegistration uid regs) as [reg |] eqn:H; [eauto |].
  apply lastRegistration_None in H. contradiction.
Qed.

Lemma buildAthleteMap_keys :
  forall JSON_parse String_trim regs m0,
    buildAthleteMap JSON_parse String_trim regs [] = Normal m0 ->
    forall uid, In uid (List.map fst m0) <-> In uid (List.map reg_userId regs).
Proof.
  intros P S regs m0 H uid.
  pose proof (buildAthleteMap_last _ _ _ _ _ H uid) as Hlast.
  split; intros Hin.
  - destruct (lastRegistration uid regs) as [reg |] eqn:Hreg.
    + apply lastRegistration_userId in Hreg. destruct Hreg as [<- Hr].
      now apply in_map.
    + destruct (map_get_Some_key _ _ _ Hin) as [a Ha].
      rewrite Ha in Hlast. discriminate.
  - destruct (lastRegistration_Some _ _ Hin) as [reg Hreg].
    rewrite Hreg in Hlast. destruct Hlast as (a & Ha & _).
    apply map_get_In in Ha. apply in_map_iff. exists (uid, a). now split.
Qed.

Lemma divisions_userIds :
  forall m,
    Permutation
      (List.map la_userId
         (List.concat (List.map div_athletes (map_values (buildDivisions m)))))
      (List.map a_userId (map_values m)).
Proof.
  intros m.
  apply perm_trans with (List.map la_userId (divisionContents (groupDivisions m))).
  - unfold map_values, buildDivisions, divisionContents.
    induction (groupDivisions m) as [| [k d] g IH]; simpl; [apply perm_nil |].
    rewrite !map_app. apply Permutation_app; [| exact IH].
    rewrite rankByTotal_map by reflexivity.
    apply Permutation_map, Array_sort_perm.
  - eapply perm_trans; [apply Permutation_map, groupDivisions_contents |].
    rewrite map_map. apply Permutation_refl.
Qed.

Lemma buildAthleteMap_total :
  forall JSON_parse String_trim regs m,
    exists m', buildAthleteMap JSON_parse String_trim regs m = Normal m'.
Proof.
  intros P S regs. induction regs as [| reg regs IH]; intros m; simpl.
  - eauto.
  - destruct (parseAffiliateName_normal P (reg_metadata reg)) as [aff ->].
    simpl. apply IH.
Qed.

(** C10: step 6 always succeeds and keeps exactly one athlete record per
    user id of the registrations, the one built from the user's last
    registration.  In the computed leaderboard the user ids of the
    division leaderboards are pairwise distinct; each athlete carries
    the name and the affiliate name of the user's last registration and
    stands in the division of that registration; the gym leaderboard is
    built from id lists without repetition; and when the track has
    published events, every registered user is in a division
    leaderboard. *)
Theorem one_athlete_per_user :
  forall JSON_parse String_trim localeCompare roundWeighted db competitionId resp,
    getLeaderboard JSON_parse String_trim localeCompare roundWeighted db competitionId
    = Normal resp ->
    let regs := selectRegistrations db competitionId in
    (exists athleteMap0,
        buildAthleteMap JSON_parse String_trim regs [] = Normal athleteMap0
        /\ NoDup (List.map fst athleteMap0)
        /\ forall uid, In uid (List.map reg_userId regs) ->
             exists reg a,
               lastRegistration uid regs = Some reg
               /\ map_get String.eqb uid athleteMap0 = Some a
               /\ builtFrom JSON_parse String_trim reg a)
    /\ NoDup (List.map la_userId (allAthletes resp))
    /\ (forall d a,
           In d (divisions resp) -> In a (div_athletes d) ->
           exists reg,
             lastRegistration (la_userId a) regs = Some reg
             /\ la_name a = fullName String_trim reg
             /\ parseAffiliateName JSON_parse (reg_metadata reg)
                = Normal (la_affiliateName a)
             /\ div_id d = or_default (reg_divisionId reg) "open")
    /\ (exists athleteMap events,
           divisions resp = map_values (buildDivisions athleteMap)
           /\ gyms resp = buildGyms athleteMap events (buildDivisions athleteMap)
           /\ NoDup (List.concat (List.map snd (groupGyms athleteMap))))
    /\ (forall track,
           selectTrack db competitionId = Some track ->
           selectEvents db (track_id track) <> [] ->
           forall uid, In uid (List.map reg_userId regs) ->
                       In uid (List.map la_userId (allAthletes resp))).
Proof.
  intros P S L R db cid resp H regs.
  assert (Hstep6 :
            exists m0,
              buildAthleteMap P S regs [] = Normal m0
              /\ NoDup (List.map fst m0)
              /\ forall uid, In uid (List.map reg_userId regs) ->
                   exists reg a,
                     lastRegistration uid regs = Some reg
                     /\ map_get String.eqb uid m0 = Some a
                     /\ builtFrom P S reg a).
  { destruct (buildAthleteMap_total P S regs []) as [m0 Hm0].
    exists m0. split; [exact Hm0 |]. split.
    - exact (proj1 (buildAthleteMap_WellKeyed _ _ _ _ Hm0)).
    - intros uid Huid.
      destruct (lastRegistration_Some _ _ Huid) as [reg Hreg].
      pose proof (buildAthleteMap_last _ _ _ _ _ Hm0 uid) as Hlast.
      rewrite Hreg in Hlast. destruct Hlast as (a & Ha & Hb).
      exists reg, a. auto. }
  split; [exact Hstep6 |]. clear Hstep6.
  destruct (getLeaderboard_cases _ _ _ _ _ _ _ H)
    as [(Hdiv & Hgym & Hwhy)
       | (track & m0 & Htrack & Hev & _ & Hm0 & Hdiv & Hgym)].
  - unfold allAthletes. rewrite Hdiv, Hgym. simpl.
    split; [constructor |]. split; [intros d a [] |]. split.
    + exists [], []. repeat split. constructor.
    + intros track Htrack Hevents uid Huid.
      destruct Hwhy as [Hno | [(t & Ht & He) | Hregs]].
      * congruence.
      * rewrite Htrack in Ht. injection Ht as <-. contradiction.
      * unfold regs in Huid. rewrite Hregs in Huid. contradiction.
  - set (events := selectEvents db (track_id track)) in *.
    set (allScores := selectScores db (List.map ev_id events)
                        (List.map reg_userId (selectRegistrations db cid))) in *.
    set (m := computeResults L R events allScores m0) in *.
    pose proof (buildAthleteMap_WellKeyed _ _ _ _ Hm0) as Hwk0.
    pose proof (computeResults_WellKeyed L R events allScores m0 Hwk0) as Hwk.
    fold m in Hwk.
    assert (Hkeys : forall uid, In uid (List.map fst m)
                                <-> In uid (List.map reg_userId regs)).
    { intros uid. unfold m. rewrite computeResults_keys.
      apply (buildAthleteMap_keys _ _ _ _ Hm0). }
    pose proof (divisions_userIds m) as Hperm.
    rewrite (WellKeyed_userIds m Hwk) in Hperm.
    unfold allAthletes. rewrite Hdiv.
    split; [| split; [| split]].
    + apply (Permutation_NoDup (Permutation_sym Hperm)). exact (proj1 Hwk).
    + intros d a Hd Ha.
      destruct (division_athlete_record _ _ _ Hd Ha) as (k & ath & r & Hin & -> & Hd').
      pose proof (In_map_get _ _ _ (proj1 Hwk) Hin) as Hget.
      destruct (map_get_Some_key _ m0 k) as [a0 Hget0].
      { rewrite <- (computeResults_keys L R allScores events m0).
        apply in_map_iff. exists (k, ath). now split. }
      destruct (computeResults_athlete L R allScores events m0 k a0 Hget0)
        as (a' & Hget' & (Hid & Hname & Haff & Hdivid & _) & _).
      fold m in Hget'. rewrite Hget in Hget'. injection Hget' as <-.
      pose proof (buildAthleteMap_last _ _ _ _ _ Hm0 k) as Hlast.
      fold regs in Hlast.
      destruct (lastRegistration k regs) as [reg |] eqn:Hreg.
      2:{ rewrite Hget0 in Hlast. discriminate. }
      destruct Hlast as (a0' & Hget0' & Hb1 & Hb2 & Hb3 & Hb4 & _).
      rewrite Hget0 in Hget0'. injection Hget0' as <-.
      assert (Hk : a_userId ath = k).
      { rewrite Hid, Hb1. now apply lastRegistration_userId in Hreg. }
      exists reg. simpl. rewrite Hk. split; [exact Hreg |].
      repeat split; congruence.
    + exists m, events. split; [reflexivity |]. split; [exact Hgym |].
      now apply groupGyms_NoDup.
    + intros track' _ _ uid Huid.
      apply (Permutation_in _ (Permutation_sym Hperm)). now apply Hkeys.
Qed.

Lemma one_athlete_per_user_witness :
  let regs := selectRegistrations dbDuplicate "comp_1" in
  (exists athleteMap0,
      buildAthleteMap neverParses trimAscii regs [] = Normal athleteMap0
      /\ NoDup (List.map fst athleteMap0)
      /\ forall uid, In uid (List.map reg_userId regs) ->
           exists reg a,
             lastRegistration uid regs = Some reg
             /\ map_get String.eqb uid athleteMap0 = Some a
             /\ builtFrom neverParses trimAscii reg a)
  /\ NoDup (List.map la_userId (allAthletes duplicateResponse))
  /\ (forall d a,
         In d (divisions duplicateResponse) -> In a (div_athletes d) ->
         exists reg,
           lastRegistration (la_userId a) regs = Some reg
           /\ la_name a = fullName trimAscii reg
           /\ parseAffiliateName neverParses (reg_metadata reg)
              = Normal (la_affiliateName a)
           /\ div_id d = or_default (reg_divisionId reg) "open")
  /\ (exists athleteMap events,
         divisions duplicateResponse = map_values (buildDivisions athleteMap)
         /\ gyms duplicateResponse
            = buildGyms athleteMap events (buildDivisions athleteMap)
         /\ NoDup (List.concat (List.map snd (groupGyms athleteMap))))
  /\ (forall track,
         selectTrack dbDuplicate "comp_1" = Some track ->
         selectEvents dbDuplicate (track_id track) <> [] ->
         forall uid, In uid (List.map reg_userId regs) ->
                     In uid (List.map la_userId (allAthletes duplicateResponse))).
Proof.
  apply (one_athlete_per_user neverParses trimAscii compareCodeUnits roundExact
           dbDuplicate "comp_1" duplicateResponse).
  vm_compute. reflexivity.
Defined.

(* ------------------------------------------------------------------ *)
(** ** Gym athletes and their contributing totals *)
(* ------------------------------------------------------------------ *)

Lemma gym_origin :
  forall m events divisionGroups g,
    In g (buildGyms m events divisionGroups) ->
    exists name userIds r,
      In (name, userIds) (groupGyms m)
      /\ g = setGymRank r
               (buildGym m events (buildDivisionRankMap divisionGroups) (name, userIds)).
Proof.
  intros m events dg g Hg. unfold buildGyms in Hg.
  apply rankByTotal_In in Hg. destruct Hg as (x & r & Hx & ->).
  apply Array_sort_In in Hx. apply filter_In in Hx. destruct Hx as [Hx _].
  apply in_map_iff in Hx. destruct Hx as ([name userIds] & <- & Hin).
  exists name, userIds, r. split; [exact Hin | reflexivity].
Qed.

Lemma gymEventStep_fold :
  forall athlete contribEvents events acc,
    fold_left (gymEventStep athlete contribEvents) events acc
    = (fst acc
       + sum_Z (List.map ge_points
                  (filter ge_contributing
                     (List.map (gymEventOf athlete contribEvents) events))),
       snd acc ++ List.map (gymEventOf athlete contribEvents) events).
Proof.
  intros ath ce events. induction events as [| ev events IH]; intros [tot evs].
  - simpl. now rewrite Z.add_0_r, app_nil_r.
  - cbn [fold_left List.map]. rewrite IH.
    cbn [filter].
    assert (Hc : ge_contributing (gymEventOf ath ce ev) = set_has (ev_id ev) ce)
      by reflexivity.
    rewrite Hc. unfold gymEventStep. cbn [fst snd].
    change {| ge_eventId := ev_id ev;
              ge_eventName := ev_workoutName ev;
              ge_points := eventPoints ath ev;
              ge_contributing := set_has (ev_id ev) ce |}
      with (gymEventOf ath ce ev).
    rewrite <- app_assoc. cbn [app].
    destruct (set_has (ev_id ev) ce); [| reflexivity].
    f_equal. cbn [List.map]. unfold sum_Z. cbn [fold_right].
    change (ge_points (gymEventOf ath ce ev)) with (eventPoints ath ev). lia.
Qed.

Lemma buildEntry_events :
  forall m events drm cm uid,
    gae_events (buildEntry m events drm cm uid)
    = List.map (gymEventOf (getAthlete m uid) (contribOf cm uid)) events.
Proof.
  intros. unfold buildEntry. simpl. rewrite gymEventStep_fold. reflexivity.
Qed.

Lemma buildEntry_total :
  forall m events drm cm uid,
    gae_contributingTotal (buildEntry m events drm cm uid)
    = sum_Z (List.map ge_points
               (filter ge_contributing (gae_events (buildEntry m events drm cm uid)))).
Proof.
  intros. rewrite buildEntry_events. unfold buildEntry. simpl.
  rewrite gymEventStep_fold. reflexivity.
Qed.

(** The contributing total as a sum over the events. *)
Lemma buildEntry_total_events :
  forall m events drm cm uid,
    gae_contributingTotal (buildEntry m events drm cm uid)
    = sum_Z (List.map
               (fun ev => if marked cm uid (ev_id ev) then pointsOf m ev uid else 0)
               events).
Proof.
  intros m events drm cm uid. rewrite buildEntry_total, buildEntry_events.
  induction events as [| ev events IH]; simpl; [reflexivity |].
  unfold marked at 1.
  destruct (set_has (ev_id ev) (contribOf cm uid)); simpl; rewrite IH; reflexivity.
Qed.

(* ------------------------------------------------------------------ *)
(** ** Marking the contributors *)
(* ------------------------------------------------------------------ *)

Lemma set_has_add :
  forall x e s, set_has x (set_add e s) = set_has x s || String.eqb x e.
Proof.
  intros x e s. unfold set_add.
  destruct (set_has e s) eqn:He.
  - destruct (String.eqb_spec x e) as [-> | _].
    + rewrite He. reflexivity.
    + now rewrite orb_false_r.
  - unfold set_has. rewrite existsb_app. simpl. now rewrite orb_false_r.
Qed.

Lemma markContributing_marked :
  forall event st da uid eid,
    marked (fst (markContributing event st da)) uid eid
    = marked (fst st) uid eid
      || (String.eqb uid (fst da) && String.eqb eid (ev_id event)).
Proof.
  intros ev [cm total] [u p] uid eid. unfold markContributing, marked, contribOf.
  simpl.
  rewrite map_get_update.
  destruct (String.eqb_spec u uid) as [<- | Hne].
  - rewrite String.eqb_refl. simpl.
    destruct (map_get String.eqb u cm) as [s |] eqn:Hget.
    + rewrite Hget. simpl. apply set_has_add.
    + rewrite map_get_set, String.eqb_refl. simpl. apply orb_false_r.
  - assert (Hf : String.eqb uid u = false).
    { apply String.eqb_neq. congruence. }
    rewrite Hf. simpl. rewrite orb_false_r.
    destruct (map_get String.eqb u cm) as [s |] eqn:Hget; [reflexivity |].
    rewrite map_get_set.
    destruct (String.eqb_spec u uid); [contradiction | reflexivity].
Qed.

Lemma markContributing_total :
  forall event st da, snd (markContributing event st da) = snd st + snd da.
Proof.
  intros ev [cm total] da. reflexivity.
Qed.

Lemma marks_fold :
  forall event tops st,
    (forall uid eid,
        marked (fst (fold_left (markContributing event) tops st)) uid eid
        = marked (fst st) uid eid
          || (set_has uid (List.map fst tops) && String.eqb eid (ev_id event)))
    /\ snd (fold_left (markContributing event) tops st)
       = snd st + sum_Z (List.map snd tops).
Proof.
  intros ev tops. induction tops as [| da tops IH]; intros st; simpl.
  - split; [intros; now rewrite orb_false_r | lia].
  - destruct (IH (markContributing ev st da)) as [IH1 IH2]. split.
    + intros uid eid. rewrite IH1, markContributing_marked.
      rewrite <- orb_assoc. f_equal.
      destruct (String.eqb uid (fst da)), (set_has uid (List.map fst tops)),
        (String.eqb eid (ev_id ev)); reflexivity.
    + rewrite IH2, markContributing_total. lia.
Qed.

Lemma fold_left_concat_map :
  forall (A B C : Type) (step : C -> B -> C) (h : A -> list B) (l : list A) (c : C),
    fold_left (fun c' x => fold_left step (h x) c') l c
    = fold_left step (List.concat (List.map h l)) c.
Proof.
  intros A B C step h l. induction l as [| x l IH]; intros c; simpl; [reflexivity |].
  now rewrite fold_left_app, IH.
Qed.

Lemma contributeEvent_marks :
  forall m userIds st event,
    contributeEvent m userIds st event
    = fold_left (markContributing event) (topPairs m event userIds) st.
Proof.
  intros m userIds st ev. unfold contributeEvent, topPairs, pickTop.
  apply (fold_left_concat_map _ _ _ (markContributing ev)
           (fun g : string * list (string * Z) =>
              firstn TOP_PER_DIVISION (Array_sort byPointsDesc (snd g)))).
Qed.

Lemma contributions_fold :
  forall m userIds events st,
    (forall uid eid,
        marked (fst (fold_left (contributeEvent m userIds) events st)) uid eid
        = marked (fst st) uid eid
          || existsb (fun ev => String.eqb eid (ev_id ev) && inTop m ev userIds uid)
               events)
    /\ snd (fold_left (contributeEvent m userIds) events st)
       = snd st
         + sum_Z (List.map (fun ev => sum_Z (List.map snd (topPairs m ev userIds)))
                    events).
Proof.
  intros m userIds events. induction events as [| ev events IH]; intros st; simpl.
  - split; [intros; now rewrite orb_false_r | lia].
  - destruct (IH (contributeEvent m userIds st ev)) as [IH1 IH2].
    rewrite contributeEvent_marks in IH1, IH2.
    destruct (marks_fold ev (topPairs m ev userIds) st) as [M1 M2].
    rewrite contributeEvent_marks. split.
    + intros uid eid. rewrite IH1, M1. unfold inTop at 2.
      rewrite <- orb_assoc. f_equal. f_equal. apply andb_comm.
    + rewrite IH2, M2. lia.
Qed.

(** The gym builder reads an event through its id only. *)
Lemma eventPoints_id :
  forall athlete ev ev', ev_id ev = ev_id ev' ->
    eventPoints athlete ev = eventPoints athlete ev'.
Proof.
  intros ath ev ev' H. unfold eventPoints. now rewrite H.
Qed.

Lemma groupByDivision_id :
  forall m ev ev' userIds, ev_id ev = ev_id ev' ->
    groupByDivision m ev userIds = groupByDivision m ev' userIds.
Proof.
  intros m ev ev' userIds H. unfold groupByDivision.
  generalize (@nil (string * list (string * Z))).
  induction userIds as [| uid userIds IH]; intros acc; simpl; [reflexivity |].
  rewrite (eventPoints_id _ ev ev' H). apply IH.
Qed.

Lemma inTop_id :
  forall m ev ev' userIds uid, ev_id ev = ev_id ev' ->
    inTop m ev userIds uid = inTop m ev' userIds uid.
Proof.
  intros m ev ev' userIds uid H. unfold inTop, topPairs.
  now rewrite (groupByDivision_id m ev ev' userIds H).
Qed.

(** After all the events, a user is marked for an event exactly when
    the user was among the picked athletes of that event. *)
Lemma marked_inTop :
  forall m userIds events ev uid,
    In ev events ->
    marked (fst (fold_left (contributeEvent m userIds) events ([], 0))) uid (ev_id ev)
    = inTop m ev userIds uid.
Proof.
  intros m userIds events ev uid Hin.
  destruct (contributions_fold m userIds events ([], 0)) as [H _].
  rewrite H. unfold marked at 1. simpl.
  destruct (inTop m ev userIds uid) eqn:Htop.
  - apply existsb_exists. exists ev. split; [exact Hin |].
    now rewrite String.eqb_refl, Htop.
  - destruct (existsb _ events) eqn:Hex; [| reflexivity].
    apply existsb_exists in Hex. destruct Hex as (ev' & _ & Hev').
    apply andb_prop in Hev'. destruct Hev' as [Hid Htop'].
    apply String.eqb_eq in Hid.
    rewrite (inTop_id m ev ev' userIds uid Hid) in Htop. congruence.
Qed.


(* ------------------------------------------------------------------ *)
(** ** The picked athletes of one event *)
(* ------------------------------------------------------------------ *)

Lemma groupByDivision_contents :
  forall m ev userIds,
    Permutation (List.concat (List.map snd (groupByDivision m ev userIds)))
      (List.map (fun uid => (uid, pointsOf m ev uid)) userIds).
Proof.
  intros m ev userIds. unfold groupByDivision.
  assert (H : forall l acc,
             Permutation
               (List.concat (List.map snd
                  (fold_left
                     (fun byDiv uid =>
                        let athlete := getAthlete m uid in
                        group_push String.eqb (a_divisionLabel athlete)
                          (uid, eventPoints athlete ev) byDiv)
                     l acc)))
               (List.concat (List.map snd acc)
                ++ List.map (fun uid => (uid, pointsOf m ev uid)) l)).
  { induction l as [| uid l IH]; intros acc; simpl.
    - rewrite app_nil_r. apply Permutation_refl.
    - eapply perm_trans; [apply IH |].
      eapply perm_trans; [apply Permutation_app_tail, group_push_contents |].
      rewrite <- app_assoc. apply Permutation_refl. }
  apply (H userIds []).
Qed.

Lemma concat_split_perm :
  forall (A B : Type) (f g h : A -> list B) (l : list A),
    (forall x, Permutation (f x ++ g x) (h x)) ->
    Permutation (List.concat (List.map f l) ++ List.concat (List.map g l))
      (List.concat (List.map h l)).
Proof.
  intros A B f g h l H. induction l as [| x l IH]; simpl; [apply perm_nil |].
  apply perm_trans with ((f x ++ g x) ++ (List.concat (List.map f l)
                                          ++ List.concat (List.map g l))).
  - rewrite <- !app_assoc. apply Permutation_app_head.
    rewrite !app_assoc. apply Permutation_app_tail. apply Permutation_app_comm.
  - apply Permutation_app; [apply H | exact IH].
Qed.

Lemma top_rest_perm :
  forall m ev userIds,
    Permutation (topPairs m ev userIds ++ restPairs m ev userIds)
      (List.map (fun uid => (uid, pointsOf m ev uid)) userIds).
Proof.
  intros m ev userIds.
  eapply perm_trans; [| apply groupByDivision_contents].
  unfold topPairs, restPairs.
  apply (concat_split_perm _ _
           (fun g : string * list (string * Z) =>
              firstn TOP_PER_DIVISION (Array_sort byPointsDesc (snd g)))
           (fun g : string * list (string * Z) =>
              skipn TOP_PER_DIVISION (Array_sort byPointsDesc (snd g)))
           snd).
  intros [k g]. cbn [snd]. rewrite firstn_skipn. apply Array_sort_perm.
Qed.

Lemma NoDup_app_apart :
  forall (A : Type) (l1 l2 : list A) (a : A),
    NoDup (l1 ++ l2) -> In a l1 -> In a l2 -> False.
Proof.
  intros A l1 l2 a. induction l1 as [| x l1 IH]; intros Hnd H1 H2; [contradiction |].
  simpl in Hnd. inversion Hnd as [| ? ? Hnotin Hnd']; subst.
  destruct H1 as [-> | H1].
  - apply Hnotin. apply in_or_app. now right.
  - now apply IH.
Qed.

(** In a list with distinct keys, the elements whose key occurs in a
    prefix are the elements of the prefix. *)
Lemma filter_key_prefix :
  forall (A : Type) (key : A -> string) (T R : list A),
    NoDup (List.map key (T ++ R)) ->
    filter (fun x => set_has (key x) (List.map key T)) (T ++ R) = T.
Proof.
  intros A key T R Hnd.
  assert (HT : forall l, (forall x, In x l -> In x T) ->
                 filter (fun x => set_has (key x) (List.map key T)) l = l).
  { induction l as [| x l IH]; intros Hsub; simpl; [reflexivity |].
    assert (Hx : set_has (key x) (List.map key T) = true).
    { apply existsb_exists. exists (key x). split; [| apply String.eqb_refl].
      apply in_map. apply Hsub. now left. }
    rewrite Hx, IH; [reflexivity |]. intros y Hy. apply Hsub. now right. }
  assert (HR : forall l, (forall x, In x l -> In x R) ->
                 filter (fun x => set_has (key x) (List.map key T)) l = []).
  { induction l as [| x l IH]; intros Hsub; simpl; [reflexivity |].
    destruct (set_has (key x) (List.map key T)) eqn:Hx.
    - exfalso. apply existsb_exists in Hx. destruct Hx as (k & Hk & Heq).
      apply String.eqb_eq in Heq. subst k.
      rewrite map_app in Hnd.
      apply (NoDup_app_apart _ _ _ (key x) Hnd Hk).
      apply in_map. apply Hsub. now left.
    - apply IH. intros y Hy. apply Hsub. now right. }
  rewrite filter_app, (HT T (fun x H => H)), (HR R (fun x H => H)).
  apply app_nil_r.
Qed.

(* ------------------------------------------------------------------ *)
(** ** Gym totals *)
(* ------------------------------------------------------------------ *)

Lemma sum_if_filter :
  forall (A : Type) (p : A -> bool) (f : A -> Z) (l : list A),
    sum_Z (List.map (fun x => if p x then f x else 0) l)
    = sum_Z (List.map f (filter p l)).
Proof.
  intros A p f l. induction l as [| x l IH]; simpl; [reflexivity |].
  destruct (p x); simpl; lia.
Qed.

Lemma sum_Z_add :
  forall (A : Type) (f g : A -> Z) (l : list A),
    sum_Z (List.map (fun x => f x + g x) l)
    = sum_Z (List.map f l) + sum_Z (List.map g l).
Proof.
  intros A f g l. induction l as [| x l IH]; simpl; lia.
Qed.

Lemma sum_Z_zero :
  forall (A : Type) (l : list A), sum_Z (List.map (fun _ => 0) l) = 0.
Proof.
  intros A l. induction l as [| x l IH]; simpl; lia.
Qed.

Lemma sum_Z_swap :
  forall (A B : Type) (F : A -> B -> Z) (l1 : list A) (l2 : list B),
    sum_Z (List.map (fun x => sum_Z (List.map (fun y => F x y) l2)) l1)
    = sum_Z (List.map (fun y => sum_Z (List.map (fun x => F x y) l1)) l2).
Proof.
  intros A B F l1 l2. induction l1 as [| x l1 IH]; simpl.
  - now rewrite sum_Z_zero.
  - rewrite IH, <- sum_Z_add. reflexivity.
Qed.

Lemma sum_Z_ext_in :
  forall (A : Type) (f g : A -> Z) (l : list A),
    (forall x, In x l -> f x = g x) ->
    sum_Z (List.map f l) = sum_Z (List.map g l).
Proof.
  intros A f g l H. f_equal. now apply map_ext_in.
Qed.

(** The points picked for an event, as a sum over the gym's athletes. *)
Lemma top_sum :
  forall m ev userIds,
    NoDup userIds ->
    sum_Z (List.map snd (topPairs m ev userIds))
    = sum_Z (List.map
               (fun uid => if inTop m ev userIds uid then pointsOf m ev uid else 0)
               userIds).
Proof.
  intros m ev userIds Hnd.
  pose proof (top_rest_perm m ev userIds) as Hperm.
  assert (Hkeys : NoDup (List.map fst (topPairs m ev userIds ++ restPairs m ev userIds))).
  { apply (Permutation_NoDup (l := userIds)); [| exact Hnd].
    apply Permutation_sym.
    eapply perm_trans; [apply Permutation_map, Hperm |].
    rewrite map_map. simpl. rewrite map_id. apply Permutation_refl. }
  rewrite <- (filter_key_prefix _ fst _ _ Hkeys) at 1.
  rewrite <- sum_if_filter.
  rewrite (sum_Z_perm _ _ (Permutation_map _ Hperm)).
  rewrite map_map. reflexivity.
Qed.

Lemma gym_total_score :
  forall m events drm userIds,
    NoDup userIds ->
    let st := fold_left (contributeEvent m userIds) events ([], 0) in
    snd st
    = sum_Z (List.map gae_contributingTotal
               (List.map (buildEntry m events drm (fst st)) userIds)).
Proof.
  intros m events drm userIds Hnd st.
  destruct (contributions_fold m userIds events ([], 0)) as [_ Htotal].
  fold st in Htotal. rewrite Htotal. simpl.
  rewrite map_map.
  rewrite (sum_Z_ext_in _ _
             (fun uid =>
                sum_Z (List.map
                         (fun ev => if inTop m ev userIds uid
                                    then pointsOf m ev uid else 0)
                         events))
             userIds).
  - rewrite (sum_Z_swap _ _
               (fun uid ev => if inTop m ev userIds uid then pointsOf m ev uid else 0)).
    apply sum_Z_ext_in. intros ev _. now apply top_sum.
  - intros uid _. rewrite buildEntry_total_events.
    apply sum_Z_ext_in. intros ev Hev. unfold st.
    now rewrite marked_inTop.
Qed.

(** C5: in every gym of the output, the [contributingTotal] of each
    athlete entry is the sum of the entry's [points] over the events
    marked [contributing], and the gym's [totalScore] is the sum of the
    [contributingTotal]s of its athlete entries. *)
Theorem gym_totals :
  forall JSON_parse String_trim localeCompare roundWeighted db competitionId resp,
    getLeaderboard JSON_parse String_trim localeCompare roundWeighted db competitionId
    = Normal resp ->
    forall g, In g (gyms resp) ->
      (forall a, In a (gym_athletes g) ->
         gae_contributingTotal a
         = sum_Z (List.map ge_points (filter ge_contributing (gae_events a))))
      /\ gym_totalScore g = sum_Z (List.map gae_contributingTotal (gym_athletes g)).
Proof.
  intros P S L R db cid resp H g Hg.
  destruct (getLeaderboard_cases _ _ _ _ _ _ _ H)
    as [(_ & Hgym & _) | (track & m0 & _ & _ & _ & Hm0 & _ & Hgym)].
  { rewrite Hgym in Hg. contradiction. }
  rewrite Hgym in Hg.
  set (events := selectEvents db (track_id track)) in *.
  set (allScores := selectScores db (List.map ev_id events)
                      (List.map reg_userId (selectRegistrations db cid))) in *.
  set (m := computeResults L R events allScores m0) in *.
  assert (Hwk : WellKeyed m).
  { apply computeResults_WellKeyed. eapply buildAthleteMap_WellKeyed. exact Hm0. }
  destruct (gym_origin _ _ _ _ Hg) as (name & userIds & r & Hin & ->).
  destruct (groupGyms_known m name userIds Hwk Hin) as [Hnd _].
  simpl. split.
  - intros a Ha. apply Array_sort_In in Ha. apply in_map_iff in Ha.
    destruct Ha as (uid & <- & _). apply buildEntry_total.
  - rewrite (sum_Z_perm _ _ (Permutation_map _ (Array_sort_perm _ _))).
    apply (gym_total_score m events _ userIds Hnd).
Qed.

Lemma gym_totals_witness :
  exists g,
    In g (gyms sampleResponse)
    /\ (forall a, In a (gym_athletes g) ->
          gae_contributingTotal a
          = sum_Z (List.map ge_points (filter ge_contributing (gae_events a))))
    /\ gym_totalScore g = sum_Z (List.map gae_contributingTotal (gym_athletes g)).
Proof.
  eexists. split; [left; reflexivity |].
  apply (gym_totals neverParses trimAscii compareCodeUnits roundExact
           dbSample "comp_1" sampleResponse).
  - vm_compute. reflexivity.
  - left. reflexivity.
Defined.

(* ------------------------------------------------------------------ *)
(** ** Groups by division label *)
(* ------------------------------------------------------------------ *)

Section GroupFold.
Context {X Y : Type}.
Variable key : X -> string.
Variable val : X -> Y.

Lemma group_push_get :
  forall k k' (y : Y) (acc : list (string * list Y)),
    map_get String.eqb k (group_push String.eqb k' y acc)
    = if String.eqb k' k
      then Some (match map_get String.eqb k' acc with Some g => g | None => [] end
                 ++ [y])
      else map_get String.eqb k acc.
Proof.
  intros. unfold group_push. apply map_get_set.
Qed.

Lemma pushAll_get :
  forall l acc k,
    map_get String.eqb k (pushAll key val l acc)
    = let extra := List.map val (filter (fun x => String.eqb (key x) k) l) in
      match map_get String.eqb k acc with
      | Some g => Some (g ++ extra)
      | None => match extra with [] => None | _ => Some extra end
      end.
Proof.
  unfold pushAll.
  induction l as [| x l IH]; intros acc k; simpl.
  - destruct (map_get String.eqb k acc); [now rewrite app_nil_r | reflexivity].
  - rewrite IH, group_push_get.
    destruct (String.eqb_spec (key x) k) as [-> | Hne]; simpl.
    + destruct (map_get String.eqb k acc).
      * now rewrite <- app_assoc.
      * reflexivity.
    + reflexivity.
Qed.

Lemma pushAll_keys_NoDup :
  forall l acc, NoDup (List.map fst acc) -> NoDup (List.map fst (pushAll key val l acc)).
Proof.
  unfold pushAll.
  induction l as [| x l IH]; intros acc Hnd; simpl; [exact Hnd |].
  apply IH. unfold group_push. now apply map_set_keys_NoDup.
Qed.

(** A group holds the values of the elements with its key, in order. *)
Lemma pushAll_group :
  forall l k g,
    In (k, g) (pushAll key val l []) ->
    g = List.map val (filter (fun x => String.eqb (key x) k) l).
Proof.
  intros l k g Hin.
  apply In_map_get in Hin; [| apply pushAll_keys_NoDup; constructor].
  rewrite pushAll_get in Hin. simpl in Hin.
  destruct (List.map val (filter (fun x => String.eqb (key x) k) l));
    [discriminate | now injection Hin].
Qed.

Lemma pushAll_group_In :
  forall l k,
    List.map val (filter (fun x => String.eqb (key x) k) l) <> [] ->
    In (k, List.map val (filter (fun x => String.eqb (key x) k) l))
      (pushAll key val l []).
Proof.
  intros l k Hne. apply map_get_In. rewrite pushAll_get. simpl.
  destruct (List.map val (filter (fun x => String.eqb (key x) k) l));
    [contradiction | reflexivity].
Qed.
End GroupFold.

Lemma groupByDivision_pushAll :
  forall m ev userIds,
    groupByDivision m ev userIds
    = pushAll (labelOf m) (fun uid => (uid, pointsOf m ev uid)) userIds [].
Proof. reflexivity. Qed.

Lemma groupByDivision_group :
  forall m ev userIds k g,
    In (k, g) (groupByDivision m ev userIds) -> g = groupOf m ev userIds k.
Proof.
  intros m ev userIds k g Hin. rewrite groupByDivision_pushAll in Hin.
  apply pushAll_group in Hin. exact Hin.
Qed.

Lemma groupByDivision_group_In :
  forall m ev userIds k,
    groupOf m ev userIds k <> [] ->
    In (k, groupOf m ev userIds k) (groupByDivision m ev userIds).
Proof.
  intros m ev userIds k Hne. rewrite groupByDivision_pushAll.
  now apply pushAll_group_In.
Qed.

Lemma groupOf_In :
  forall m ev userIds k uid p,
    In (uid, p) (groupOf m ev userIds k) <->
    In uid userIds /\ labelOf m uid = k /\ p = pointsOf m ev uid.
Proof.
  intros m ev userIds k uid p. unfold groupOf, membersOf.
  rewrite in_map_iff. split.
  - intros (u & Heq & Hin). injection Heq as -> <-.
    apply filter_In in Hin. destruct Hin as [Hin Hl].
    apply String.eqb_eq in Hl. auto.
  - intros (Hin & Hl & ->). exists uid. split; [reflexivity |].
    apply filter_In. split; [exact Hin | now apply String.eqb_eq].
Qed.

Lemma topOf_In_group :
  forall m ev userIds k x, In x (topOf m ev userIds k) -> In x (groupOf m ev userIds k).
Proof.
  intros m ev userIds k x H. unfold topOf in H.
  apply Array_sort_In with (cmp := byPointsDesc).
  rewrite <- (firstn_skipn TOP_PER_DIVISION). apply in_or_app. now left.
Qed.

(** A user is picked for an event exactly when the user is among the
    first six of the user's own division. *)
Lemma inTop_label :
  forall m ev userIds uid,
    inTop m ev userIds uid
    = set_has uid (List.map fst (topOf m ev userIds (labelOf m uid))).
Proof.
  intros m ev userIds uid.
  destruct (set_has uid (List.map fst (topOf m ev userIds (labelOf m uid)))) eqn:Hd.
  - apply existsb_exists in Hd. destruct Hd as (u & Hu & Heq).
    apply String.eqb_eq in Heq. subst u.
    apply existsb_exists. exists uid. split; [| apply String.eqb_refl].
    apply in_map_iff in Hu. destruct Hu as ([u p] & Hfst & Hin). simpl in Hfst. subst u.
    apply in_map_iff. exists (uid, p). split; [reflexivity |].
    unfold topPairs. apply in_concat.
    exists (topOf m ev userIds (labelOf m uid)). split; [| exact Hin].
    apply in_map_iff. exists (labelOf m uid, groupOf m ev userIds (labelOf m uid)).
    split; [reflexivity |].
    apply groupByDivision_group_In. intros Hnil.
    apply topOf_In_group in Hin. rewrite Hnil in Hin. contradiction.
  - destruct (inTop m ev userIds uid) eqn:Htop; [| reflexivity].
    exfalso. apply existsb_exists in Htop. destruct Htop as (u & Hu & Heq).
    apply String.eqb_eq in Heq. subst u.
    apply in_map_iff in Hu. destruct Hu as ([u p] & Hfst & Hin). simpl in Hfst. subst u.
    unfold topPairs in Hin. apply in_concat in Hin.
    destruct Hin as (t & Ht & Hin). apply in_map_iff in Ht.
    destruct Ht as ([k g] & <- & Hg). cbn [snd] in Hin.
    pose proof (groupByDivision_group _ _ _ _ _ Hg) as ->.
    fold (topOf m ev userIds k) in Hin.
    assert (Hk : labelOf m uid = k).
    { apply topOf_In_group in Hin. apply groupOf_In in Hin. tauto. }
    subst k.
    assert (Ht : set_has uid (List.map fst (topOf m ev userIds (labelOf m uid))) = true).
    { apply existsb_exists. exists uid. split; [| apply String.eqb_refl].
      apply in_map_iff. exists (uid, p). split; [reflexivity | exact Hin]. }
    congruence.
Qed.

(* ------------------------------------------------------------------ *)
(** ** The six contributors of a division *)
(* ------------------------------------------------------------------ *)

Lemma filter_andb :
  forall (A : Type) (p q : A -> bool) (l : list A),
    filter (fun x => p x && q x) l = filter q (filter p l).
Proof.
  intros A p q l. induction l as [| x l IH]; simpl; [reflexivity |].
  destruct (p x); simpl; [destruct (q x) |]; now rewrite IH.
Qed.

Lemma groupOf_userIds :
  forall m ev userIds k,
    List.map fst (groupOf m ev userIds k) = membersOf m userIds k.
Proof.
  intros. unfold groupOf. rewrite map_map. simpl. apply map_id.
Qed.

(** Among the athletes of a division label, the picked ones number
    [min 6 n]. *)
Lemma picked_count :
  forall m ev userIds k,
    NoDup userIds ->
    List.length
      (filter (fun uid => String.eqb (labelOf m uid) k && inTop m ev userIds uid) userIds)
    = Nat.min TOP_PER_DIVISION (List.length (membersOf m userIds k)).
Proof.
  intros m ev userIds k Hnd.
  rewrite filter_andb. fold (membersOf m userIds k).
  set (sorted := Array_sort byPointsDesc (groupOf m ev userIds k)).
  set (T := List.map fst (firstn TOP_PER_DIVISION sorted)).
  set (R := List.map fst (skipn TOP_PER_DIVISION sorted)).
  assert (Hperm : Permutation (membersOf m userIds k) (T ++ R)).
  { unfold T, R. rewrite <- map_app, firstn_skipn.
    rewrite <- (groupOf_userIds m ev userIds k).
    apply Permutation_map, Permutation_sym, Array_sort_perm. }
  assert (Hmem : NoDup (membersOf m userIds k)).
  { unfold membersOf. now apply NoDup_filter. }
  rewrite (filter_ext_in (fun uid => inTop m ev userIds uid)
             (fun uid => set_has ((fun x : string => x) uid)
                           (List.map (fun x : string => x) T))).
  - rewrite (filter_length_perm _ _ _ _ Hperm).
    rewrite filter_key_prefix.
    + unfold T. rewrite length_map, length_firstn. unfold sorted.
      rewrite Array_sort_length. unfold groupOf. now rewrite length_map.
    + rewrite map_id. apply (Permutation_NoDup Hperm Hmem).
  - intros uid Huid. rewrite map_id, inTop_label.
    unfold membersOf in Huid. apply filter_In in Huid. destruct Huid as [_ Hl].
    apply String.eqb_eq in Hl. rewrite Hl. reflexivity.
Qed.

(** *** The entries of a gym and the users behind them *)

Lemma existsb_map_list :
  forall (A B : Type) (p : B -> bool) (h : A -> B) (l : list A),
    existsb p (List.map h l) = existsb (fun x => p (h x)) l.
Proof.
  intros A B p h l. induction l as [| x l IH]; simpl; [reflexivity |].
  now rewrite IH.
Qed.

Lemma buildEntry_contributes :
  forall m events drm cm uid ev,
    In ev events ->
    contributesIn (ev_id ev) (buildEntry m events drm cm uid) = marked cm uid (ev_id ev).
Proof.
  intros m events drm cm uid ev Hin. unfold contributesIn.
  rewrite buildEntry_events, existsb_map_list. simpl. unfold marked.
  destruct (set_has (ev_id ev) (contribOf cm uid)) eqn:Hm.
  - apply existsb_exists. exists ev. split; [exact Hin |].
    now rewrite String.eqb_refl, Hm.
  - destruct (existsb _ events) eqn:Hex; [| reflexivity].
    apply existsb_exists in Hex. destruct Hex as (ev' & _ & H').
    apply andb_prop in H'. destruct H' as [Hid Hc].
    apply String.eqb_eq in Hid. rewrite Hid in Hc. congruence.
Qed.

Lemma buildEntry_points :
  forall m events drm cm uid ev,
    In ev events ->
    entryPoints (ev_id ev) (buildEntry m events drm cm uid) = pointsOf m ev uid.
Proof.
  intros m events drm cm uid ev Hin. unfold entryPoints.
  rewrite buildEntry_events. unfold pointsOf.
  induction events as [| ev' events IH]; [contradiction |].
  simpl. destruct (String.eqb_spec (ev_id ev') (ev_id ev)) as [Heq | Hne].
  - simpl. now apply eventPoints_id.
  - destruct Hin as [-> | Hin]; [contradiction | now apply IH].
Qed.

Lemma buildEntry_division :
  forall m events drm cm uid,
    gae_division (buildEntry m events drm cm uid) = labelOf m uid.
Proof. reflexivity. Qed.

Lemma StronglySorted_app_order :
  forall (A : Type) (R : A -> A -> Prop) (l1 l2 : list A) x y,
    StronglySorted R (l1 ++ l2) -> In x l1 -> In y l2 -> R x y.
Proof.
  intros A R l1 l2 x y. induction l1 as [| z l1 IH]; intros Hs Hx Hy; [contradiction |].
  simpl in Hs. inversion Hs as [| ? ? Hs' Hall]; subst.
  destruct Hx as [-> | Hx].
  - rewrite Forall_forall in Hall. apply Hall. apply in_or_app. now right.
  - now apply IH.
Qed.

(** A picked athlete has at least the points of every athlete of the
    same division label that was not picked. *)
Lemma picked_order :
  forall m ev userIds ua ub,
    In ua userIds -> In ub userIds ->
    labelOf m ua = labelOf m ub ->
    inTop m ev userIds ua = true -> inTop m ev userIds ub = false ->
    pointsOf m ev ub <= pointsOf m ev ua.
Proof.
  intros m ev userIds ua ub Ha Hb Hl Hta Htb.
  rewrite inTop_label in Hta, Htb. rewrite <- Hl in Htb.
  set (k := labelOf m ua) in *.
  set (sorted := Array_sort byPointsDesc (groupOf m ev userIds k)).
  apply existsb_exists in Hta. destruct Hta as (u & Hu & Heq).
  apply String.eqb_eq in Heq. subst u.
  apply in_map_iff in Hu. destruct Hu as ([u pa] & Hfst & Hina). simpl in Hfst. subst u.
  assert (Hpa : pa = pointsOf m ev ua).
  { apply topOf_In_group in Hina. apply groupOf_In in Hina. tauto. }
  subst pa.
  assert (Hinb : In (ub, pointsOf m ev ub) (skipn TOP_PER_DIVISION sorted)).
  { assert (Hg : In (ub, pointsOf m ev ub) sorted).
    { apply Array_sort_In. apply groupOf_In. repeat split; [exact Hb | now symmetry]. }
    rewrite <- (firstn_skipn TOP_PER_DIVISION sorted) in Hg.
    apply in_app_or in Hg. destruct Hg as [Hg | Hg]; [| exact Hg].
    exfalso.
    assert (Ht : set_has ub (List.map fst (topOf m ev userIds k)) = true).
    { apply existsb_exists. exists ub. split; [| apply String.eqb_refl].
      apply in_map_iff. exists (ub, pointsOf m ev ub). split; [reflexivity | exact Hg]. }
    congruence. }
  pose proof (Array_sort_descending byPointsDesc snd (fun a b => eq_refl)
                (groupOf m ev userIds k)) as Hs.
  fold sorted in Hs. rewrite <- (firstn_skipn TOP_PER_DIVISION sorted) in Hs.
  exact (StronglySorted_app_order _ _ _ _ _ _ Hs Hina Hinb).
Qed.

(** C4, as amended: for every gym of the output, every published event
    and every division label (the [division] of the gym's athlete
    entries), the gym's athletes with that label that are marked
    contributing for the event number [min 6 n], where [n] is the
    number of the gym's athletes with that label, so never more than 6;
    and each of them has at least the event points of every athlete of
    the gym with that label that is not marked. *)
Theorem top_six_contribute :
  forall JSON_parse String_trim localeCompare roundWeighted db competitionId resp track,
    getLeaderboard JSON_parse String_trim localeCompare roundWeighted db competitionId
    = Normal resp ->
    selectTrack db competitionId = Some track ->
    forall g ev division,
      In g (gyms resp) -> In ev (selectEvents db (track_id track)) ->
      let members :=
        filter (fun a => String.eqb (gae_division a) division) (gym_athletes g) in
      let contributing := filter (contributesIn (ev_id ev)) members in
      List.length contributing = Nat.min TOP_PER_DIVISION (List.length members)
      /\ (List.length contributing <= 6)%nat
      /\ forall a b,
           In a contributing -> In b members ->
           contributesIn (ev_id ev) b = false ->
           entryPoints (ev_id ev) b <= entryPoints (ev_id ev) a.
Proof.
  intros P S L R db cid resp track H Htrack g ev d Hg Hev.
  destruct (getLeaderboard_cases _ _ _ _ _ _ _ H)
    as [(_ & Hgym & _) | (track' & m0 & Htrack' & _ & _ & Hm0 & _ & Hgym)].
  { rewrite Hgym in Hg. contradiction. }
  rewrite Htrack in Htrack'. injection Htrack' as <-.
  rewrite Hgym in Hg.
  set (events := selectEvents db (track_id track)) in *.
  set (allScores := selectScores db (List.map ev_id events)
                      (List.map reg_userId (selectRegistrations db cid))) in *.
  set (m := computeResults L R events allScores m0) in *.
  assert (Hwk : WellKeyed m).
  { apply computeResults_WellKeyed. eapply buildAthleteMap_WellKeyed. exact Hm0. }
  destruct (gym_origin _ _ _ _ Hg) as (name & userIds & r & Hin & ->).
  destruct (groupGyms_known m name userIds Hwk Hin) as [Hnd _].
  cbn [gym_athletes setGymRank buildGym].
  set (cm := fst (fold_left (contributeEvent m userIds) events ([], 0))).
  set (drm := buildDivisionRankMap (buildDivisions m)).
  set (entry := buildEntry m events drm cm).
  set (sorted := Array_sort byContributingTotalDesc (List.map entry userIds)).
  assert (Hc : forall uid, contributesIn (ev_id ev) (entry uid) = inTop m ev userIds uid).
  { intros uid. unfold entry. rewrite buildEntry_contributes by exact Hev.
    unfold cm. now apply marked_inTop. }
  assert (Hmembers :
            List.length (filter (fun a => String.eqb (gae_division a) d) sorted)
            = List.length (membersOf m userIds d)).
  { unfold sorted.
    rewrite (filter_length_perm _ _ _ _ (Array_sort_perm _ _)).
    rewrite filter_map_length. reflexivity. }
  assert (Hcount :
            List.length
              (filter (contributesIn (ev_id ev))
                 (filter (fun a => String.eqb (gae_division a) d) sorted))
            = Nat.min TOP_PER_DIVISION (List.length (membersOf m userIds d))).
  { rewrite <- filter_andb. unfold sorted.
    rewrite (filter_length_perm _ _ _ _ (Array_sort_perm _ _)).
    rewrite filter_map_length.
    rewrite <- (picked_count m ev userIds d Hnd).
    f_equal. apply filter_ext. intros uid.
    now rewrite Hc. }
  split; [| split].
  - now rewrite Hcount, Hmembers.
  - rewrite Hcount. apply Nat.le_min_l.
  - intros a b Ha Hb Hnb.
    apply filter_In in Ha. destruct Ha as [Ha Hca].
    apply filter_In in Ha. destruct Ha as [Ha Hda].
    apply filter_In in Hb. destruct Hb as [Hb Hdb].
    apply Array_sort_In in Ha, Hb. apply in_map_iff in Ha, Hb.
    destruct Ha as (ua & <- & Hua). destruct Hb as (ub & <- & Hub).
    rewrite Hc in Hca, Hnb.
    apply String.eqb_eq in Hda, Hdb.
    unfold entry in Hda, Hdb. rewrite buildEntry_division in Hda, Hdb.
    unfold entry. rewrite !buildEntry_points by exact Hev.
    apply (picked_order m ev userIds ua ub Hua Hub); congruence.
Qed.

Lemma top_six_contribute_witness :
  exists g,
    In g (gyms sampleResponse)
    /\ let members := filter (fun a => String.eqb (gae_division a) "A") (gym_athletes g) in
       let contributing := filter (contributesIn "e1") members in
       List.length contributing = Nat.min TOP_PER_DIVISION (List.length members)
       /\ (List.length contributing <= 6)%nat
       /\ forall a b,
            In a contributing -> In b members ->
            contributesIn "e1" b = false ->
            entryPoints "e1" b <= entryPoints "e1" a.
Proof.
  eexists. split; [left; reflexivity |].
  apply (top_six_contribute neverParses trimAscii compareCodeUnits roundExact
           dbSample "comp_1" sampleResponse {| track_id := "track_1" |}
           ltac:(vm_compute; reflexivity) eq_refl _ (sampleEvent "e1") "A").
  - left. reflexivity.
  - left. reflexivity.
Defined.

(** C4, as stated for divisions, fails when two divisions share a label:
    in [dbSameLabel] the only gym has four athletes in division d1 and
    four in division d2, both labelled RX.  The eight are ranked
    together for the gym, so a4, the fourth of the four athletes of d1,
    is not marked contributing although its division has fewer than six
    athletes. *)
Lemma same_label_divisions_share_six :
  exists resp d la g a,
    sampleLeaderboard dbSameLabel = Normal resp
    /\ gyms resp = [g]
    /\ In d (divisions resp) /\ div_id d = "d1"
    /\ List.length (div_athletes d) = 4%nat
    /\ In la (div_athletes d) /\ la_userId la = "a4"
    /\ In a (gym_athletes g) /\ gae_name a = la_name la
    /\ (forall a', In a' (gym_athletes g) -> gae_name a' = gae_name a -> a' = a)
    /\ contributesIn "e1" a = false.
Proof.
  eexists. eexists. eexists. eexists. eexists.
  split; [vm_compute; reflexivity |].
  split; [reflexivity |].
  split; [left; reflexivity |].
  split; [reflexivity |].
  split; [reflexivity |].
  split; [right; right; right; left; reflexivity |].
  split; [reflexivity |].
  split; [do 6 right; left; reflexivity |].
  split; [reflexivity |].
  split; [| reflexivity].
  intros a' Hin Hname. simpl in Hin.
  repeat (destruct Hin as [<- | Hin]; [try discriminate Hname; try reflexivity |]).
  contradiction.
Qed.

(* ------------------------------------------------------------------ *)
(** ** Further properties: failure, ladder and rank loop *)
(* ------------------------------------------------------------------ *)



(** X2: the points ladder never increases with the rank, stays between
    0 and 100, is 100 exactly up to rank 1 and 0 exactly from rank 21 on. *)
Theorem calculateTraditionalPoints_monotone :
  forall r s,
    (r <= s -> calculateTraditionalPoints s <= calculateTraditionalPoints r)
    /\ 0 <= calculateTraditionalPoints r <= 100
    /\ (calculateTraditionalPoints r = 100 <-> r <= 1)
    /\ (calculateTraditionalPoints r = 0 <-> 21 <= r).
Proof.
  intros r s.
  unfold calculateTraditionalPoints, TRADITIONAL_FIRST_PLACE, TRADITIONAL_STEP.
  destruct (Z.leb_spec r 0), (Z.leb_spec s 0); repeat split; intros; lia.
Qed.

Lemma calculateTraditionalPoints_monotone_witness :
  calculateTraditionalPoints 7 <= calculateTraditionalPoints 3.
Proof.
  apply (proj1 (calculateTraditionalPoints_monotone 3 7)). lia.
Defined.

Lemma assignRanks_loop_shape :
  forall l i cr ps pv,
    DenseShape (i + 1) cr (List.map snd (assignRanks_loop i cr ps pv l)).
Proof.
  induction l as [| e l IH]; intros i cr ps pv; simpl; [exact I |].
  split; [apply nextRank_cases | apply IH].
Qed.

Lemma DenseShape_bounds :
  forall ranks pos prev,
    1 <= prev <= pos ->
    DenseShape pos prev ranks ->
    forall i r, nth_error ranks i = Some r -> 1 <= r <= pos + Z.of_nat i.
Proof.
  induction ranks as [| x ranks IH]; intros pos prev Hp Hs i r Hi.
  - destruct i; discriminate.
  - destruct Hs as [Hx Hs]. destruct i as [| i]; simpl in Hi.
    + injection Hi as <-. destruct Hx; lia.
    + assert (Hx' : 1 <= x <= pos + 1) by (destruct Hx; lia).
      pose proof (IH (pos + 1) x Hx' Hs i r Hi). lia.
Qed.

(** X3: [assignRanks] returns the entries it was given, in the same
    order, each with a rank; the first rank is 1, every later rank is
    the predecessor's rank or the entry's own 1-based position, so the
    rank at index [i] lies between 1 and [i + 1]. *)
Theorem assignRanks_shape :
  forall sorted,
    List.map fst (assignRanks sorted) = sorted
    /\ DenseShape 1 1 (List.map snd (assignRanks sorted))
    /\ forall i r,
         nth_error (List.map snd (assignRanks sorted)) i = Some r ->
         1 <= r <= Z.of_nat i + 1.
Proof.
  intros l. split; [apply assignRanks_entries |].
  assert (H : DenseShape 1 1 (List.map snd (assignRanks l))).
  { exact (assignRanks_loop_shape l 0 1 None None). }
  split; [exact H |].
  intros i r Hi.
  pose proof (DenseShape_bounds _ 1 1 ltac:(lia) H i r Hi). lia.
Qed.

Lemma assignRanks_shape_witness :
  1 <= 1 <= Z.of_nat 1 + 1.
Proof.
  exact (proj2 (proj2 (assignRanks_shape nullThenFive)) 1%nat 1 eq_refl).
Defined.

Lemma nextRank_keyed :
  forall i cr prev cur,
    keyedEntry prev = true -> keyedEntry cur = true ->
    nextRank i cr (se_sortKey prev) (se_value prev) cur
    = if specSameKey prev cur then cr else i + 1.
Proof.
  intros i cr prev cur Hp Hc. unfold keyedEntry in *.
  unfold nextRank, specSameKey. rewrite Hp, Hc.
  destruct (se_sortKey prev) as [kp |]; [| discriminate]. simpl.
  destruct (opt_string_eqb (se_sortKey cur) (Some kp)); reflexivity.
Qed.

Lemma assignRanks_loop_keyed :
  forall l i cr prev,
    keyedEntry prev = true -> forallb keyedEntry l = true ->
    List.map snd (assignRanks_loop i cr (se_sortKey prev) (se_value prev) l)
    = specRanks_from (i + 1) cr prev l.
Proof.
  induction l as [| e l IH]; intros i cr prev Hp Hl; simpl; [reflexivity |].
  simpl in Hl. apply andb_prop in Hl. destruct Hl as [He Hl].
  rewrite (nextRank_keyed i cr prev e Hp He).
  f_equal. apply IH; assumption.
Qed.

(** X4: when every entry carries a non-empty sort key, the sort keys
    alone decide the ranks: equal keys share the predecessor's rank and
    a different key takes the 1-based position, whatever the values
    are, missing ones included. *)
Theorem assignRanks_by_sort_key :
  forall sorted,
    forallb keyedEntry sorted = true ->
    List.map snd (assignRanks sorted) = specRanks sorted.
Proof.
  intros [| e l] Hl; [reflexivity |].
  simpl in Hl. apply andb_prop in Hl. destruct Hl as [He Hl].
  unfold assignRanks. simpl. rewrite nextRank_first. f_equal.
  exact (assignRanks_loop_keyed l 1 1 e He Hl).
Qed.

Lemma assignRanks_by_sort_key_witness :
  List.map snd (assignRanks keyedSample) = [1; 1; 3].
Proof.
  exact (assignRanks_by_sort_key keyedSample eq_refl).
Defined.

(* ------------------------------------------------------------------ *)
(** ** Further properties: the results of the athletes *)
(* ------------------------------------------------------------------ *)

Lemma divisionAwards_ranks :
  forall localeCompare ds ur,
    In ur (divisionAwards localeCompare ds) -> 1 <= snd ur.
Proof.
  intros lc ds ur H. unfold divisionAwards in H. apply in_app_or in H.
  destruct H as [H | H]; apply in_map_iff in H.
  - destruct H as (er & <- & Her). simpl.
    pose proof (assignRanks_ranks_positive
                  (Array_sort (compareActive lc) (filter isActive ds))) as Hp.
    rewrite Forall_forall in Hp. apply Hp.
    unfold rankActive in Her. now apply in_map.
  - destruct H as (e & <- & _). simpl.
    rewrite lastActiveRank_max. unfold maxActiveRank.
    assert (H0 : forall l, 0 <= fold_right Z.max 0 l).
    { induction l; simpl; lia. }
    pose proof (H0 (List.map snd (rankActive lc ds))). lia.
Qed.

Lemma eventAwards_ranks :
  forall localeCompare m ev scores ur,
    In ur (eventAwards localeCompare m ev scores) -> 1 <= snd ur.
Proof.
  intros lc m ev scores ur H. unfold eventAwards in H.
  apply in_concat in H. destruct H as (l & Hl & Hur).
  apply in_map_iff in Hl. destruct Hl as (g & <- & _).
  now apply divisionAwards_ranks in Hur.
Qed.

Section StepFacts.
Variable localeCompare : string -> string -> Z.
Variable roundWeighted : Z -> Z -> Z.
Variable allScores : list ScoreRow.

(** One event appends to the results of an athlete, and what it
    appends are results of that event. *)
Lemma stepAthlete_appends :
  forall m ev k a,
    exists news,
      a_events (stepAthlete localeCompare roundWeighted allScores m ev k a)
      = a_events a ++ news
      /\ Forall (ResultOf roundWeighted ev) news.
Proof.
  intros m ev k a. unfold stepAthlete, fillOne.
  set (rs := resultsFor roundWeighted ev (multiplierOf ev) k
               (eventAwards localeCompare m ev allScores)).
  assert (Hrs : Forall (ResultOf roundWeighted ev) rs).
  { rewrite Forall_forall. intros r Hr. unfold rs, resultsFor in Hr.
    apply in_map_iff in Hr. destruct Hr as (ur & <- & Hur).
    apply filter_In in Hur. destruct Hur as [Hur _].
    apply eventAwards_ranks in Hur.
    unfold ResultOf. simpl. repeat split. right. split; [exact Hur | reflexivity]. }
  destruct (hasEvent ev (pushResults rs a)).
  - exists rs. split; [reflexivity | exact Hrs].
  - exists (rs ++ [placeholder ev]). split.
    + simpl. now rewrite app_assoc.
    + apply Forall_app. split; [exact Hrs |].
      constructor; [| constructor].
      unfold ResultOf, placeholder. simpl. repeat split. left. split; reflexivity.
Qed.

(** A property of the athlete records that every event keeps holds for
    all the records in the end. *)
Lemma computeResults_invariant :
  forall (Q : Athlete -> Prop) (allEvents : list EventRow),
    (forall m ev k a,
        In ev allEvents -> Q a ->
        Q (stepAthlete localeCompare roundWeighted allScores m ev k a)) ->
    forall events m,
      (forall ev, In ev events -> In ev allEvents) ->
      NoDup (List.map fst m) ->
      (forall k a, In (k, a) m -> Q a) ->
      forall k a,
        In (k, a) (computeResults localeCompare roundWeighted events allScores m) ->
        Q a.
Proof.
  intros Q allEvents Hstep. unfold computeResults.
  induction events as [| ev events IH]; intros m Hsub Hnd Hm k a Hin; simpl in Hin.
  - exact (Hm k a Hin).
  - apply (IH (processEvent localeCompare roundWeighted allScores m ev)) in Hin;
      [exact Hin | | |].
    + intros ev' Hev'. apply Hsub. now right.
    + now rewrite processEvent_keys.
    + intros k' a' Hin'.
      apply In_map_get in Hin'; [| now rewrite processEvent_keys].
      rewrite processEvent_get in Hin'.
      destruct (map_get String.eqb k' m) as [a0 |] eqn:Hget; [| discriminate].
      simpl in Hin'. injection Hin' as <-.
      apply Hstep; [apply Hsub; now left |].
      apply (Hm k'). now apply map_get_In.
Qed.
End StepFacts.

(** The athletes of a computed leaderboard, whenever there are any, are
    the records of the final athlete map. *)
Lemma leaderboard_athlete_record :
  forall JSON_parse String_trim localeCompare roundWeighted db competitionId resp la,
    getLeaderboard JSON_parse String_trim localeCompare roundWeighted db competitionId
    = Normal resp ->
    In la (allAthletes resp) ->
    exists track m0 k athlete r,
      selectTrack db competitionId = Some track
      /\ buildAthleteMap JSON_parse String_trim
           (selectRegistrations db competitionId) [] = Normal m0
      /\ In (k, athlete)
           (computeResults localeCompare roundWeighted
              (selectEvents db (track_id track))
              (selectScores db (List.map ev_id (selectEvents db (track_id track)))
                 (List.map reg_userId (selectRegistrations db competitionId)))
              m0)
      /\ la = setAthleteRank r (toLeaderboardAthlete athlete).
Proof.
  intros P S L R db cid resp la H Hla.
  destruct (getLeaderboard_cases _ _ _ _ _ _ _ H)
    as [(Hdiv & _) | (track & m0 & Htrack & _ & _ & Hm0 & Hdiv & _)].
  { unfold allAthletes in Hla. rewrite Hdiv in Hla. contradiction. }
  unfold allAthletes in Hla. rewrite Hdiv in Hla.
  apply in_concat in Hla. destruct Hla as (l & Hl & Hla).
  apply in_map_iff in Hl. destruct Hl as (d & <- & Hd).
  destruct (division_athlete_origin _ _ _ Hd Hla) as (k & ath & r & Hin & ->).
  exists track, m0, k, ath, r. auto.
Qed.

(** X5: every result of every athlete of a computed leaderboard
    belongs to a published event: it carries the id and the workout
    name of that event, and it is either the zero placeholder (0
    points, rank 0) or has a rank from 1 on and the points of that rank,
    weighted by the multiplier of the event. *)
Theorem results_of_published_events :
  forall JSON_parse String_trim localeCompare roundWeighted db competitionId resp track,
    getLeaderboard JSON_parse String_trim localeCompare roundWeighted db competitionId
    = Normal resp ->
    selectTrack db competitionId = Some track ->
    forall la r,
      In la (allAthletes resp) -> In r (la_events la) ->
      ResultOk roundWeighted (selectEvents db (track_id track)) r.
Proof.
  intros P S L R db cid resp track H Htrack la r Hla Hr.
  destruct (leaderboard_athlete_record _ _ _ _ _ _ _ _ H Hla)
    as (track' & m0 & k & ath & rk & Htrack' & Hm0 & Hin & ->).
  rewrite Htrack in Htrack'. injection Htrack' as <-.
  simpl in Hr.
  set (events := selectEvents db (track_id track)) in *.
  set (allScores := selectScores db (List.map ev_id events)
                      (List.map reg_userId (selectRegistrations db cid))) in *.
  destruct (buildAthleteMap_fresh _ _ _ _ _ Hm0 (NoDup_nil _) (Forall_nil _))
    as [Hnd Hfresh].
  assert (HQ : Forall (ResultOk R events) (a_events ath)).
  { apply (computeResults_invariant L R allScores
             (fun a => Forall (ResultOk R events) (a_events a)) events)
      with (events := events) (m := m0) (k := k); auto.
    - intros m ev k' a Hev Ha.
      destruct (stepAthlete_appends L R allScores m ev k' a) as (news & -> & Hnews).
      apply Forall_app. split; [exact Ha |].
      eapply Forall_impl; [| exact Hnews].
      intros x Hx. exists ev. split; assumption.
    - intros k' a Ha.
      rewrite Forall_forall in Hfresh.
      destruct (Hfresh a) as [Hev _].
      { apply in_map_iff. exists (k', a). split; [reflexivity | exact Ha]. }
      rewrite Hev. constructor. }
  rewrite Forall_forall in HQ. now apply HQ.
Qed.

Lemma results_of_published_events_witness :
  Forall (fun la => Forall (ResultOk roundExact [sampleEvent "e1"]) (la_events la))
    (allAthletes sampleResponse).
Proof.
  apply Forall_forall. intros la Hla. apply Forall_forall. intros r Hr.
  exact (results_of_published_events neverParses trimAscii compareCodeUnits roundExact
           dbSample "comp_1" sampleResponse {| track_id := "track_1" |}
           eq_refl eq_refl la r Hla Hr).
Defined.

Section PlaceholderFacts.
Variable localeCompare : string -> string -> Z.
Variable roundWeighted : Z -> Z -> Z.
Variable allScores : list ScoreRow.

Lemma resultsOfEvent_nil :
  forall eid rs,
    resultsOfEvent eid rs = [] <-> ~ In eid (List.map eventId rs).
Proof.
  intros eid rs. unfold resultsOfEvent. induction rs as [| r rs IH]; simpl.
  - split; [intros _ [] | reflexivity].
  - destruct (String.eqb_spec (eventId r) eid) as [-> | Hne].
    + split; [discriminate | intros H; exfalso; apply H; now left].
    + rewrite IH. split; intros H; [intros [H' | H']; auto | auto].
Qed.

Lemma stepAthlete_no_score :
  forall m ev k a,
    ~ In (ev_id ev) (List.map eventId (a_events a)) ->
    filter (countsFor k (ev_id ev)) allScores = [] ->
    a_events (stepAthlete localeCompare roundWeighted allScores m ev k a)
    = a_events a ++ [placeholder ev].
Proof.
  intros m ev k a Hnew Hnone.
  pose proof (eventAwards_count localeCompare m ev allScores k) as Hle.
  rewrite Hnone in Hle. simpl in Hle.
  unfold stepAthlete, resultsFor.
  destruct (filter (fun ur : string * Z => String.eqb (fst ur) k)
              (eventAwards localeCompare m ev allScores)) as [| x l];
    [| simpl in Hle; lia].
  simpl. rewrite pushResults_nil. unfold fillOne.
  destruct (hasEvent ev a) eqn:Hhas.
  - apply hasEvent_In in Hhas. contradiction.
  - reflexivity.
Qed.

Lemma stepAthlete_other_event :
  forall m ev k a eid,
    ev_id ev <> eid ->
    resultsOfEvent eid
      (a_events (stepAthlete localeCompare roundWeighted allScores m ev k a))
    = resultsOfEvent eid (a_events a).
Proof.
  intros m ev k a eid Hne.
  destruct (stepAthlete_appends localeCompare roundWeighted allScores m ev k a)
    as (news & -> & Hnews).
  unfold resultsOfEvent. rewrite filter_app.
  assert (H : filter (fun r => String.eqb (eventId r) eid) news = []).
  { induction Hnews as [| r news (Hid & _) _ IH]; simpl; [reflexivity |].
    rewrite Hid. destruct (String.eqb_spec (ev_id ev) eid); [contradiction | exact IH]. }
  rewrite H. apply app_nil_r.
Qed.

Lemma computeResults_other_events :
  forall events m k a eid,
    (forall ev, In ev events -> ev_id ev <> eid) ->
    map_get String.eqb k m = Some a ->
    exists a',
      map_get String.eqb k
        (computeResults localeCompare roundWeighted events allScores m) = Some a'
      /\ resultsOfEvent eid (a_events a') = resultsOfEvent eid (a_events a).
Proof.
  unfold computeResults.
  induction events as [| ev events IH]; intros m k a eid Hne Hget; simpl.
  - exists a. split; [exact Hget | reflexivity].
  - destruct (IH (processEvent localeCompare roundWeighted allScores m ev) k
                (stepAthlete localeCompare roundWeighted allScores m ev k a) eid)
      as (a' & Hget' & Hres).
    + intros ev' Hev'. apply Hne. now right.
    + rewrite processEvent_get, Hget. reflexivity.
    + exists a'. split; [exact Hget' |].
      rewrite Hres. apply stepAthlete_other_event. apply Hne. now left.
Qed.

(** An athlete without a ranked score for an event ends up with the
    zero placeholder as the only result for that event. *)
Lemma computeResults_placeholder :
  forall events m0 k a0 ev,
    NoDup (List.map ev_id events) ->
    In ev events ->
    map_get String.eqb k m0 = Some a0 ->
    a_events a0 = [] ->
    filter (countsFor k (ev_id ev)) allScores = [] ->
    exists a',
      map_get String.eqb k
        (computeResults localeCompare roundWeighted events allScores m0) = Some a'
      /\ resultsOfEvent (ev_id ev) (a_events a') = [placeholder ev].
Proof.
  intros events m0 k a0 ev Hnd Hev Hget Hfresh Hnone.
  apply in_split in Hev. destruct Hev as (pre & post & ->).
  rewrite map_app in Hnd. simpl in Hnd.
  assert (Hpre : forall ev', In ev' pre -> ev_id ev' <> ev_id ev).
  { intros ev' Hin Heq.
    apply (NoDup_app_apart _ _ _ (ev_id ev) Hnd).
    - rewrite <- Heq. now apply in_map.
    - now left. }
  assert (Hpost : forall ev', In ev' post -> ev_id ev' <> ev_id ev).
  { intros ev' Hin Heq.
    apply NoDup_app_remove_l in Hnd. inversion Hnd as [| ? ? Hnotin _]; subst.
    apply Hnotin. rewrite <- Heq. now apply in_map. }
  unfold computeResults. rewrite fold_left_app. simpl.
  destruct (computeResults_other_events pre m0 k a0 (ev_id ev) Hpre Hget)
    as (a1 & Hget1 & Hres1).
  unfold computeResults in Hget1.
  rewrite Hfresh in Hres1. simpl in Hres1.
  set (m1 := fold_left (processEvent localeCompare roundWeighted allScores) pre m0) in *.
  destruct (computeResults_other_events post
              (processEvent localeCompare roundWeighted allScores m1 ev) k
              (stepAthlete localeCompare roundWeighted allScores m1 ev k a1)
              (ev_id ev) Hpost)
    as (a' & Hget' & Hres').
  { rewrite processEvent_get, Hget1. reflexivity. }
  exists a'. split; [exact Hget' |].
  rewrite Hres'.
  rewrite stepAthlete_no_score; [| now apply resultsOfEvent_nil | exact Hnone].
  unfold resultsOfEvent in *. rewrite filter_app, Hres1. simpl.
  now rewrite String.eqb_refl.
Qed.
End PlaceholderFacts.

(** X6: when the published events have distinct ids, an athlete with
    no score row of status [scored], [cap] or [dnf] for an event (no
    row at all, or only rows of another status such as [dns] or
    [withdrawn]) has exactly one result for that event, the placeholder
    with 0 points and rank 0. *)
Theorem unranked_athlete_gets_zero :
  forall JSON_parse String_trim localeCompare roundWeighted db competitionId resp track,
    getLeaderboard JSON_parse String_trim localeCompare roundWeighted db competitionId
    = Normal resp ->
    selectTrack db competitionId = Some track ->
    let events := selectEvents db (track_id track) in
    let allScores :=
      selectScores db (List.map ev_id events)
        (List.map reg_userId (selectRegistrations db competitionId)) in
    NoDup (List.map ev_id events) ->
    forall la ev,
      In la (allAthletes resp) -> In ev events ->
      filter (countsFor (la_userId la) (ev_id ev)) allScores = [] ->
      resultsOfEvent (ev_id ev) (la_events la)
      = [ {| eventId := ev_id ev; eventName := ev_workoutName ev;
             points := 0; rank := 0 |} ].
Proof.
  intros P S L R db cid resp track H Htrack events allScores Hnd la ev Hla Hev Hnone.
  destruct (leaderboard_athlete_record _ _ _ _ _ _ _ _ H Hla)
    as (track' & m0 & k & ath & rk & Htrack' & Hm0 & Hin & ->).
  rewrite Htrack in Htrack'. injection Htrack' as <-.
  fold events in Hin. fold allScores in Hin.
  pose proof (buildAthleteMap_WellKeyed _ _ _ _ Hm0) as Hwk0.
  pose proof (computeResults_WellKeyed L R events allScores m0 Hwk0) as Hwk.
  destruct (buildAthleteMap_fresh _ _ _ _ _ Hm0 (NoDup_nil _) (Forall_nil _))
    as [_ Hfresh].
  pose proof (In_map_get _ _ _ (proj1 Hwk) Hin) as Hget.
  assert (Hk : a_userId ath = k).
  { destruct Hwk as [_ Hkeys]. rewrite Forall_forall in Hkeys.
    exact (Hkeys (k, ath) Hin). }
  simpl in Hnone. rewrite Hk in Hnone.
  destruct (map_get_Some_key _ m0 k) as [a0 Hget0].
  { rewrite <- (computeResults_keys L R allScores events m0).
    apply in_map_iff. exists (k, ath). now split. }
  assert (Hev0 : a_events a0 = []).
  { rewrite Forall_forall in Hfresh.
    apply (Hfresh a0). apply in_map_iff. exists (k, a0).
    split; [reflexivity | now apply map_get_In]. }
  destruct (computeResults_placeholder L R allScores events m0 k a0 ev
              Hnd Hev Hget0 Hev0 Hnone) as (a' & Hget' & Hres).
  rewrite Hget in Hget'. injection Hget' as <-.
  exact Hres.
Qed.

Lemma unranked_athlete_gets_zero_witness :
  exists la,
    In la (allAthletes noScoreResponse)
    /\ la_userId la = "V"
    /\ resultsOfEvent "e1" (la_events la)
       = [ {| eventId := "e1"; eventName := "Workout"; points := 0; rank := 0 |} ].
Proof.
  assert (Hnd : NoDup (List.map ev_id (selectEvents dbNoScore "track_1"))).
  { repeat (constructor;
            [simpl; intros Hx;
             repeat (destruct Hx as [Hx | Hx]; [discriminate Hx |]); exact Hx |]).
    constructor. }
  exists (hd (toLeaderboardAthlete (sampleAthlete "V")) (allAthletes noScoreResponse)).
  split; [left; reflexivity |]. split; [reflexivity |].
  exact (unranked_athlete_gets_zero neverParses trimAscii compareCodeUnits roundExact
           dbNoScore "comp_1" noScoreResponse {| track_id := "track_1" |}
           eq_refl eq_refl Hnd
           (hd (toLeaderboardAthlete (sampleAthlete "V")) (allAthletes noScoreResponse))
           (sampleEvent "e1")
           (or_introl eq_refl) (or_introl eq_refl) eq_refl).
Defined.

(* ------------------------------------------------------------------ *)
(** ** Shape of the division and gym lists *)
(* ------------------------------------------------------------------ *)

Lemma addToDivision_keys_In :
  forall groups athlete k,
    In k (List.map fst (addToDivision groups athlete)) ->
    In k (List.map fst groups) \/ k = a_divisionId athlete.
Proof.
  intros groups ath k. induction groups as [| [k0 d0] groups IH].
  - unfold addToDivision. simpl. rewrite String.eqb_refl. simpl.
    intros [<- | []]. now right.
  - rewrite addToDivision_cons.
    destruct (String.eqb k0 (a_divisionId ath)); simpl.
    + intros H. now left.
    + intros [<- | H]; [left; now left |].
      destruct (IH H) as [H' | ->]; [left; now right | now right].
Qed.

Lemma addToDivision_keys_NoDup :
  forall groups athlete,
    NoDup (List.map fst groups) ->
    NoDup (List.map fst (addToDivision groups athlete)).
Proof.
  intros groups ath. induction groups as [| [k0 d0] groups IH]; intros Hnd.
  - unfold addToDivision. simpl. rewrite String.eqb_refl. simpl.
    constructor; [intros [] | constructor].
  - rewrite addToDivision_cons.
    destruct (String.eqb_spec k0 (a_divisionId ath)) as [He | Hne]; simpl.
    + exact Hnd.
    + simpl in Hnd. inversion Hnd as [| ? ? Hnotin Hnd']; subst.
      constructor; [| now apply IH].
      intros Hin. apply addToDivision_keys_In in Hin.
      destruct Hin as [Hin | ->]; [now apply Hnotin | now apply Hne].
Qed.

Lemma addToDivision_nonempty :
  forall groups athlete,
    Forall (fun kd : string * DivisionLeaderboard => div_athletes (snd kd) <> []) groups ->
    Forall (fun kd : string * DivisionLeaderboard => div_athletes (snd kd) <> [])
      (addToDivision groups athlete).
Proof.
  intros groups ath. induction groups as [| [k0 d0] groups IH]; intros Hall.
  - unfold addToDivision. simpl. rewrite String.eqb_refl. simpl.
    constructor; [simpl; discriminate | constructor].
  - rewrite addToDivision_cons. inversion Hall as [| ? ? H0 Hall']; subst.
    destruct (String.eqb k0 (a_divisionId ath)).
    + constructor; [| exact Hall']. simpl.
      intros H. now apply app_eq_nil in H as [_ H].
    + constructor; [exact H0 | now apply IH].
Qed.

Lemma groupDivisions_shape :
  forall m,
    NoDup (List.map fst (groupDivisions m))
    /\ Forall (fun kd : string * DivisionLeaderboard => div_athletes (snd kd) <> [])
         (groupDivisions m).
Proof.
  intros m. unfold groupDivisions.
  assert (H : forall l acc,
             NoDup (List.map fst acc)
             /\ Forall (fun kd : string * DivisionLeaderboard =>
                          div_athletes (snd kd) <> []) acc ->
             NoDup (List.map fst (fold_left addToDivision l acc))
             /\ Forall (fun kd : string * DivisionLeaderboard =>
                          div_athletes (snd kd) <> [])
                  (fold_left addToDivision l acc)).
  { induction l as [| ath l IH]; intros acc [Hnd Hne]; simpl; [now split |].
    apply IH. split;
      [now apply addToDivision_keys_NoDup | now apply addToDivision_nonempty]. }
  apply H. split; constructor.
Qed.

Lemma rankDivision_length :
  forall d, List.length (div_athletes (rankDivision d)) = List.length (div_athletes d).
Proof.
  intros d. unfold rankDivision. simpl.
  rewrite <- (length_map la_userId).
  rewrite rankByTotal_map by reflexivity.
  rewrite length_map. apply Array_sort_length.
Qed.

Lemma buildDivisions_ids :
  forall m,
    List.map div_id (map_values (buildDivisions m)) = List.map fst (groupDivisions m).
Proof.
  intros m. unfold buildDivisions, map_values.
  pose proof (groupDivisions_ok m) as Hok.
  induction Hok as [| [k d] l [Hid _] _ IH]; simpl; [reflexivity |].
  simpl in Hid. now rewrite Hid, IH.
Qed.

Lemma buildDivisions_nonempty :
  forall m d, In d (map_values (buildDivisions m)) -> div_athletes d <> [].
Proof.
  intros m d Hd. unfold buildDivisions, map_values in Hd. rewrite map_map in Hd.
  apply in_map_iff in Hd. destruct Hd as ([k d0] & <- & Hin).
  destruct (groupDivisions_shape m) as [_ Hne]. rewrite Forall_forall in Hne.
  specialize (Hne _ Hin). cbn [snd] in *.
  intros H. apply Hne. apply length_zero_iff_nil.
  rewrite <- (rankDivision_length d0). rewrite H. reflexivity.
Qed.

(** X7: the division leaderboards of a response have pairwise distinct
    ids, and none of them is empty: a division exists only because an
    athlete was put into it. *)
Theorem divisions_distinct_and_inhabited :
  forall JSON_parse String_trim localeCompare roundWeighted db competitionId resp,
    getLeaderboard JSON_parse String_trim localeCompare roundWeighted db competitionId
    = Normal resp ->
    NoDup (List.map div_id (divisions resp))
    /\ Forall (fun d => div_athletes d <> []) (divisions resp).
Proof.
  intros P S L R db cid resp H.
  destruct (getLeaderboard_cases _ _ _ _ _ _ _ H)
    as [(Hd & _ & _) | (track & m0 & _ & _ & _ & _ & Hd & _)].
  - rewrite Hd. split; constructor.
  - rewrite Hd. split.
    + rewrite buildDivisions_ids. apply groupDivisions_shape.
    + apply Forall_forall. intros d. apply buildDivisions_nonempty.
Qed.

Lemma divisions_distinct_and_inhabited_witness :
  NoDup (List.map div_id (divisions sampleResponse))
  /\ Forall (fun d => div_athletes d <> []) (divisions sampleResponse).
Proof.
  apply (divisions_distinct_and_inhabited neverParses trimAscii compareCodeUnits
           roundExact dbSample "comp_1").
  reflexivity.
Defined.

(** Gym groups *)

Lemma map_set_Forall_values :
  forall (K X : Type) (same : K -> K -> bool) (P : X -> Prop) (k : K) (v : X)
         (m : list (K * X)),
    Forall (fun kv => P (snd kv)) m -> P v ->
    Forall (fun kv => P (snd kv)) (map_set same k v m).
Proof.
  intros K X same P k v m Hm Hv. induction Hm as [| [k0 v0] m H0 Hm IH]; simpl.
  - constructor; [exact Hv | constructor].
  - destruct (same k0 k); constructor; auto.
Qed.

Lemma groupGyms_nonempty :
  forall m, Forall (fun g : JValue * list string => snd g <> []) (groupGyms m).
Proof.
  intros m. unfold groupGyms.
  assert (H : forall l acc,
             Forall (fun g : JValue * list string => snd g <> []) acc ->
             Forall (fun g : JValue * list string => snd g <> [])
               (fold_left
                  (fun gymAthleteIds athlete =>
                     group_push sameValueZero (a_affiliateName athlete)
                       (a_userId athlete) gymAthleteIds) l acc)).
  { induction l as [| ath l IH]; intros acc Hacc; simpl; [exact Hacc |].
    apply IH. unfold group_push.
    apply (map_set_Forall_values _ _ sameValueZero (fun v : list string => v <> []));
      [exact Hacc |].
    intros Hx. now apply app_eq_nil in Hx as [_ Hx]. }
  apply H. constructor.
Qed.

Lemma filter_all :
  forall (A : Type) (p : A -> bool) (l : list A),
    (forall x, In x l -> p x = true) -> filter p l = l.
Proof.
  intros A p l. induction l as [| x l IH]; intros H; simpl; [reflexivity |].
  rewrite (H x (or_introl eq_refl)). f_equal. apply IH. intros y Hy. apply H. now right.
Qed.

(** The filter on [athleteCount > 0] never drops a gym. *)
Lemma buildGyms_unfiltered :
  forall m events divisionGroups,
    buildGyms m events divisionGroups
    = rankByTotal gym_totalScore setGymRank
        (Array_sort byTotalScoreDesc
           (List.map (buildGym m events (buildDivisionRankMap divisionGroups))
              (groupGyms m))).
Proof.
  intros m events dg. unfold buildGyms. cbv zeta.
  rewrite filter_all; [reflexivity |].
  intros g Hg. apply in_map_iff in Hg. destruct Hg as ([name userIds] & <- & Hin).
  pose proof (groupGyms_nonempty m) as Hne. rewrite Forall_forall in Hne.
  specialize (Hne _ Hin). simpl in Hne. simpl.
  apply Z.ltb_lt. destruct userIds; [contradiction | simpl; lia].
Qed.

Lemma buildGyms_length :
  forall m events divisionGroups,
    List.length (buildGyms m events divisionGroups) = List.length (groupGyms m).
Proof.
  intros m events dg. rewrite buildGyms_unfiltered.
  rewrite <- (length_map gym_totalScore).
  rewrite rankByTotal_map by reflexivity.
  rewrite length_map, Array_sort_length. apply length_map.
Qed.

Lemma concat_length_ge :
  forall (A : Type) (ls : list (list A)),
    Forall (fun l => l <> []) ls ->
    (List.length ls <= List.length (List.concat ls))%nat.
Proof.
  intros A ls H. induction H as [| l ls Hl _ IH]; simpl; [lia |].
  rewrite length_app. destruct l; [contradiction | simpl; lia].
Qed.

(** X8: a competition with a programming track, at least one published
    event and at least one registration yields at least one division
    leaderboard and at least one gym leaderboard, and no more gyms and
    no more divisions than registrations. *)
Theorem populated_competition_has_leaderboards :
  forall JSON_parse String_trim localeCompare roundWeighted db competitionId resp track,
    getLeaderboard JSON_parse String_trim localeCompare roundWeighted db competitionId
    = Normal resp ->
    selectTrack db competitionId = Some track ->
    selectEvents db (track_id track) <> [] ->
    selectRegistrations db competitionId <> [] ->
    divisions resp <> [] /\ gyms resp <> []
    /\ (List.length (divisions resp)
        <= List.length (selectRegistrations db competitionId))%nat
    /\ (List.length (gyms resp)
        <= List.length (selectRegistrations db competitionId))%nat.
Proof.
  intros P S L R db cid resp track H Htrack Hev Hreg.
  destruct (getLeaderboard_cases _ _ _ _ _ _ _ H)
    as [(_ & _ & [Hc | [(track' & Ht & He) | Hc]])
       | (track' & m0 & Ht & _ & _ & Hm0 & Hd & Hg)].
  - rewrite Htrack in Hc. discriminate.
  - rewrite Htrack in Ht. injection Ht as <-. contradiction.
  - contradiction.
  - rewrite Htrack in Ht. injection Ht as <-.
    set (events := selectEvents db (track_id track)) in *.
    set (allScores := selectScores db (List.map ev_id events)
                        (List.map reg_userId (selectRegistrations db cid))) in *.
    set (m := computeResults L R events allScores m0) in *.
    assert (Hlen : (1 <= List.length m <= List.length (selectRegistrations db cid))%nat).
    { rewrite <- (length_map fst m). unfold m.
      rewrite (computeResults_keys L R allScores events m0).
      pose proof (buildAthleteMap_WellKeyed _ _ _ _ Hm0) as [Hnd _].
      split.
      - destruct (selectRegistrations db cid) as [| reg regs] eqn:Hregs;
          [contradiction |].
        assert (Hin : In (reg_userId reg) (List.map fst m0)).
        { apply (buildAthleteMap_keys _ _ _ _ Hm0). try rewrite Hregs. now left. }
        destruct (List.map fst m0); [contradiction | simpl; lia].
      - rewrite <- (length_map reg_userId).
        apply NoDup_incl_length; [exact Hnd |].
        intros uid Huid. now apply (buildAthleteMap_keys _ _ _ _ Hm0). }
    assert (Hall : List.length (allAthletes resp) = List.length m).
    { unfold allAthletes. rewrite Hd.
      rewrite <- (length_map la_userId).
      rewrite (Permutation_length (divisions_userIds m)).
      unfold map_values. now rewrite !length_map. }
    assert (Hgl : List.length (List.concat (List.map snd (groupGyms m))) = List.length m).
    { rewrite (Permutation_length (groupGyms_contents m)).
      unfold map_values. now rewrite !length_map. }
    assert (Hdl : (List.length (divisions resp) <= List.length (allAthletes resp))%nat).
    { unfold allAthletes. rewrite <- (length_map div_athletes (divisions resp)).
      apply concat_length_ge. apply Forall_map. rewrite Hd.
      apply Forall_forall. intros d. apply buildDivisions_nonempty. }
    assert (Hggl : (List.length (groupGyms m)
                    <= List.length (List.concat (List.map snd (groupGyms m))))%nat).
    { rewrite <- (length_map snd (groupGyms m)). apply concat_length_ge.
      apply Forall_map. exact (groupGyms_nonempty m). }
    assert (Hgyms : List.length (gyms resp) = List.length (groupGyms m)).
    { rewrite Hg. apply buildGyms_length. }
    assert (Hg1 : (1 <= List.length (groupGyms m))%nat).
    { destruct (groupGyms m); [simpl in Hgl; lia | simpl; lia]. }
    repeat split.
    + intros Hnil. unfold allAthletes in Hall. rewrite Hnil in Hall. simpl in Hall. lia.
    + intros Hnil. rewrite Hnil in Hgyms. simpl in Hgyms. lia.
    + lia.
    + lia.
Qed.

Lemma populated_competition_has_leaderboards_witness :
  divisions sampleResponse <> [] /\ gyms sampleResponse <> []
  /\ (List.length (divisions sampleResponse)
      <= List.length (selectRegistrations dbSample "comp_1"))%nat
  /\ (List.length (gyms sampleResponse)
      <= List.length (selectRegistrations dbSample "comp_1"))%nat.
Proof.
  apply (populated_competition_has_leaderboards neverParses trimAscii compareCodeUnits
           roundExact dbSample "comp_1" sampleResponse {| track_id := "track_1" |}).
  - reflexivity.
  - reflexivity.
  - discriminate.
  - discriminate.
Defined.

(* ------------------------------------------------------------------ *)
(** ** Gym leaderboards and the division leaderboards *)
(* ------------------------------------------------------------------ *)

(** X9: in every gym of the output the athlete entries are sorted by
    descending [contributingTotal], and [athleteCount] is the number of
    entries, which is at least 1. *)
Theorem gym_athletes_sorted_and_counted :
  forall JSON_parse String_trim localeCompare roundWeighted db competitionId resp,
    getLeaderboard JSON_parse String_trim localeCompare roundWeighted db competitionId
    = Normal resp ->
    forall g, In g (gyms resp) ->
      StronglySorted (descending gae_contributingTotal) (gym_athletes g)
      /\ gym_athleteCount g = Z.of_nat (List.length (gym_athletes g))
      /\ 1 <= gym_athleteCount g.
Proof.
  intros P S L R db cid resp H g Hg.
  destruct (getLeaderboard_cases _ _ _ _ _ _ _ H)
    as [(_ & Hgym & _) | (track & m0 & _ & _ & _ & Hm0 & _ & Hgym)].
  { rewrite Hgym in Hg. contradiction. }
  rewrite Hgym in Hg.
  destruct (gym_origin _ _ _ _ Hg) as (name & userIds & r & Hin & ->).
  cbn [gym_athletes gym_athleteCount setGymRank buildGym].
  split; [| split].
  - apply Array_sort_descending with (key := gae_contributingTotal). reflexivity.
  - now rewrite Array_sort_length, length_map.
  - pose proof Hin as Hne. apply (proj1 (Forall_forall _ _) (groupGyms_nonempty _)) in Hne.
    simpl in Hne.
    destruct userIds; [contradiction | simpl; lia].
Qed.

Lemma gym_athletes_sorted_and_counted_witness :
  Forall (fun g =>
            StronglySorted (descending gae_contributingTotal) (gym_athletes g)
            /\ gym_athleteCount g = Z.of_nat (List.length (gym_athletes g))
            /\ 1 <= gym_athleteCount g)
    (gyms sampleResponse).
Proof.
  apply Forall_forall.
  apply (gym_athletes_sorted_and_counted neverParses trimAscii compareCodeUnits
           roundExact dbSample "comp_1").
  reflexivity.
Defined.

Lemma buildGym_counts :
  forall m events drm groups,
    sum_Z (List.map (fun g => gym_athleteCount (buildGym m events drm g)) groups)
    = Z.of_nat (List.length (List.concat (List.map snd groups))).
Proof.
  intros m events drm groups. induction groups as [| [name userIds] groups IH].
  - reflexivity.
  - cbn [List.map List.concat snd sum_Z]. rewrite length_app, Nat2Z.inj_add, <- IH.
    reflexivity.
Qed.

(** X10: the [athleteCount]s of the gyms add up to the number of
    athletes on the division leaderboards: every athlete is counted in
    exactly one gym. *)
Theorem gym_counts_cover_athletes :
  forall JSON_parse String_trim localeCompare roundWeighted db competitionId resp,
    getLeaderboard JSON_parse String_trim localeCompare roundWeighted db competitionId
    = Normal resp ->
    sum_Z (List.map gym_athleteCount (gyms resp))
    = Z.of_nat (List.length (allAthletes resp)).
Proof.
  intros P S L R db cid resp H.
  destruct (getLeaderboard_cases _ _ _ _ _ _ _ H)
    as [(Hd & Hgym & _) | (track & m0 & _ & _ & _ & Hm0 & Hd & Hgym)].
  { unfold allAthletes. rewrite Hd, Hgym. reflexivity. }
  unfold allAthletes. rewrite Hd, Hgym.
  set (events := selectEvents db (track_id track)).
  set (allScores := selectScores db (List.map ev_id events)
                      (List.map reg_userId (selectRegistrations db cid))).
  set (m := computeResults L R events allScores m0).
  rewrite buildGyms_unfiltered.
  rewrite rankByTotal_map by reflexivity.
  rewrite (sum_Z_perm _ _ (Permutation_map gym_athleteCount (Array_sort_perm _ _))).
  rewrite map_map, buildGym_counts.
  rewrite (Permutation_length (groupGyms_contents m)).
  rewrite <- (length_map la_userId).
  rewrite (Permutation_length (divisions_userIds m)).
  reflexivity.
Qed.

Lemma gym_counts_cover_athletes_witness :
  sum_Z (List.map gym_athleteCount (gyms sampleResponse)) = 4.
Proof.
  exact (gym_counts_cover_athletes neverParses trimAscii compareCodeUnits roundExact
           dbSample "comp_1" sampleResponse eq_refl).
Defined.

(** The division rank map *)

Lemma fold_set_other :
  forall (A V : Type) (key : A -> string) (val : A -> V) (l : list A) acc k,
    ~ In k (List.map key l) ->
    map_get String.eqb k
      (fold_left (fun m' a => map_set String.eqb (key a) (val a) m') l acc)
    = map_get String.eqb k acc.
Proof.
  intros A V key val l. induction l as [| a l IH]; intros acc k Hk; simpl.
  - reflexivity.
  - rewrite IH by (intros Hin; apply Hk; now right).
    rewrite map_get_set.
    destruct (String.eqb_spec (key a) k) as [Heq | _]; [| reflexivity].
    exfalso. apply Hk. left. exact Heq.
Qed.

Lemma fold_set_get :
  forall (A V : Type) (key : A -> string) (val : A -> V) (l : list A) acc x,
    NoDup (List.map key l) -> In x l ->
    map_get String.eqb (key x)
      (fold_left (fun m' a => map_set String.eqb (key a) (val a) m') l acc)
    = Some (val x).
Proof.
  intros A V key val l. induction l as [| a l IH]; intros acc x Hnd Hin.
  - contradiction.
  - simpl in Hnd. inversion Hnd as [| ? ? Hnotin Hnd']; subst. simpl.
    destruct Hin as [-> | Hin].
    + rewrite fold_set_other by exact Hnotin.
      rewrite map_get_set. now rewrite String.eqb_refl.
    + now apply IH.
Qed.

Lemma buildDivisionRankMap_get :
  forall groups la,
    NoDup (List.map la_userId (List.concat (List.map div_athletes (map_values groups)))) ->
    In la (List.concat (List.map div_athletes (map_values groups))) ->
    map_get String.eqb (la_userId la) (buildDivisionRankMap groups) = Some (la_rank la).
Proof.
  intros groups la Hnd Hin. unfold buildDivisionRankMap.
  rewrite (fold_left_concat_map _ _ _
             (fun m' a => map_set String.eqb (la_userId a) (la_rank a) m') div_athletes).
  now apply (fold_set_get _ _ la_userId la_rank).
Qed.

Lemma divisions_userIds_NoDup :
  forall m, WellKeyed m ->
    NoDup (List.map la_userId
             (List.concat (List.map div_athletes (map_values (buildDivisions m))))).
Proof.
  intros m Hwk.
  apply (Permutation_NoDup (Permutation_sym (divisions_userIds m))).
  rewrite (WellKeyed_userIds m Hwk). apply Hwk.
Qed.

(** X11: every athlete entry of a gym is the entry of an athlete of a
    division leaderboard: it has that athlete's name, its
    [divisionRank] is the athlete's rank in the division, it lists
    the published events in order, and its points for an event are the
    points of the athlete's first result for that event. *)
Theorem gym_entry_matches_division_athlete :
  forall JSON_parse String_trim localeCompare roundWeighted db competitionId resp track,
    getLeaderboard JSON_parse String_trim localeCompare roundWeighted db competitionId
    = Normal resp ->
    selectTrack db competitionId = Some track ->
    let events := selectEvents db (track_id track) in
    forall g e, In g (gyms resp) -> In e (gym_athletes g) ->
      exists la,
        In la (allAthletes resp)
        /\ gae_name e = la_name la
        /\ gae_divisionRank e = la_rank la
        /\ List.map ge_eventId (gae_events e) = List.map ev_id events
        /\ List.map ge_eventName (gae_events e) = List.map ev_workoutName events
        /\ List.map ge_points (gae_events e)
           = List.map (fun ev => resultPoints (ev_id ev) (la_events la)) events.
Proof.
  intros P S L R db cid resp track H Htrack events g e Hg He.
  destruct (getLeaderboard_cases _ _ _ _ _ _ _ H)
    as [(_ & Hgym & _) | (track' & m0 & Htrack' & _ & _ & Hm0 & Hd & Hgym)].
  { rewrite Hgym in Hg. contradiction. }
  rewrite Htrack in Htrack'. injection Htrack' as <-.
  fold events in Hd, Hgym.
  set (allScores := selectScores db (List.map ev_id events)
                      (List.map reg_userId (selectRegistrations db cid))) in *.
  set (m := computeResults L R events allScores m0) in *.
  assert (Hwk : WellKeyed m).
  { apply computeResults_WellKeyed. eapply buildAthleteMap_WellKeyed. exact Hm0. }
  rewrite Hgym in Hg.
  destruct (gym_origin _ _ _ _ Hg) as (name & userIds & r & Hin & ->).
  cbn [gym_athletes setGymRank buildGym] in He.
  apply Array_sort_In in He. apply in_map_iff in He. destruct He as (uid & <- & Huid).
  destruct (groupGyms_known m name userIds Hwk Hin) as [_ Hknown].
  specialize (Hknown uid Huid).
  destruct (map_get_Some_key _ m uid Hknown) as [athlete Hget].
  assert (Hla : In uid (List.map la_userId
                          (List.concat (List.map div_athletes
                                          (map_values (buildDivisions m)))))).
  { apply (Permutation_in _ (Permutation_sym (divisions_userIds m))).
    rewrite (WellKeyed_userIds m Hwk). exact Hknown. }
  apply in_map_iff in Hla. destruct Hla as (la & Hid & Hla).
  assert (Hrec : exists rk, la = setAthleteRank rk (toLeaderboardAthlete athlete)).
  { apply in_concat in Hla. destruct Hla as (ds & Hds & Hlads).
    apply in_map_iff in Hds. destruct Hds as (d & <- & Hdin).
    destruct (division_athlete_origin m d la Hdin Hlads) as (k & athlete' & rk & Hk & ->).
    exists rk. simpl in Hid.
    destruct Hwk as [Hnd Hkeys]. rewrite Forall_forall in Hkeys.
    pose proof (Hkeys _ Hk) as Hkk. simpl in Hkk.
    rewrite Hid in Hkk. subst k.
    pose proof (In_map_get _ _ _ Hnd Hk) as Hget'.
    rewrite Hget in Hget'. now injection Hget' as <-. }
  destruct Hrec as (rk & Hrec).
  exists la. split; [unfold allAthletes; now rewrite Hd |].
  assert (Hath : getAthlete m uid = athlete).
  { unfold getAthlete. now rewrite Hget. }
  split; [| split; [| split; [| split]]].
  - unfold buildEntry. cbn [gae_name]. rewrite Hath, Hrec. reflexivity.
  - unfold buildEntry. cbn [gae_divisionRank].
    rewrite <- Hid.
    rewrite (buildDivisionRankMap_get (buildDivisions m) la
               (divisions_userIds_NoDup m Hwk) Hla).
    reflexivity.
  - rewrite buildEntry_events, map_map. reflexivity.
  - rewrite buildEntry_events, map_map. reflexivity.
  - rewrite buildEntry_events, map_map, Hath, Hrec. reflexivity.
Qed.

Lemma gym_entry_matches_division_athlete_witness :
  Forall
    (fun g =>
       Forall
         (fun e =>
            exists la,
              In la (allAthletes sampleResponse)
              /\ gae_name e = la_name la
              /\ gae_divisionRank e = la_rank la
              /\ List.map ge_eventId (gae_events e) = ["e1"]
              /\ List.map ge_eventName (gae_events e) = ["Workout"]
              /\ List.map ge_points (gae_events e)
                 = [resultPoints "e1" (la_events la)])
         (gym_athletes g))
    (gyms sampleResponse).
Proof.
  apply Forall_forall. intros g Hg. apply Forall_forall. intros e He.
  exact (gym_entry_matches_division_athlete neverParses trimAscii compareCodeUnits
           roundExact dbSample "comp_1" sampleResponse {| track_id := "track_1" |}
           eq_refl eq_refl g e Hg He).
Defined.

(* ------------------------------------------------------------------ *)
(** ** Names and labels *)
(* ------------------------------------------------------------------ *)

Lemma or_default_nonempty :
  forall s d, d <> "" -> or_default s d <> "".
Proof.
  intros s d Hd. unfold or_default, truthy_string.
  destruct s as [s' |]; [| exact Hd].
  destruct (String.eqb_spec s' ""); simpl; assumption.
Qed.

Lemma GroupNamed_weaken :
  forall pool pool' kd,
    (forall a, In a pool -> In a pool') -> GroupNamed pool kd -> GroupNamed pool' kd.
Proof.
  intros pool pool' kd Hsub (ath & Hin & Hid & Hname).
  exists ath. repeat split; auto.
Qed.

Lemma addToDivision_named :
  forall pool groups athlete,
    Forall (GroupNamed pool) groups ->
    Forall (GroupNamed (pool ++ [athlete])) (addToDivision groups athlete).
Proof.
  intros pool groups ath Hg.
  assert (Hsub : forall a, In a pool -> In a (pool ++ [ath])).
  { intros a Ha. apply in_or_app. now left. }
  induction Hg as [| [k0 d0] groups H0 Hg IH].
  - unfold addToDivision. simpl. rewrite String.eqb_refl. simpl.
    constructor; [| constructor]. exists ath. repeat split.
    apply in_or_app. right. now left.
  - rewrite addToDivision_cons.
    destruct (String.eqb k0 (a_divisionId ath)).
    + constructor.
      * destruct H0 as (a & Hin & Hid & Hname). exists a. repeat split; auto.
      * eapply Forall_impl; [| exact Hg].
        intros kd. now apply GroupNamed_weaken.
    + constructor; [| exact IH].
      now apply (GroupNamed_weaken pool).
Qed.

Lemma groupDivisions_named :
  forall m, Forall (GroupNamed (map_values m)) (groupDivisions m).
Proof.
  intros m. unfold groupDivisions.
  assert (H : forall l pool acc,
             Forall (GroupNamed pool) acc ->
             Forall (GroupNamed (pool ++ l)) (fold_left addToDivision l acc)).
  { induction l as [| ath l IH]; intros pool acc Hacc; simpl.
    - now rewrite app_nil_r.
    - replace (pool ++ ath :: l) with ((pool ++ [ath]) ++ l)
        by (rewrite <- app_assoc; reflexivity).
      apply IH. now apply addToDivision_named. }
  apply (H (map_values m) [] []). constructor.
Qed.

Section RegistrationOf.
Variable JSON_parse : string -> Completion JValue.
Variable String_trim : string -> string.
Variable localeCompare : string -> string -> Z.
Variable roundWeighted : Z -> Z -> Z.

(** Every record of the final athlete map was built from the last
    registration of its user. *)
Lemma athlete_of_registration :
  forall regs m0 events allScores k athlete,
    buildAthleteMap JSON_parse String_trim regs [] = Normal m0 ->
    In (k, athlete) (computeResults localeCompare roundWeighted events allScores m0) ->
    exists reg,
      lastRegistration k regs = Some reg
      /\ In reg regs
      /\ a_userId athlete = k
      /\ a_name athlete = fullName String_trim reg
      /\ a_divisionId athlete = or_default (reg_divisionId reg) "open"
      /\ a_divisionLabel athlete = or_default (reg_divisionLabel reg) "Open".
Proof.
  intros regs m0 events allScores k ath Hm0 Hin.
  pose proof (buildAthleteMap_WellKeyed _ _ _ _ Hm0) as Hwk0.
  pose proof (computeResults_WellKeyed localeCompare roundWeighted events allScores
                m0 Hwk0) as Hwk.
  pose proof (In_map_get _ _ _ (proj1 Hwk) Hin) as Hget.
  destruct (map_get_Some_key _ m0 k) as [a0 Hget0].
  { rewrite <- (computeResults_keys localeCompare roundWeighted allScores events m0).
    apply in_map_iff. exists (k, ath). now split. }
  destruct (computeResults_athlete localeCompare roundWeighted allScores events m0 k a0
              Hget0)
    as (a' & Hget' & (Hid & Hname & Haff & Hdivid & Hlabel) & _).
  rewrite Hget in Hget'. injection Hget' as <-.
  pose proof (buildAthleteMap_last _ _ _ _ _ Hm0 k) as Hlast.
  destruct (lastRegistration k regs) as [reg |] eqn:Hreg.
  2:{ rewrite Hget0 in Hlast. discriminate. }
  destruct Hlast as (a0' & Hget0' & Hb1 & Hb2 & Hb3 & Hb4 & Hb5).
  rewrite Hget0 in Hget0'. injection Hget0' as <-.
  exists reg. split; [reflexivity |]. split.
  { unfold lastRegistration in Hreg. apply find_some in Hreg.
    apply in_rev. exact (proj1 Hreg). }
  split.
  { rewrite Hid, Hb1. now apply lastRegistration_userId in Hreg. }
  repeat split; congruence.
Qed.
End RegistrationOf.

(** X12: every division of the output carries the division id and the
    division label of a registration (with the defaults ["open"] and
    ["Open"]), and no name shown is empty: not a division's id or name,
    not an athlete's name, not the name or division of a gym's athlete
    entry. *)
Theorem labels_from_registrations :
  forall JSON_parse String_trim localeCompare roundWeighted db competitionId resp,
    getLeaderboard JSON_parse String_trim localeCompare roundWeighted db competitionId
    = Normal resp ->
    let regs := selectRegistrations db competitionId in
    (forall d, In d (divisions resp) ->
       (exists reg,
           In reg regs
           /\ div_id d = or_default (reg_divisionId reg) "open"
           /\ div_name d = or_default (reg_divisionLabel reg) "Open")
       /\ div_id d <> "" /\ div_name d <> ""
       /\ forall a, In a (div_athletes d) -> la_name a <> "")
    /\ (forall g e, In g (gyms resp) -> In e (gym_athletes g) ->
          (exists reg,
              In reg regs
              /\ gae_name e = fullName String_trim reg
              /\ gae_division e = or_default (reg_divisionLabel reg) "Open")
          /\ gae_name e <> "" /\ gae_division e <> "").
Proof.
  intros P S L R db cid resp H regs.
  destruct (getLeaderboard_cases _ _ _ _ _ _ _ H)
    as [(Hd & Hgym & _) | (track & m0 & _ & _ & _ & Hm0 & Hd & Hgym)].
  { rewrite Hd, Hgym. split; [intros d [] | intros g e []]. }
  set (events := selectEvents db (track_id track)) in *.
  set (allScores := selectScores db (List.map ev_id events)
                      (List.map reg_userId (selectRegistrations db cid))) in *.
  set (m := computeResults L R events allScores m0) in *.
  assert (Hwk : WellKeyed m).
  { apply computeResults_WellKeyed. eapply buildAthleteMap_WellKeyed. exact Hm0. }
  assert (Hopen : "open" <> "") by discriminate.
  assert (HOpen : "Open" <> "") by discriminate.
  assert (Hunknown : "Unknown" <> "") by discriminate.
  split.
  - intros d Hdin. rewrite Hd in Hdin.
    assert (Hreg : exists reg,
               In reg regs
               /\ div_id d = or_default (reg_divisionId reg) "open"
               /\ div_name d = or_default (reg_divisionLabel reg) "Open").
    { unfold map_values, buildDivisions in Hdin. rewrite map_map in Hdin.
      apply in_map_iff in Hdin. destruct Hdin as ([k d0] & <- & Hd0).
      pose proof (groupDivisions_named m) as Hnamed. rewrite Forall_forall in Hnamed.
      destruct (Hnamed _ Hd0) as (ath & Hath & Hid & Hname).
      pose proof (groupDivisions_ok m) as Hok. rewrite Forall_forall in Hok.
      destruct (Hok _ Hd0) as [Hkey _].
      cbn [fst snd] in *.
      unfold map_values in Hath. apply in_map_iff in Hath.
      destruct Hath as ([k' ath'] & Heq & Hin). simpl in Heq. subst ath'.
      destruct (athlete_of_registration P S L R regs m0 events allScores k' ath Hm0 Hin)
        as (reg & _ & Hregin & _ & _ & Hdivid & Hlabel).
      exists reg. split; [exact Hregin |].
      cbn [rankDivision div_id div_name]. split; congruence. }
    split; [exact Hreg |].
    destruct Hreg as (reg & _ & -> & ->).
    split; [now apply or_default_nonempty |].
    split; [now apply or_default_nonempty |].
    intros a Ha.
    destruct (division_athlete_origin m d a Hdin Ha) as (k & ath & r & Hin & ->).
    destruct (athlete_of_registration P S L R regs m0 events allScores k ath Hm0 Hin)
      as (reg' & _ & _ & _ & Hname & _).
    cbn [setAthleteRank toLeaderboardAthlete la_name]. rewrite Hname.
    unfold fullName. now apply or_default_nonempty.
  - intros g e Hg He. rewrite Hgym in Hg.
    destruct (gym_origin _ _ _ _ Hg) as (name & userIds & r & Hin & ->).
    cbn [gym_athletes setGymRank buildGym] in He.
    apply Array_sort_In in He. apply in_map_iff in He. destruct He as (uid & <- & Huid).
    destruct (groupGyms_known m name userIds Hwk Hin) as [_ Hknown].
    destruct (map_get_Some_key _ m uid (Hknown uid Huid)) as [athlete Hget].
    destruct (athlete_of_registration P S L R regs m0 events allScores uid athlete Hm0
                (map_get_In _ _ _ Hget))
      as (reg & _ & Hregin & _ & Hname & _ & Hlabel).
    unfold buildEntry, getAthlete. rewrite Hget. cbn [gae_name gae_division].
    rewrite Hname, Hlabel.
    split; [exists reg; repeat split; assumption |].
    split; [unfold fullName |]; now apply or_default_nonempty.
Qed.

Lemma labels_from_registrations_witness :
  let regs := selectRegistrations dbSample "comp_1" in
  (forall d, In d (divisions sampleResponse) ->
     (exists reg,
         In reg regs
         /\ div_id d = or_default (reg_divisionId reg) "open"
         /\ div_name d = or_default (reg_divisionLabel reg) "Open")
     /\ div_id d <> "" /\ div_name d <> ""
     /\ forall a, In a (div_athletes d) -> la_name a <> "")
  /\ (forall g e, In g (gyms sampleResponse) -> In e (gym_athletes g) ->
        (exists reg,
            In reg regs
            /\ gae_name e = fullName trimAscii reg
            /\ gae_division e = or_default (reg_divisionLabel reg) "Open")
        /\ gae_name e <> "" /\ gae_division e <> "").
Proof.
  exact (labels_from_registrations neverParses trimAscii compareCodeUnits
           roundExact dbSample "comp_1" sampleResponse eq_refl).
Defined.

(* ------------------------------------------------------------------ *)
(** ** The HTTP entry point *)
(* ------------------------------------------------------------------ *)

(** *** The route *)

Lemma substring_all : forall s, String.substring 0 (String.length s) s = s.
Proof. induction s as [| c s IH]; simpl; [reflexivity | now rewrite IH]. Qed.

Lemma prefix_split :
  forall s1 s2,
    String.prefix s1 s2 = true ->
    s2 = String.append s1
           (String.substring (String.length s1) (String.length s2 - String.length s1) s2).
Proof.
  induction s1 as [| a s1 IH]; intros s2 H.
  - simpl. rewrite Nat.sub_0_r. symmetry. apply substring_all.
  - destruct s2 as [| b s2]; simpl in H; [discriminate |].
    destruct (ascii_dec a b) as [<- | _]; [| discriminate].
    simpl. f_equal. now apply IH.
Qed.

Lemma prefix_append :
  forall s1 rest, String.prefix s1 (String.append s1 rest) = true.
Proof.
  induction s1 as [| a s1 IH]; intros rest; simpl.
  - now destruct rest.
  - destruct (ascii_dec a a) as [_ | Hne]; [apply IH | now elim Hne].
Qed.

Lemma substring_append :
  forall s1 rest,
    String.substring (String.length s1)
      (String.length (String.append s1 rest) - String.length s1) (String.append s1 rest)
    = rest.
Proof.
  induction s1 as [| a s1 IH]; intros rest; simpl.
  - rewrite Nat.sub_0_r. apply substring_all.
  - apply IH.
Qed.

(** X13: the route [/^\/leaderboard\/([^/]+)$/] matches exactly the
    paths [/leaderboard/<segment>] with a non-empty segment that holds
    no slash, and captures that segment. *)
Theorem matchLeaderboard_exact :
  forall pathname segment,
    matchLeaderboard pathname = Some segment
    <-> pathname = String.append "/leaderboard/" segment
        /\ segment <> "" /\ hasSlash segment = false.
Proof.
  intros p seg. unfold matchLeaderboard. split.
  - destruct (String.prefix "/leaderboard/" p) eqn:Hp; [| discriminate].
    apply prefix_split in Hp.
    change (String.length "/leaderboard/") with 13%nat in Hp.
    set (rest := String.substring 13 (String.length p - 13) p) in *.
    destruct (String.eqb_spec rest "") as [He | Hne]; simpl; [discriminate |].
    destruct (hasSlash rest) eqn:Hs; [discriminate |].
    intros H. injection H as <-. auto.
  - intros (-> & Hne & Hs).
    rewrite prefix_append.
    pose proof (substring_append "/leaderboard/" seg) as Hsub.
    change (String.length "/leaderboard/") with 13%nat in Hsub.
    rewrite Hsub.
    destruct (String.eqb_spec seg "") as [He | _]; [contradiction |].
    simpl. now rewrite Hs.
Qed.

(** *** Cases of a request *)

Section HttpFacts.
Variable decodeURIComponent : string -> Completion string.
Variable rejectionMessage : string -> string.
Variable JSON_parse : string -> Completion JValue.
Variable String_trim : string -> string.
Variable localeCompare : string -> string -> Z.
Variable roundWeighted : Z -> Z -> Z.

Local Notation "'handle'" := (handleRequest decodeURIComponent rejectionMessage JSON_parse
                      String_trim localeCompare roundWeighted).
Local Notation "'run'" := (runLeaderboard rejectionMessage JSON_parse String_trim localeCompare
                   roundWeighted).
Local Notation "'cors'" := (corsHeaders String_trim).
Local Notation "'fetch''" := (fetch decodeURIComponent rejectionMessage JSON_parse
                                String_trim localeCompare roundWeighted).

Lemma handleRequest_cases :
  forall request env backend,
    (req_method request = "OPTIONS"
     /\ handle request env backend
        = Normal {| res_status := 204; res_headers := cors request env;
                    res_body := NoBody |})
    \/ (req_method request <> "OPTIONS"
        /\ (matchLeaderboard (req_pathname request) = None
            \/ req_method request <> "GET")
        /\ handle request env backend
           = Normal (Response_json (ErrorBody "Not found") 404 (cors request env)))
    \/ (req_method request = "GET"
        /\ exists segment,
             matchLeaderboard (req_pathname request) = Some segment
             /\ ((exists message,
                     decodeURIComponent segment = Throw message
                     /\ handle request env backend = Throw message)
                 \/ (exists idOrSlug,
                        decodeURIComponent segment = Normal idOrSlug
                        /\ ((resolveCompetitionId backend idOrSlug = None
                             /\ handle request env backend
                                = Normal (Response_json
                                            (ErrorBody "Competition not found") 404
                                            (cors request env)))
                            \/ (exists id,
                                   resolveCompetitionId backend idOrSlug = Some id
                                   /\ handle request env backend
                                      = Normal (run request env backend id)))))).
Proof.
  intros request env backend. unfold handleRequest, resolveCompetitionId.
  destruct (String.eqb_spec (req_method request) "OPTIONS") as [Ho | Ho].
  { left. now split. }
  right.
  destruct (matchLeaderboard (req_pathname request)) as [segment |].
  2:{ left. split; [exact Ho |]. split; [now left | reflexivity]. }
  destruct (String.eqb_spec (req_method request) "GET") as [Hg | Hg]; simpl.
  2:{ left. split; [exact Ho |]. split; [now right | reflexivity]. }
  right. split; [exact Hg |]. exists segment. split; [reflexivity |].
  destruct (decodeURIComponent segment) as [idOrSlug | message]; simpl.
  2:{ left. exists message. now split. }
  right. exists idOrSlug. split; [reflexivity |].
  destruct (String.prefix "comp_" idOrSlug); simpl.
  - right. exists idOrSlug. now split.
  - destruct (selectCompetitionIdBySlug backend idOrSlug) as [id |].
    + right. exists id. now split.
    + left. now split.
Qed.

Lemma getLeaderboard_throw :
  forall db competitionId failure,
    getLeaderboard JSON_parse String_trim localeCompare roundWeighted db competitionId
    = Throw failure ->
    failure = "Competition not found" /\ selectCompetition db competitionId = None.
Proof.
  intros db cid failure H. unfold getLeaderboard in H.
  destruct (selectCompetition db cid) as [comp |].
  - exfalso.
    destruct (selectTrack db cid) as [track |]; [| discriminate].
    destruct (selectEvents db (track_id track)); [discriminate |].
    destruct (selectRegistrations db cid) as [| reg regs]; [discriminate |].
    destruct (buildAthleteMap_total JSON_parse String_trim (reg :: regs) []) as [m0 Hm0].
    rewrite Hm0 in H. simpl in H. discriminate.
  - injection H as <-. now split.
Qed.

Lemma runLeaderboard_cases :
  forall request env backend id,
    (exists result,
        getLeaderboard JSON_parse String_trim localeCompare roundWeighted
          (backend_db backend) id = Normal result
        /\ run request env backend id
           = Response_json (LeaderboardBody result) 200
               (cors request env
                ++ [ ("Content-Type", "application/json");
                     ("Cache-Control", "s-maxage=60") ]))
    \/ (selectCompetition (backend_db backend) id = None
        /\ run request env backend id
           = Response_json (ErrorBody (rejectionMessage "Competition not found"))
               (if String.eqb (rejectionMessage "Competition not found")
                     "Competition not found" then 404 else 500)
               (cors request env)).
Proof.
  intros request env backend id. unfold runLeaderboard.
  destruct (getLeaderboard JSON_parse String_trim localeCompare roundWeighted
              (backend_db backend) id) as [result | failure] eqn:H.
  - left. exists result. now split.
  - right. apply getLeaderboard_throw in H. destruct H as [-> Hnone].
    now split.
Qed.


Lemma fetch_cases :
  forall request env backend,
    let response := fetch' request env backend in
    (req_method request = "OPTIONS"
     /\ response = {| res_status := 204; res_headers := cors request env;
                      res_body := NoBody |})
    \/ (req_method request <> "OPTIONS"
        /\ (matchLeaderboard (req_pathname request) = None
            \/ req_method request <> "GET")
        /\ response = Response_json (ErrorBody "Not found") 404 (cors request env))
    \/ (req_method request = "GET"
        /\ exists segment,
             matchLeaderboard (req_pathname request) = Some segment
             /\ ((exists message,
                     decodeURIComponent segment = Throw message
                     /\ response = Response_json (ErrorBody message) 500 [])
                 \/ (exists idOrSlug,
                        decodeURIComponent segment = Normal idOrSlug
                        /\ ((resolveCompetitionId backend idOrSlug = None
                             /\ response
                                = Response_json (ErrorBody "Competition not found") 404
                                    (cors request env))
                            \/ (exists id,
                                   resolveCompetitionId backend idOrSlug = Some id
                                   /\ ((exists result,
                                           getLeaderboard JSON_parse String_trim
                                             localeCompare roundWeighted
                                             (backend_db backend) id = Normal result
                                           /\ response
                                              = Response_json (LeaderboardBody result) 200
                                                  (cors request env
                                                   ++ [ ("Content-Type",
                                                         "application/json");
                                                        ("Cache-Control",
                                                         "s-maxage=60") ]))
                                       \/ (selectCompetition (backend_db backend) id
                                           = None
                                           /\ response
                                              = Response_json
                                                  (ErrorBody
                                                     (rejectionMessage
                                                        "Competition not found"))
                                                  (if String.eqb
                                                        (rejectionMessage
                                                           "Competition not found")
                                                        "Competition not found"
                                                   then 404 else 500)
                                                  (cors request env)))))))).
Proof.
  intros request env backend response. unfold response, fetch.
  destruct (handleRequest_cases request env backend)
    as [(Hm & ->) | [(Hm & Hwhy & ->)
       | (Hm & segment & Hseg
          & [(message & Hdec & ->)
            | (idOrSlug & Hdec & [(Hres & ->) | (id & Hres & ->)])])]].
  - left. now split.
  - right. left. now split.
  - right. right. split; [exact Hm |]. exists segment. split; [exact Hseg |].
    left. exists message. now split.
  - right. right. split; [exact Hm |]. exists segment. split; [exact Hseg |].
    right. exists idOrSlug. split; [exact Hdec |]. left. now split.
  - right. right. split; [exact Hm |]. exists segment. split; [exact Hseg |].
    right. exists idOrSlug. split; [exact Hdec |]. right. exists id.
    split; [exact Hres |].
    destruct (runLeaderboard_cases request env backend id)
      as [(result & Hget & ->) | (Hnone & ->)].
    + left. exists result. now split.
    + right. now split.
Qed.



End HttpFacts.

(** X14: the worker answers with status 200, 204, 404 or 500 only; 204
    is the answer to [OPTIONS] and to nothing else, and the only one
    without a body; the 200 answers are the ones that carry a
    leaderboard, and the only ones with a [Cache-Control] header. *)
Theorem fetch_status_and_body :
  forall decodeURIComponent rejectionMessage JSON_parse String_trim localeCompare
         roundWeighted request env backend,
    let response :=
      fetch decodeURIComponent rejectionMessage JSON_parse String_trim localeCompare
        roundWeighted request env backend in
    In (res_status response) [200; 204; 404; 500]
    /\ (res_status response = 204 <-> req_method request = "OPTIONS")
    /\ (res_status response = 204 <-> res_body response = NoBody)
    /\ (res_status response = 200
        <-> exists result, res_body response = LeaderboardBody result)
    /\ header "Cache-Control" response
       = if res_status response =? 200 then Some "s-maxage=60" else None.
Proof.
  intros D J P S L R request env backend response.
  destruct (fetch_cases D J P S L R request env backend)
    as [(Hm & Hr) | [(Hm & Hwhy & Hr)
       | (Hm & segment & Hseg
          & [(message & Hdec & Hr)
            | (idOrSlug & Hdec
               & [(Hres & Hr)
                 | (id & Hres & [(result & Hget & Hr) | (Hnone & Hr)])])])]];
    fold response in Hr; rewrite Hr; unfold header, Response_json;
    cbn [res_status res_body res_headers].
  - repeat split; try (intros; auto; fail).
    + simpl. tauto.
    + intros H. discriminate.
    + intros [result H]. discriminate.
  - repeat split; try discriminate; try (intros H; contradiction).
    + simpl. tauto.
    + intros [result H]. discriminate.
  - assert (Ho : req_method request <> "OPTIONS") by (rewrite Hm; discriminate).
    repeat split; try discriminate; try (intros H; contradiction).
    + simpl. tauto.
    + intros [result H]. discriminate.
  - assert (Ho : req_method request <> "OPTIONS") by (rewrite Hm; discriminate).
    repeat split; try discriminate; try (intros H; contradiction).
    + simpl. tauto.
    + intros [result H]. discriminate.
  - assert (Ho : req_method request <> "OPTIONS") by (rewrite Hm; discriminate).
    repeat split; try discriminate; try (intros H; contradiction).
    + simpl. tauto.
    + intros _. now exists result.
  - assert (Ho : req_method request <> "OPTIONS") by (rewrite Hm; discriminate).
    destruct (String.eqb (J "Competition not found") "Competition not found");
      (repeat split; try discriminate; try (intros H; contradiction);
       [simpl; tauto | intros [result H]; discriminate]).
Qed.

(** X15: a 200 answer is always the answer to a [GET] of
    [/leaderboard/<segment>] whose decoded segment resolved to a
    competition id, and its body is the leaderboard the service
    computed for that id. *)
Theorem fetch_success_is_leaderboard :
  forall decodeURIComponent rejectionMessage JSON_parse String_trim localeCompare
         roundWeighted request env backend,
    let response :=
      fetch decodeURIComponent rejectionMessage JSON_parse String_trim localeCompare
        roundWeighted request env backend in
    res_status response = 200 ->
    req_method request = "GET"
    /\ exists segment idOrSlug id result,
         matchLeaderboard (req_pathname request) = Some segment
         /\ decodeURIComponent segment = Normal idOrSlug
         /\ resolveCompetitionId backend idOrSlug = Some id
         /\ getLeaderboard JSON_parse String_trim localeCompare roundWeighted
              (backend_db backend) id = Normal result
         /\ res_body response = LeaderboardBody result
         /\ res_headers response
            = corsHeaders String_trim request env
              ++ [ ("Content-Type", "application/json");
                   ("Cache-Control", "s-maxage=60") ].
Proof.
  intros D J P S L R request env backend response Hstatus.
  destruct (fetch_cases D J P S L R request env backend)
    as [(Hm & Hr) | [(Hm & Hwhy & Hr)
       | (Hm & segment & Hseg
          & [(message & Hdec & Hr)
            | (idOrSlug & Hdec
               & [(Hres & Hr)
                 | (id & Hres & [(result & Hget & Hr) | (Hnone & Hr)])])])]];
    fold response in Hr; rewrite Hr in *; cbn [res_status Response_json] in Hstatus;
    try discriminate.
  - split; [exact Hm |]. exists segment, idOrSlug, id, result.
    repeat split; assumption.
  - destruct (String.eqb (J "Competition not found") "Competition not found");
      discriminate.
Qed.

Lemma fetch_success_is_leaderboard_witness :
  req_method (sampleRequest "GET" "/leaderboard/winter-open" None) = "GET"
  /\ exists segment idOrSlug id result,
       matchLeaderboard "/leaderboard/winter-open" = Some segment
       /\ decodePlain segment = Normal idOrSlug
       /\ resolveCompetitionId sampleBackend idOrSlug = Some id
       /\ getLeaderboard neverParses trimAscii compareCodeUnits roundExact
            dbOneCompetition id = Normal result
       /\ res_body (sampleFetch (sampleRequest "GET" "/leaderboard/winter-open" None))
          = LeaderboardBody result
       /\ res_headers (sampleFetch (sampleRequest "GET" "/leaderboard/winter-open" None))
          = corsHeaders trimAscii (sampleRequest "GET" "/leaderboard/winter-open" None)
              sampleEnv
            ++ [ ("Content-Type", "application/json");
                 ("Cache-Control", "s-maxage=60") ].
Proof.
  exact (fetch_success_is_leaderboard decodePlain keepMessage neverParses trimAscii
           compareCodeUnits roundExact
           (sampleRequest "GET" "/leaderboard/winter-open" None) sampleEnv sampleBackend
           eq_refl).
Defined.



(** X17: with a runtime that rejects with the message of the failure,
    the worker answers 500 exactly when the path segment of a [GET]
    of [/leaderboard/<segment>] cannot be decoded; the body then holds
    the message of the decoding error.  The leaderboard service itself
    never causes a 500. *)
Theorem fetch_server_error_only_on_malformed_escape :
  forall decodeURIComponent rejectionMessage JSON_parse String_trim localeCompare
         roundWeighted request env backend,
    rejectionMessage "Competition not found" = "Competition not found" ->
    let response :=
      fetch decodeURIComponent rejectionMessage JSON_parse String_trim localeCompare
        roundWeighted request env backend in
    res_status response = 500
    <-> req_method request = "GET"
        /\ exists segment message,
             matchLeaderboard (req_pathname request) = Some segment
             /\ decodeURIComponent segment = Throw message
             /\ response = Response_json (ErrorBody message) 500 [].
Proof.
  intros D J P S L R request env backend Hkeep response.
  destruct (fetch_cases D J P S L R request env backend)
    as [(Hm & Hr) | [(Hm & Hwhy & Hr)
       | (Hm & segment & Hseg
          & [(message & Hdec & Hr)
            | (idOrSlug & Hdec
               & [(Hres & Hr)
                 | (id & Hres & [(result & Hget & Hr) | (Hnone & Hr)])])])]];
    fold response in Hr; rewrite Hr; cbn [res_status Response_json].
  - split; [discriminate |]. intros (Hg & _). rewrite Hm in Hg. discriminate.
  - split; [discriminate |].
    intros (Hg & segment & message & Hseg & _).
    destruct Hwhy as [Hnone | Hne]; [rewrite Hnone in Hseg; discriminate | contradiction].
  - split; [| reflexivity]. intros _. split; [exact Hm |].
    exists segment, message. repeat split; assumption.
  - split; [discriminate |].
    intros (_ & segment' & message & Hseg' & Hdec' & _).
    rewrite Hseg in Hseg'. injection Hseg' as <-. rewrite Hdec in Hdec'. discriminate.
  - split; [discriminate |].
    intros (_ & segment' & message & Hseg' & Hdec' & _).
    rewrite Hseg in Hseg'. injection Hseg' as <-. rewrite Hdec in Hdec'. discriminate.
  - rewrite Hkeep. simpl. split; [discriminate |].
    intros (_ & segment' & message & Hseg' & Hdec' & _).
    rewrite Hseg in Hseg'. injection Hseg' as <-. rewrite Hdec in Hdec'. discriminate.
Qed.

Lemma fetch_server_error_only_on_malformed_escape_witness :
  res_status (sampleFetch (sampleRequest "GET" "/leaderboard/100%" None)) = 500.
Proof.
  apply (fetch_server_error_only_on_malformed_escape decodePlain keepMessage neverParses
           trimAscii compareCodeUnits roundExact
           (sampleRequest "GET" "/leaderboard/100%" None) sampleEnv sampleBackend
           eq_refl).
  split; [reflexivity |].
  exists "100%", "URI malformed". repeat split.
Defined.



(** X19: requests that are not a [GET] of [/leaderboard/<segment>] are
    answered without the database: [OPTIONS] with 204 and no body,
    anything else with 404 and the error ["Not found"], whatever the
    backend holds. *)
Theorem other_requests_skip_the_backend :
  forall decodeURIComponent rejectionMessage JSON_parse String_trim localeCompare
         roundWeighted request env backend backend',
    req_method request <> "GET"
    \/ matchLeaderboard (req_pathname request) = None ->
    let response :=
      fetch decodeURIComponent rejectionMessage JSON_parse String_trim localeCompare
        roundWeighted request env backend in
    response
    = fetch decodeURIComponent rejectionMessage JSON_parse String_trim localeCompare
        roundWeighted request env backend'
    /\ response
       = if String.eqb (req_method request) "OPTIONS"
         then {| res_status := 204;
                 res_headers := corsHeaders String_trim request env;
                 res_body := NoBody |}
         else Response_json (ErrorBody "Not found") 404
                (corsHeaders String_trim request env).
Proof.
  intros D J P S L R request env backend backend' Hwhy response.
  assert (H : forall b,
             fetch D J P S L R request env b
             = if String.eqb (req_method request) "OPTIONS"
               then {| res_status := 204;
                       res_headers := corsHeaders S request env;
                       res_body := NoBody |}
               else Response_json (ErrorBody "Not found") 404
                      (corsHeaders S request env)).
  { intros b.
    destruct (fetch_cases D J P S L R request env b)
      as [(Hm & Hr) | [(Hm & _ & Hr) | (Hm & segment & Hseg & _)]].
    - rewrite Hr. apply String.eqb_eq in Hm. now rewrite Hm.
    - rewrite Hr. apply String.eqb_neq in Hm. now rewrite Hm.
    - destruct Hwhy as [Hne | Hnone]; [contradiction |].
      rewrite Hnone in Hseg. discriminate. }
  unfold response. split; [now rewrite !H | apply H].
Qed.

Lemma other_requests_skip_the_backend_witness :
  sampleFetch (sampleRequest "POST" "/leaderboard/comp_1" None)
  = Response_json (ErrorBody "Not found") 404
      (corsHeaders trimAscii (sampleRequest "POST" "/leaderboard/comp_1" None) sampleEnv).
Proof.
  assert (Hmethod : req_method (sampleRequest "POST" "/leaderboard/comp_1" None) <> "GET")
    by discriminate.
  unfold sampleFetch.
  rewrite (proj2 (other_requests_skip_the_backend decodePlain keepMessage neverParses
                    trimAscii compareCodeUnits roundExact
                    (sampleRequest "POST" "/leaderboard/comp_1" None) sampleEnv
                    sampleBackend sampleBackend (or_introl Hmethod))).
  reflexivity.
Defined.

(** X20: without configured origins ([ALLOWED_ORIGINS] unset or empty)
    the allowed origin sent is ["*"] for a request that names an
    origin, and the empty string for a request without [Origin]
    header. *)
Theorem cors_origin_unconfigured :
  forall String_trim request env,
    String_trim "" = "" ->
    or_default (ALLOWED_ORIGINS env) "" = "" ->
    corsOrigin String_trim request env
    = if truthy_string (req_origin request) then "*" else "".
Proof.
  intros S request env Htrim Hnone.
  unfold corsOrigin, allowedOrigins. rewrite Hnone. cbn [splitOn List.map].
  rewrite Htrim. cbn [existsb first_or]. rewrite orb_false_r.
  unfold or_default.
  destruct (truthy_string (req_origin request)) eqn:Ht.
  - destruct (req_origin request) as [o |]; [| discriminate].
    simpl in Ht. apply negb_true_iff in Ht. rewrite Ht. reflexivity.
  - reflexivity.
Qed.

Lemma cors_origin_unconfigured_witness :
  corsOrigin trimAscii (sampleRequest "GET" "/" None) {| ALLOWED_ORIGINS := None |} = ""
  /\ corsOrigin trimAscii (sampleRequest "GET" "/" (Some "https://c.example"))
       {| ALLOWED_ORIGINS := Some "" |} = "*".
Proof.
  split.
  - exact (cors_origin_unconfigured trimAscii (sampleRequest "GET" "/" None)
             {| ALLOWED_ORIGINS := None |} eq_refl eq_refl).
  - exact (cors_origin_unconfigured trimAscii
             (sampleRequest "GET" "/" (Some "https://c.example"))
             {| ALLOWED_ORIGINS := Some "" |} eq_refl eq_refl).
Defined.

(* ------------------------------------------------------------------ *)
(** ** Gym membership *)
(* ------------------------------------------------------------------ *)

Lemma group_push_members :
  forall (P : JValue -> string -> Prop) k x groups,
    (forall name, (name = k \/ sameValueZero name k = true) -> P name x) ->
    Forall (fun g : JValue * list string => forall uid, In uid (snd g) -> P (fst g) uid)
      groups ->
    Forall (fun g : JValue * list string => forall uid, In uid (snd g) -> P (fst g) uid)
      (group_push sameValueZero k x groups).
Proof.
  intros P k x groups Hx Hall.
  induction Hall as [| [k0 ids] groups H0 Hall IH].
  - unfold group_push. simpl. constructor; [| constructor].
    simpl. intros uid [<- | []]. apply Hx. now left.
  - unfold group_push in *. simpl.
    destruct (sameValueZero k0 k) eqn:Hs.
    + constructor; [| exact Hall]. simpl. intros uid Huid.
      apply in_app_or in Huid. destruct Huid as [Huid | [<- | []]].
      * exact (H0 uid Huid).
      * apply Hx. now right.
    + constructor; [exact H0 | exact IH].
Qed.

Lemma groupGyms_members :
  forall m,
    Forall (fun g : JValue * list string =>
              forall uid, In uid (snd g) ->
                exists athlete,
                  In athlete (map_values m) /\ a_userId athlete = uid
                  /\ sameGym (fst g) (a_affiliateName athlete))
      (groupGyms m).
Proof.
  intros m. unfold groupGyms.
  assert (H : forall l pool acc,
             Forall (fun g : JValue * list string =>
                       forall uid, In uid (snd g) ->
                         exists athlete,
                           In athlete pool /\ a_userId athlete = uid
                           /\ sameGym (fst g) (a_affiliateName athlete)) acc ->
             Forall (fun g : JValue * list string =>
                       forall uid, In uid (snd g) ->
                         exists athlete,
                           In athlete (pool ++ l) /\ a_userId athlete = uid
                           /\ sameGym (fst g) (a_affiliateName athlete))
               (fold_left
                  (fun gymAthleteIds athlete =>
                     group_push sameValueZero (a_affiliateName athlete)
                       (a_userId athlete) gymAthleteIds) l acc)).
  { induction l as [| ath l IH]; intros pool acc Hacc; simpl.
    - now rewrite app_nil_r.
    - replace (pool ++ ath :: l) with ((pool ++ [ath]) ++ l)
        by (rewrite <- app_assoc; reflexivity).
      apply IH.
      apply (group_push_members
               (fun name uid =>
                  exists athlete,
                    In athlete (pool ++ [ath]) /\ a_userId athlete = uid
                    /\ sameGym name (a_affiliateName athlete))).
      + intros name Hname. exists ath. split; [apply in_or_app; right; now left |].
        split; [reflexivity | exact Hname].
      + eapply Forall_impl; [| exact Hacc].
        intros g Hg uid Huid. destruct (Hg uid Huid) as (a & Hin & Hid & Hsame).
        exists a. split; [apply in_or_app; now left | now split]. }
  apply (H (map_values m) [] []). constructor.
Qed.

(** X21: every athlete entry of a gym belongs to an athlete of the
    division leaderboards whose affiliate name is the gym's name: the
    very name that opened the gym, or one the [Map] of gyms takes for
    the same key.  For names that are strings the two are equal. *)
Theorem gym_members_share_affiliate :
  forall JSON_parse String_trim localeCompare roundWeighted db competitionId resp,
    getLeaderboard JSON_parse String_trim localeCompare roundWeighted db competitionId
    = Normal resp ->
    forall g e, In g (gyms resp) -> In e (gym_athletes g) ->
      exists la,
        In la (allAthletes resp)
        /\ gae_name e = la_name la
        /\ gae_divisionRank e = la_rank la
        /\ sameGym (gym_name g) (la_affiliateName la)
        /\ (forall s, la_affiliateName la = JStr s -> gym_name g = JStr s).
Proof.
  intros P S L R db cid resp H g e Hg He.
  destruct (getLeaderboard_cases _ _ _ _ _ _ _ H)
    as [(_ & Hgym & _) | (track & m0 & _ & _ & _ & Hm0 & Hd & Hgym)].
  { rewrite Hgym in Hg. contradiction. }
  set (events := selectEvents db (track_id track)) in *.
  set (allScores := selectScores db (List.map ev_id events)
                      (List.map reg_userId (selectRegistrations db cid))) in *.
  set (m := computeResults L R events allScores m0) in *.
  assert (Hwk : WellKeyed m).
  { apply computeResults_WellKeyed. eapply buildAthleteMap_WellKeyed. exact Hm0. }
  rewrite Hgym in Hg.
  destruct (gym_origin _ _ _ _ Hg) as (name & userIds & r & Hin & ->).
  cbn [gym_athletes gym_name setGymRank buildGym] in *.
  apply Array_sort_In in He. apply in_map_iff in He. destruct He as (uid & <- & Huid).
  pose proof (groupGyms_members m) as Hmem. rewrite Forall_forall in Hmem.
  destruct (Hmem _ Hin uid Huid) as (athlete & Hath & Hid & Hsame).
  cbn [fst snd] in *.
  unfold map_values in Hath. apply in_map_iff in Hath.
  destruct Hath as ([k athlete'] & Heq & Hkin). simpl in Heq. subst athlete'.
  assert (Hk : k = uid).
  { destruct Hwk as [_ Hkeys]. rewrite Forall_forall in Hkeys.
    pose proof (Hkeys _ Hkin) as Hkk. simpl in Hkk. congruence. }
  subst k.
  pose proof (In_map_get _ _ _ (proj1 Hwk) Hkin) as Hget.
  assert (Hla : In uid (List.map la_userId
                          (List.concat (List.map div_athletes
                                          (map_values (buildDivisions m)))))).
  { apply (Permutation_in _ (Permutation_sym (divisions_userIds m))).
    rewrite (WellKeyed_userIds m Hwk).
    apply in_map_iff. exists (uid, athlete). now split. }
  apply in_map_iff in Hla. destruct Hla as (la & Hlaid & Hla).
  assert (Hrec : exists rk, la = setAthleteRank rk (toLeaderboardAthlete athlete)).
  { apply in_concat in Hla. destruct Hla as (ds & Hds & Hlads).
    apply in_map_iff in Hds. destruct Hds as (d & <- & Hdin).
    destruct (division_athlete_origin m d la Hdin Hlads) as (k & athlete' & rk & Hk & ->).
    exists rk. simpl in Hlaid.
    destruct Hwk as [Hnd Hkeys]. rewrite Forall_forall in Hkeys.
    pose proof (Hkeys _ Hk) as Hkk. simpl in Hkk.
    rewrite Hlaid in Hkk. subst k.
    pose proof (In_map_get _ _ _ Hnd Hk) as Hget'.
    rewrite Hget in Hget'. now injection Hget' as <-. }
  destruct Hrec as (rk & Hrec).
  exists la. split; [unfold allAthletes; now rewrite Hd |].
  split; [| split; [| split]].
  - unfold buildEntry, getAthlete. rewrite Hget. rewrite Hrec. reflexivity.
  - unfold buildEntry. cbn [gae_divisionRank]. rewrite <- Hlaid.
    rewrite (buildDivisionRankMap_get (buildDivisions m) la
               (divisions_userIds_NoDup m Hwk) Hla).
    reflexivity.
  - rewrite Hrec. exact Hsame.
  - rewrite Hrec. cbn [la_affiliateName setAthleteRank toLeaderboardAthlete].
    intros s Hs. rewrite Hs in Hsame. destruct Hsame as [-> | Hsame]; [reflexivity |].
    destruct name; simpl in Hsame; try discriminate Hsame;
      try (match goal with f : spec_float |- _ => destruct f; discriminate Hsame end).
    apply String.eqb_eq in Hsame. now subst.
Qed.

Lemma gym_members_share_affiliate_witness :
  Forall
    (fun g =>
       Forall
         (fun e =>
            exists la,
              In la (allAthletes sampleResponse)
              /\ gae_name e = la_name la
              /\ gae_divisionRank e = la_rank la
              /\ sameGym (gym_name g) (la_affiliateName la)
              /\ (forall s, la_affiliateName la = JStr s -> gym_name g = JStr s))
         (gym_athletes g))
    (gyms sampleResponse).
Proof.
  apply Forall_forall. intros g Hg. apply Forall_forall. intros e He.
  exact (gym_members_share_affiliate neverParses trimAscii compareCodeUnits
           roundExact dbSample "comp_1" sampleResponse eq_refl g e Hg He).
Defined.

(* ------------------------------------------------------------------ *)
(** ** Score rows that do not count *)
(* ------------------------------------------------------------------ *)

Lemma fold_left_filter_skip :
  forall (A B : Type) (step : B -> A -> B) (keep : A -> bool) (l : list A) (acc : B),
    (forall x b, keep x = false -> step b x = b) ->
    fold_left step (filter keep l) acc = fold_left step l acc.
Proof.
  intros A B step keep l. induction l as [| x l IH]; intros acc Hskip; simpl.
  - reflexivity.
  - destruct (keep x) eqn:Hk; simpl.
    + now apply IH.
    + rewrite (Hskip x acc Hk). now apply IH.
Qed.

Section IrrelevantScores.
Variable localeCompare : string -> string -> Z.
Variable roundWeighted : Z -> Z -> Z.
Variable events : list EventRow.
Variable userIds : list string.

Lemma processEvent_relevant :
  forall allScores m ev,
    In ev events ->
    (forall uid, In uid (List.map fst m) -> In uid userIds) ->
    processEvent localeCompare roundWeighted
      (filter (isRelevant (List.map ev_id events) userIds) allScores) m ev
    = processEvent localeCompare roundWeighted allScores m ev.
Proof.
  intros allScores m ev Hev Hkeys. unfold processEvent.
  assert (Hc : collectDivisionScores m ev
                 (filter (isRelevant (List.map ev_id events) userIds) allScores)
               = collectDivisionScores m ev allScores).
  { unfold collectDivisionScores. apply fold_left_filter_skip.
    intros s acc Hrel. unfold isRelevant in Hrel.
    destruct (sc_competitionEventId s) as [eid |] eqn:Heid; simpl;
      [| reflexivity].
    destruct (String.eqb_spec eid (ev_id ev)) as [-> | Hne]; simpl; [| reflexivity].
    assert (Hhas : set_has (ev_id ev) (List.map ev_id events) = true).
    { unfold set_has. apply existsb_exists. exists (ev_id ev).
      split; [now apply in_map | apply String.eqb_refl]. }
    rewrite Hhas in Hrel. simpl in Hrel.
    destruct (map_get String.eqb (sc_userId s) m) as [athlete |] eqn:Hget;
      [| reflexivity].
    exfalso. apply map_get_In in Hget.
    assert (Hin : In (sc_userId s) userIds).
    { apply Hkeys. apply in_map_iff. exists (sc_userId s, athlete). now split. }
    assert (Ht : set_has (sc_userId s) userIds = true).
    { unfold set_has. apply existsb_exists. exists (sc_userId s).
      split; [exact Hin | apply String.eqb_refl]. }
    rewrite Ht in Hrel. discriminate. }
  now rewrite Hc.
Qed.

Lemma computeResults_relevant :
  forall allScores evs m,
    (forall ev, In ev evs -> In ev events) ->
    (forall uid, In uid (List.map fst m) -> In uid userIds) ->
    computeResults localeCompare roundWeighted evs
      (filter (isRelevant (List.map ev_id events) userIds) allScores) m
    = computeResults localeCompare roundWeighted evs allScores m.
Proof.
  intros allScores evs. unfold computeResults.
  induction evs as [| ev evs IH]; intros m Hevs Hkeys; simpl; [reflexivity |].
  rewrite processEvent_relevant by (auto; apply Hevs; now left).
  apply IH.
  - intros ev' Hev'. apply Hevs. now right.
  - intros uid. rewrite processEvent_keys. apply Hkeys.
Qed.
End IrrelevantScores.

(** X22: score rows of events that are not published for the track and
    score rows of users without a registration have no effect: the
    leaderboard computed from all the rows the score query returns
    is the one computed from its rows of published events and
    registered users. *)
Theorem stray_scores_are_ignored :
  forall JSON_parse String_trim localeCompare roundWeighted db competitionId,
    getLeaderboard JSON_parse String_trim localeCompare roundWeighted
      (withScores db
         (fun eventIds userIds =>
            filter (isRelevant eventIds userIds) (selectScores db eventIds userIds)))
      competitionId
    = getLeaderboard JSON_parse String_trim localeCompare roundWeighted db competitionId.
Proof.
  intros P S L R db cid. unfold getLeaderboard, withScores.
  cbn [selectCompetition selectTrack selectEvents selectRegistrations selectScores].
  destruct (selectCompetition db cid) as [comp |]; [| reflexivity].
  destruct (selectTrack db cid) as [track |]; [| reflexivity].
  destruct (Nat.eqb (List.length (selectEvents db (track_id track))) 0); [reflexivity |].
  destruct (Nat.eqb (List.length (selectRegistrations db cid)) 0); [reflexivity |].
  destruct (buildAthleteMap P S (selectRegistrations db cid) []) as [m0 | msg] eqn:Hm0;
    [| reflexivity].
  simpl.
  rewrite computeResults_relevant; [reflexivity | auto |].
  intros uid Huid. now apply (buildAthleteMap_keys _ _ _ _ Hm0).
Qed.

Lemma stray_scores_are_ignored_witness :
  sampleLeaderboard
    (withScores dbStrayScores
       (fun eventIds userIds =>
          filter (isRelevant eventIds userIds) (selectScores dbStrayScores eventIds userIds)))
  = sampleLeaderboard dbStrayScores
  /\ sampleLeaderboard dbStrayScores = sampleLeaderboard dbSample.
Proof.
  split.
  - exact (stray_scores_are_ignored neverParses trimAscii compareCodeUnits roundExact
             dbStrayScores "comp_1").
  - unfold sampleLeaderboard.
    rewrite <- (stray_scores_are_ignored neverParses trimAscii compareCodeUnits roundExact
                  dbStrayScores "comp_1").
    vm_compute. reflexivity.
Defined.
